(** * Adaptive circuit breaker over a rolling window: model and properties

    A shallow embedding of the Go packages [collection] (rolling window),
    [breaker] (Google SRE adaptive throttling and its logging decorator) and
    [stringx] (random names).

    Conventions of the embedding.
    - Go's [int], [int64] and [time.Duration] are 64-bit two's complement
      integers: they are values of [Z], and every addition and subtraction
      of the source goes through [wrap64].  Go's [/] and [%] truncate toward
      zero: [Z.quot] and [Z.rem]; a zero divisor panics.
    - [float64] values are exact rationals ([Q]).  The breaker only stores
      sums of 0 and 1 and compares half-integers with zero, which binary64
      represents exactly below 2^53.
    - A pointer receiver that is mutated is a component of the state of a
      state-and-panic monad [M]; a Go panic is the outcome [Panic], and the
      state reached when the panic is raised is kept.
    - The monotonic clock, the probability sampler, the random source, the
      wall clock and the report sink are the components of [World]. *)

From Stdlib Require Import ZArith QArith Lia String Ascii List Bool DecimalString.
From stdpp Require Import base list.
Import ListNotations.

Local Open Scope Z_scope.

(** ** Machine integers *)

Module Int64.

Definition modulus : Z := 2 ^ 64.
Definition max_int : Z := 2 ^ 63 - 1.
Definition min_int : Z := - 2 ^ 63.

(** Two's complement reduction to the 64-bit signed range. *)
Definition wrap64 (z : Z) : Z := (z + 2 ^ 63) mod modulus - 2 ^ 63.

Definition in_range (z : Z) : Prop := min_int <= z <= max_int.

Definition add (a b : Z) : Z := wrap64 (a + b).
Definition sub (a b : Z) : Z := wrap64 (a - b).

End Int64.

(** ** Outcomes, and the state-and-panic monad *)

Inductive PanicValue : Type :=
| IndexOutOfRange
| DivideByZero
| NilDereference
| MakeSliceLen
| PanicString (msg : string).

Inductive Result (A : Type) : Type :=
| Ok (a : A)
| Panic (p : PanicValue).
Arguments Ok {A} a.
Arguments Panic {A} p.

Definition M (S A : Type) : Type := S -> Result A * S.

Definition ret {S A} (a : A) : M S A := fun s => (Ok a, s).

Definition bind {S A B} (m : M S A) (k : A -> M S B) : M S B :=
  fun s => match m s with
           | (Ok a, s') => k a s'
           | (Panic p, s') => (Panic p, s')
           end.

Definition panic {S A} (p : PanicValue) : M S A := fun s => (Panic p, s).
Definition get {S} : M S S := fun s => (Ok s, s).
Definition gets {S A} (f : S -> A) : M S A := fun s => (Ok (f s), s).
Definition put {S} (s : S) : M S unit := fun _ => (Ok tt, s).
Definition modify {S} (f : S -> S) : M S unit := fun s => (Ok tt, f s).

(** Run a computation on a component of the state. *)
Definition zoom {S T A} (view : S -> T) (update : T -> S -> S) (m : M T A) : M S A :=
  fun s => let (r, t) := m (view s) in (r, update t s).

(** [defer body fin]: Go's [defer]. The finalizer runs whether [body]
    returns or panics; a panic of [body] goes on after it. *)
Definition defer {S A} (body : M S A) (fin : M S unit) : M S A :=
  fun s => let (r, s1) := body s in
           match fin s1 with
           | (Ok _, s2) => (r, s2)
           | (Panic p, s2) => (Panic p, s2)
           end.

Declare Scope go_scope.
Delimit Scope go_scope with go.
Notation "'do' x <- m ; k" := (bind m (fun x => k))
  (at level 10, x name, m at level 100, k at level 200, only parsing) : go_scope.
Notation "'run' m ; k" := (bind m (fun _ => k))
  (at level 10, m at level 100, k at level 200, only parsing) : go_scope.
Local Open Scope go_scope.

(** Integer division and remainder of Go: truncated, panicking on zero. *)
Definition go_div {S} (a b : Z) : M S Z :=
  if b =? 0 then panic DivideByZero else ret (Int64.wrap64 (Z.quot a b)).
Definition go_rem {S} (a b : Z) : M S Z :=
  if b =? 0 then panic DivideByZero else ret (Z.rem a b).

(** Slice indexing of Go: panics outside [0, len). *)
Definition slice_get {A} (l : list A) (i : Z) : option A :=
  if i <? 0 then None else l !! Z.to_nat i.

Definition index {S A} (l : list A) (i : Z) : M S A :=
  match slice_get l i with
  | Some a => ret a
  | None => panic IndexOutOfRange
  end.

Definition slice_set {A} (l : list A) (i : Z) (a : A) : list A :=
  <[Z.to_nat i := a]> l.

(** [l[i] = a], with its bounds check. *)
Definition assign {A} (i : Z) (a : A) : M (list A) unit :=
  do l <- get;
  match slice_get l i with
  | Some _ => put (slice_set l i a)
  | None => panic IndexOutOfRange
  end.

(** [for i := start; i < start + n; i++ { body i }].  The counter stays
    below the loop bound, so [i++] never wraps. *)
Fixpoint for_loop {S} (n : nat) (i : Z) (body : Z -> M S unit) : M S unit :=
  match n with
  | O => ret tt
  | S n' => run body i; for_loop n' (i + 1) body
  end.

(** A local variable of type [A], initialised to [a], in scope of [m]. *)
Definition local {S A B} (a : A) (m : M (S * A) B) : M S B :=
  fun s => let (r, s') := m (s, a) in (r, fst s').

(** Use of the enclosing state from the scope of a local variable. *)
Definition outer {S A B} (m : M S B) : M (S * A) B :=
  zoom fst (fun s st => (s, snd st)) m.

(** [for i := start; i > start - n; i-- { body i }] *)
Fixpoint for_loop_down {S} (n : nat) (i : Z) (body : Z -> M S unit) : M S unit :=
  match n with
  | O => ret tt
  | S n' => run body i; for_loop_down n' (i - 1) body
  end.

(** ** The world outside the packages *)

Record World : Type := mkWorld {
  mono : nat -> Z;          (* successive readings of the monotonic clock *)
  mono_reads : nat;         (* how many of them were taken *)
  unif : nat -> Q;          (* successive draws of the sampler, in [0,1) *)
  unif_draws : nat;
  rnd : nat -> Z;           (* successive values of the source's Int63 *)
  rnd_draws : nat;
  wall : nat -> string;     (* successive formatted wall-clock readings *)
  wall_reads : nat;
  procName : string;        (* the identity of the process *)
  pid : Z;
  sink : list string        (* reports sent to the metrics sink, newest first *)
}.

Definition set_mono_reads (n : nat) (w : World) : World :=
  mkWorld (mono w) n (unif w) (unif_draws w) (rnd w) (rnd_draws w)
          (wall w) (wall_reads w) (procName w) (pid w) (sink w).
Definition set_unif_draws (n : nat) (w : World) : World :=
  mkWorld (mono w) (mono_reads w) (unif w) n (rnd w) (rnd_draws w)
          (wall w) (wall_reads w) (procName w) (pid w) (sink w).
Definition set_rnd_draws (n : nat) (w : World) : World :=
  mkWorld (mono w) (mono_reads w) (unif w) (unif_draws w) (rnd w) n
          (wall w) (wall_reads w) (procName w) (pid w) (sink w).
Definition set_wall_reads (n : nat) (w : World) : World :=
  mkWorld (mono w) (mono_reads w) (unif w) (unif_draws w) (rnd w) (rnd_draws w)
          (wall w) n (procName w) (pid w) (sink w).
Definition set_sink (l : list string) (w : World) : World :=
  mkWorld (mono w) (mono_reads w) (unif w) (unif_draws w) (rnd w) (rnd_draws w)
          (wall w) (wall_reads w) (procName w) (pid w) l.

(** A state made of an object and the world. *)
Definition on_world {T A} (m : M World A) : M (T * World) A :=
  zoom snd (fun w s => (fst s, w)) m.
Definition on_obj {T A} (m : M T A) : M (T * World) A :=
  zoom fst (fun t s => (t, snd s)) m.

(** ** Package timex *)

Module timex.

(** Modelled from the spec: [timex.Now] is not among the sources (only
    its test is). "now() -> Duration (elapsed since an arbitrary fixed
    epoch, monotonically non-decreasing even across wall-clock
    changes)": the next reading of the clock. *)
Definition Now : M World Z :=
  fun w => (Ok (mono w (mono_reads w)), set_mono_reads (S (mono_reads w)) w).

(** Modelled from the spec: [timex.Since] is not among the sources.
    "since(mark: Duration) -> Duration": the elapsed time since the
    mark, by a fresh reading of the clock. *)
Definition Since (d : Z) : M World Z :=
  do t <- Now; ret (Int64.sub t d).

(** The clock contract: readings are durations since a past epoch and
    never decrease. *)
Definition monotonic (w : World) : Prop :=
  forall n, (0 <= mono w n <= Int64.max_int) /\ mono w n <= mono w (S n).

End timex.

(** ** Package collection: the rolling window *)

Module collection.

Record Bucket : Type := mkBucket { Sum : Q; Count : Z }.

Definition Bucket_add (v : Q) (b : Bucket) : Bucket :=
  mkBucket (Sum b + v)%Q (Int64.add (Count b) 1).

Definition Bucket_reset (b : Bucket) : Bucket := mkBucket 0%Q 0.

(** [new(Bucket)] *)
Definition zeroBucket : Bucket := mkBucket 0%Q 0.

(** [buckets] is a slice of pointers: a slot is [None] while it holds
    the nil pointer. *)
Record window : Type := mkWindow {
  win_buckets : list (option Bucket);
  win_size : Z
}.

Definition set_win_buckets (bs : list (option Bucket)) (w : window) : window :=
  mkWindow bs (win_size w).

(** [w.buckets[i]] followed by a dereference. *)
Definition deref {S} (w : window) (i : Z) : M S Bucket :=
  do p <- index (win_buckets w) i;
  match p with
  | Some b => ret b
  | None => panic NilDereference
  end.

(** Write through the pointer [w.buckets[i]]. *)
Definition store (i : Z) (b : Bucket) : M window unit :=
  modify (fun w => set_win_buckets (slice_set (win_buckets w) i (Some b)) w).

Definition newWindow {S} (size : Z) : M S window :=
  if size <? 0 then panic MakeSliceLen
  else
    do bs <- local (replicate (Z.to_nat size) (@None Bucket))
               (run for_loop (Z.to_nat size) 0 (fun i =>
                      zoom snd (fun l st => (fst st, l)) (assign i (Some zeroBucket)));
                gets snd);
    ret (mkWindow bs size).

Definition window_add (offset : Z) (v : Q) : M window unit :=
  do w <- get;
  do i <- go_rem offset (win_size w);
  do b <- deref w i;
  store i (Bucket_add v b).

(** The callback receives the pointer to a bucket and dereferences it:
    it reads the bucket, may write it, and updates the variables it
    closes over (of type [A]). [reduce_body] is the body of the loop. *)
Definition reduce_body {A} (start : Z) (fn : Bucket -> A -> Bucket * A)
  : Z -> M (window * A) unit := fun i =>
  do st <- get;
  do j <- go_rem (Int64.add start i) (win_size (fst st));
  do b <- deref (fst st) j;
  let (b', a') := fn b (snd st) in
  put (set_win_buckets (slice_set (win_buckets (fst st)) j (Some b')) (fst st), a').

Definition window_reduce {A} (start count : Z) (fn : Bucket -> A -> Bucket * A)
  : M (window * A) unit :=
  for_loop (Z.to_nat count) 0 (reduce_body start fn).

Definition window_resetBucket (offset : Z) : M window unit :=
  do w <- get;
  do i <- go_rem offset (win_size w);
  do b <- deref w i;
  store i (Bucket_reset b).

Record RollingWindow : Type := mkRollingWindow {
  rw_size : Z;
  rw_win : window;
  rw_interval : Z;
  rw_offset : Z;
  rw_ignoreCurrent : bool;
  rw_lastTime : Z
}.

Definition set_rw_win (x : window) (r : RollingWindow) : RollingWindow :=
  mkRollingWindow (rw_size r) x (rw_interval r) (rw_offset r)
                  (rw_ignoreCurrent r) (rw_lastTime r).
Definition set_rw_offset (x : Z) (r : RollingWindow) : RollingWindow :=
  mkRollingWindow (rw_size r) (rw_win r) (rw_interval r) x
                  (rw_ignoreCurrent r) (rw_lastTime r).
Definition set_rw_ignoreCurrent (x : bool) (r : RollingWindow) : RollingWindow :=
  mkRollingWindow (rw_size r) (rw_win r) (rw_interval r) (rw_offset r)
                  x (rw_lastTime r).
Definition set_rw_lastTime (x : Z) (r : RollingWindow) : RollingWindow :=
  mkRollingWindow (rw_size r) (rw_win r) (rw_interval r) (rw_offset r)
                  (rw_ignoreCurrent r) x.

Definition RollingWindowOption : Type := RollingWindow -> RollingWindow.

Definition IgnoreCurrentBucket : RollingWindowOption := set_rw_ignoreCurrent true.

(** The state of the methods of a rolling window. *)
Definition RW : Type := (RollingWindow * World)%type.

Definition on_win {A} (m : M window A) : M RW A :=
  on_obj (zoom rw_win set_rw_win m).

Definition NewRollingWindow (size interval : Z) (opts : list RollingWindowOption)
  : M World RollingWindow :=
  if size <? 1 then panic (PanicString "size must be greater than 0")
  else
    do win <- newWindow size;
    do now <- timex.Now;
    let w := mkRollingWindow size win interval 0 false now in
    ret (fold_left (fun w opt => opt w) opts w).

Definition span : M RW Z :=
  do rw <- gets fst;
  do d <- on_world (timex.Since (rw_lastTime rw));
  do offset <- go_div d (rw_interval rw);
  if (0 <=? offset) && (offset <? rw_size rw) then ret offset
  else ret (rw_size rw).

(** The body of the loop of [updateOffset], [offset] being its local
    copy of the cursor. *)
Definition reset_body (offset : Z) : Z -> M RW unit := fun i =>
  do size <- gets (fun st : RW => rw_size (fst st));
  do j <- go_rem (Int64.add (Int64.add offset i) 1) size;
  on_win (window_resetBucket j).

Definition updateOffset : M RW unit :=
  do span <- span;
  if span <=? 0 then ret tt
  else
    do offset <- gets (fun st => rw_offset (fst st));
    run for_loop (Z.to_nat span) 0 (reset_body offset);
    do size <- gets (fun st => rw_size (fst st));
    do offset' <- go_rem (Int64.add offset span) size;
    run on_obj (modify (set_rw_offset offset'));
    do now <- on_world timex.Now;
    do rw <- gets fst;
    do r <- go_rem (Int64.sub now (rw_lastTime rw)) (rw_interval rw);
    on_obj (modify (set_rw_lastTime (Int64.sub now r))).

Definition Add (v : Q) : M RW unit :=
  run updateOffset;
  do offset <- gets (fun st => rw_offset (fst st));
  on_win (window_add offset v).

Definition Reduce {A} (fn : Bucket -> A -> Bucket * A) (a : A) : M RW A :=
  do span <- span;
  do rw <- gets fst;
  let diff := if (span =? 0) && rw_ignoreCurrent rw
              then Int64.sub (rw_size rw) 1
              else Int64.sub (rw_size rw) span in
  if 0 <? diff then
    do offset <- go_rem (Int64.add (Int64.add (rw_offset rw) span) 1) (rw_size rw);
    on_win (local a (run window_reduce offset diff fn; gets snd))
  else ret a.

(** *** Well-formed windows *)

(** The bucket a slot points to. *)
Definition wbucket (win : window) (j : Z) : option Bucket :=
  match slice_get (win_buckets win) j with
  | Some p => p
  | None => None
  end.

Definition bucket_at (rw : RollingWindow) (j : Z) : option Bucket :=
  wbucket (rw_win rw) j.

(** The window in which slot [j] points to bucket [b]. *)
Definition wpoke (j : Z) (b : Bucket) (win : window) : window :=
  set_win_buckets (slice_set (win_buckets win) j (Some b)) win.

Definition poke (j : Z) (b : Bucket) (rw : RollingWindow) : RollingWindow :=
  set_rw_win (wpoke j b (rw_win rw)) rw.

(** [size] buckets, none of them nil. *)
Record wf_window (size : Z) (win : window) : Prop := mkWfWindow {
  wfw_size : win_size win = size;
  wfw_length : Z.of_nat (length (win_buckets win)) = size;
  wfw_non_nil : forall j, 0 <= j < size -> is_Some (wbucket win j)
}.

(** What [NewRollingWindow] establishes and [Add] keeps: a well-formed
    window of [size] buckets and the cursor inside it. A positive
    interval is the caller's duty; the bound on [size] is far above
    what a slice can hold. *)
Record wf (rw : RollingWindow) : Prop := mkWf {
  wf_size : 1 <= rw_size rw /\ 2 * rw_size rw < Int64.max_int;
  wf_win : wf_window (rw_size rw) (rw_win rw);
  wf_offset : 0 <= rw_offset rw < rw_size rw;
  wf_interval : 0 < rw_interval rw
}.

(** The [n]-th reading of the clock from now on. *)
Definition reading (w : World) (n : nat) : Z := mono w (mono_reads w + n).

(** The clock keeps its contract and [lastTime] is a past reading. *)
Definition timely (rw : RollingWindow) (w : World) : Prop :=
  timex.monotonic w /\ 0 <= rw_lastTime rw <= reading w 0.

(** Two windows that differ in their buckets only. *)
Definition same_frame (rw rw' : RollingWindow) : Prop :=
  rw_size rw' = rw_size rw /\ rw_interval rw' = rw_interval rw /\
  rw_offset rw' = rw_offset rw /\ rw_ignoreCurrent rw' = rw_ignoreCurrent rw /\
  rw_lastTime rw' = rw_lastTime rw.

(** One call of the callback, on the bucket of slot [j]. *)
Definition visit {A} (fn : Bucket -> A -> Bucket * A) (st : window * A) (j : Z)
  : window * A :=
  match wbucket (fst st) j with
  | Some b => (wpoke j (fst (fn b (snd st))) (fst st), snd (fn b (snd st)))
  | None => st
  end.

(** The callback only reads the bucket it is given. *)
Definition read_only {A} (fn : Bucket -> A -> Bucket * A) : Prop :=
  forall b a, fst (fn b a) = b.

(** *** The view of [Reduce] *)

(** What [span] returns when the clock reads [now]. *)
Definition span_at (rw : RollingWindow) (now : Z) : Z :=
  let n := Int64.wrap64 (Z.quot (Int64.sub now (rw_lastTime rw)) (rw_interval rw)) in
  if (0 <=? n) && (n <? rw_size rw) then n else rw_size rw.

(** The number of buckets [Reduce] hands to its callback when [span]
    returned [sp], and their slots, in the order of the calls. *)
Definition reduce_count (rw : RollingWindow) (sp : Z) : Z :=
  if (sp =? 0) && rw_ignoreCurrent rw then rw_size rw - 1 else rw_size rw - sp.

Definition reduce_slots (rw : RollingWindow) (sp : Z) : list Z :=
  map (fun i => (rw_offset rw + sp + 1 + i) mod rw_size rw) (seqZ 0 (reduce_count rw sp)).

(** The slots [updateOffset] resets when [span] returned [sp]. *)
Definition stale (rw : RollingWindow) (sp j : Z) : Prop :=
  exists i, 0 <= i < sp /\ j = (rw_offset rw + i + 1) mod rw_size rw.

End collection.

(** ** Package mathx *)

Module mathx.

(** Modelled from the spec: [mathx.Proba.TrueOnProba] is not among the
    sources. "given a probability p in [0,1], returns true with
    long-run frequency p": the next uniform draw is below [p]. *)
Definition TrueOnProba (proba : Q) : M World bool :=
  fun w => (Ok (if Qlt_le_dec (unif w (unif_draws w)) proba then true else false),
            set_unif_draws (S (unif_draws w)) w).

(** Modelled from the spec: [mathx.MinInt] is not among the sources; it
    keeps "count <= capacity", the smaller of its two arguments. *)
Definition MinInt (a b : Z) : Z := Z.min a b.

End mathx.

(** ** Package stringx *)

Module stringx.

Definition letterBytes : string :=
  "abcdefghijklmnopqrstuvwxyzABCDEFGHIJKLMNOPQRSTUVWXYZ0123456789".
Definition letterIdxBits : Z := 6.
Definition defaultRandLen : Z := 8.
Definition letterIdxMask : Z := Z.shiftl 1 letterIdxBits - 1.
Definition letterIdxMax : Z := Z.quot 63 letterIdxBits.

(** [src.Int63()]: the next value of the locked source. *)
Definition Int63 : M World Z :=
  fun w => (Ok (rnd w (rnd_draws w)), set_rnd_draws (S (rnd_draws w)) w).

(** The loop of [Randn]; its state is the byte slice [b]. [None] when
    the fuel does not suffice. *)
Fixpoint Randn_loop (fuel : nat) (i cache remain : Z)
  : M (list ascii * World) (option unit) :=
  match fuel with
  | O => ret None
  | S fuel' =>
      if i <? 0 then ret (Some tt)
      else
        do cr <- (if remain =? 0
                  then do c <- on_world Int63; ret (c, letterIdxMax)
                  else ret (cache, remain));
        let idx := Z.land (fst cr) letterIdxMask in
        do i' <- (if idx <? Z.of_nat (String.length letterBytes)
                  then match String.get (Z.to_nat idx) letterBytes with
                       | Some c => run on_obj (assign i c); ret (Int64.sub i 1)
                       | None => panic IndexOutOfRange
                       end
                  else ret i);
        Randn_loop fuel' i' (Z.shiftr (fst cr) letterIdxBits) (Int64.sub (snd cr) 1)
  end.

Definition Randn (fuel : nat) (n : Z) : M World (option string) :=
  if n <? 0 then panic MakeSliceLen
  else
    do cache <- Int63;
    fun w =>
      match Randn_loop fuel (Int64.sub n 1) cache letterIdxMask
                       (replicate (Z.to_nat n) zero, w) with
      | (Ok (Some _), (b, w')) => (Ok (Some (string_of_list_ascii b)), w')
      | (Ok None, (_, w')) => (Ok None, w')
      | (Panic p, (_, w')) => (Panic p, w')
      end.

Definition Rand (fuel : nat) : M World (option string) := Randn fuel defaultRandLen.

(** The contract of [rand.Source.Int63]: a non-negative 63-bit integer. *)
Definition source_ok (w : World) : Prop := forall n, 0 <= rnd w n < 2 ^ 63.

(** One of the characters of [letterBytes]. *)
Definition letter (c : ascii) : Prop :=
  exists k, String.get k letterBytes = Some c.

End stringx.

(** ** Package breaker *)

Module breaker.

Import collection.

(** *** Errors *)

(** An [error] value: the sentinel [ErrServiceUnavailable], any other
    error, or an error wrapping another one. The nil error is [None]. *)
Inductive errval : Type :=
| ErrServiceUnavailable
| ErrorString (msg : string)
| Wrapping (msg : string) (inner : errval).

Definition error : Type := option errval.

Definition Error (e : errval) : string :=
  match e with
  | ErrServiceUnavailable => "circuit breaker is open"
  | ErrorString msg => msg
  | Wrapping msg _ => msg
  end.

(** [errors.Is(err, ErrServiceUnavailable)] *)
Fixpoint is_unavailable (e : errval) : bool :=
  match e with
  | ErrServiceUnavailable => true
  | ErrorString _ => false
  | Wrapping _ inner => is_unavailable inner
  end.

Definition errors_Is_unavailable (err : error) : bool :=
  match err with
  | Some e => is_unavailable e
  | None => false
  end.

Definition defaultAcceptable {S} (err : error) : M S bool :=
  ret (match err with None => true | Some _ => false end).

(** *** The error window *)

Definition numHistoryReasons : Z := 5.

Record errorWindow : Type := mkErrorWindow {
  ew_reasons : list string;   (* an array of [numHistoryReasons] strings *)
  ew_index : Z;
  ew_count : Z
}.

(** [new(errorWindow)] *)
Definition new_errorWindow : errorWindow :=
  mkErrorWindow (replicate (Z.to_nat numHistoryReasons) EmptyString) 0 0.

(** [time.Now().Format(timeFormat)]: the next reading of the wall
    clock, formatted. *)
Definition now_formatted : M World string :=
  fun w => (Ok (wall w (wall_reads w)), set_wall_reads (S (wall_reads w)) w).

Definition errorWindow_add (reason : string) : M (errorWindow * World) unit :=
  do stamp <- on_world now_formatted;
  do ew <- gets fst;
  run on_obj (zoom ew_reasons (fun l e => mkErrorWindow l (ew_index e) (ew_count e))
                (assign (ew_index ew) (stamp ++ " " ++ reason)%string));
  do i <- go_rem (Int64.add (ew_index ew) 1) numHistoryReasons;
  on_obj (modify (fun e =>
    mkErrorWindow (ew_reasons e) i
                  (mathx.MinInt (Int64.add (ew_count e) 1) numHistoryReasons))).

Definition newline : string := String (ascii_of_nat 10) EmptyString.

(** The body of the loop of [String]: one more reason appended. *)
Definition reasons_body (ew : errorWindow) : Z -> M (list string) unit := fun i =>
  do j <- go_rem (Int64.add i numHistoryReasons) numHistoryReasons;
  do r <- index (ew_reasons ew) j;
  modify (fun reasons => reasons ++ [r]).

(** The reasons gathered by the loop of [String], in the order of the
    appends: [i] runs from [index - 1] down to [index - count]. *)
Definition errorWindow_reasons (ew : errorWindow) : M (list string) unit :=
  let hi := Int64.sub (ew_index ew) 1 in
  let lo := Int64.sub (ew_index ew) (ew_count ew) in
  for_loop_down (Z.to_nat (hi - lo + 1)) hi (reasons_body ew).

Definition errorWindow_String (ew : errorWindow) : Result string :=
  match errorWindow_reasons ew [] with
  | (Ok _, reasons) => Ok (String.concat newline reasons)
  | (Panic p, _) => Panic p
  end.

(** Successive calls of [add], one per reason. *)
Fixpoint errorWindow_add_all (reasons : list string) : M (errorWindow * World) unit :=
  match reasons with
  | [] => ret tt
  | r :: rest => run errorWindow_add r; errorWindow_add_all rest
  end.

(** The entries these calls store, oldest first: each reason after the
    wall-clock reading its call took. *)
Definition entries (w : World) (reasons : list string) : list string :=
  imap (fun i r => (wall w (wall_reads w + i) ++ " " ++ r)%string) reasons.

(** What the error window holds after the entries [es] were added, the
    oldest first: the [i]-th newest entry is in slot
    [(length es - 1 - i) mod 5]. *)
Record ew_holds (ew : errorWindow) (es : list string) : Prop := mkEwHolds {
  ewh_index : ew_index ew = Z.of_nat (length es) mod numHistoryReasons;
  ewh_count : ew_count ew = Z.min (Z.of_nat (length es)) numHistoryReasons;
  ewh_length : length (ew_reasons ew) = Z.to_nat numHistoryReasons;
  ewh_slots : forall i, 0 <= i < Z.min (Z.of_nat (length es)) numHistoryReasons ->
    slice_get (ew_reasons ew) ((Z.of_nat (length es) - 1 - i) mod numHistoryReasons)
    = rev es !! Z.to_nat i
}.

(** *** The adaptive breaker *)

Definition window : Z := 10 * 1000000000.   (* time.Second * 10 *)
Definition buckets : Z := 40.
Definition k : Q := 3 # 2.
Definition protection : Z := 5.

Record googleBreaker : Type := mkGoogleBreaker {
  gb_k : Q;
  gb_stat : RollingWindow
  (* [proba]: the sampler is the world's *)
}.

Definition set_gb_stat (x : RollingWindow) (b : googleBreaker) : googleBreaker :=
  mkGoogleBreaker (gb_k b) x.

Definition newGoogleBreaker : M World googleBreaker :=
  do bucketDuration <- go_div window buckets;
  do st <- NewRollingWindow buckets bucketDuration [];
  ret (mkGoogleBreaker k st).

(** The state of the methods of a breaker: the breaker, the variables
    [U] the caller's callbacks close over, and the world. *)
Definition GB (U : Type) : Type := (googleBreaker * (U * World))%type.

Definition on_stat {U A} (m : M RW A) : M (GB U) A :=
  zoom (fun s : GB U => (gb_stat (fst s), snd (snd s)))
       (fun t s => (set_gb_stat (fst t) (fst s), (fst (snd s), snd t))) m.

Definition in_world {U A} (m : M World A) : M (GB U) A :=
  zoom (fun s : GB U => snd (snd s)) (fun w s => (fst s, (fst (snd s), w))) m.

(** A callback of the caller: it runs on the caller's variables and the
    world, and cannot reach the breaker. *)
Definition callback {U A} (m : M (U * World) A) : M (GB U) A :=
  zoom snd (fun t s => (fst s, t)) m.

(** [int64(f)] of a float: truncation toward zero. *)
Definition int64_of_float (q : Q) : Z :=
  Int64.wrap64 (Z.quot (Qnum q) (Z.pos (Qden q))).

(** [float64(n)] of an integer. *)
Definition float64 (n : Z) : Q := inject_Z n.

(** The callback of [history]: it adds the bucket to the two named
    results, [accepts] and [total]. *)
Definition tally (b : Bucket) (acc : Z * Z) : Bucket * (Z * Z) :=
  (b, (Int64.add (fst acc) (int64_of_float (Sum b)),
       Int64.add (snd acc) (Count b))).

Definition history {U} : M (GB U) (Z * Z) :=
  on_stat (Reduce tally (0, 0)).

(** What the breaker keeps in a bucket: a number of successes among a
    number of samples, itself at most [m]. *)
Definition tallied_bucket (m : Z) (b : Bucket) : Prop :=
  exists s, (Sum b == inject_Z s)%Q /\ 0 <= s <= Count b /\ Count b <= m.

Definition tallied (m : Z) (rw : RollingWindow) : Prop :=
  forall j b, bucket_at rw j = Some b -> tallied_bucket m b.

(** *** The samples a window holds *)

Definition sumZ (l : list Z) : Z := fold_right Z.add 0 l.

(** The samples, and the successes among them, in the bucket of a slot. *)
Definition count_at (rw : RollingWindow) (j : Z) : Z :=
  match bucket_at rw j with Some b => Count b | None => 0 end.
Definition success_at (rw : RollingWindow) (j : Z) : Z :=
  match bucket_at rw j with Some b => int64_of_float (Sum b) | None => 0 end.

(** The same over a list of slots, and over the whole window. *)
Definition samples_in (rw : RollingWindow) (slots : list Z) : Z :=
  sumZ (map (count_at rw) slots).
Definition successes_in (rw : RollingWindow) (slots : list Z) : Z :=
  sumZ (map (success_at rw) slots).
Definition samples (rw : RollingWindow) : Z := samples_in rw (seqZ 0 (rw_size rw)).
Definition successes (rw : RollingWindow) : Z := successes_in rw (seqZ 0 (rw_size rw)).

(** What a breaker keeps of its window: every bucket holds a number of
    successes among a number of samples, the samples of the window are
    [n] at most and its successes [ns] at most. *)
Definition counts_within (ns n : Z) (rw : RollingWindow) : Prop :=
  tallied n rw /\ successes rw <= ns /\ samples rw <= n.

(** [total + 1] is not zero when [total] is a count, so the division
    is one of numbers. *)
Definition dropRatio (kk : Q) (accepts total : Z) : Q :=
  let weightedAccepts := (kk + float64 accepts)%Q in
  ((float64 (Int64.sub total protection) - weightedAccepts)
     / float64 (Int64.add total 1))%Q.

Definition accept {U} : M (GB U) error :=
  do h <- history;
  do kk <- gets (fun s => gb_k (fst s));
  let ratio := dropRatio kk (fst h) (snd h) in
  if Qle_bool ratio 0 then ret None
  else
    do drop <- in_world (mathx.TrueOnProba ratio);
    if drop then ret (Some ErrServiceUnavailable) else ret None.

Definition markSuccess {U} : M (GB U) unit := on_stat (Add 1).
Definition markFailure {U} : M (GB U) unit := on_stat (Add 0).

(** A [googlePromise] holds the pointer to its breaker, the one of the
    state. *)
Inductive googlePromise : Type := mkGooglePromise.

(** The interface value [internalPromise]: nil or a [googlePromise]. *)
Definition internalPromise : Type := option googlePromise.

Definition internalPromise_Accept {U} (p : internalPromise) : M (GB U) unit :=
  match p with
  | Some _ => markSuccess
  | None => panic NilDereference
  end.

Definition internalPromise_Reject {U} (p : internalPromise) : M (GB U) unit :=
  match p with
  | Some _ => markFailure
  | None => panic NilDereference
  end.

Definition Fallback (U : Type) : Type := option (error -> M (U * World) error).
Definition Acceptable (U : Type) : Type := error -> M (U * World) bool.

Definition allow {U} : M (GB U) (internalPromise * error) :=
  do err <- accept;
  match err with
  | Some e => run markFailure; ret (None, Some e)
  | None => ret (Some mkGooglePromise, None)
  end.

Definition doReq {U} (req : M (U * World) error) (fallback : Fallback U)
           (acceptable : Acceptable U) : M (GB U) error :=
  do err <- accept;
  match err with
  | Some e =>
      run markFailure;
      match fallback with
      | Some f => callback (f (Some e))
      | None => ret (Some e)
      end
  | None =>
      (* var success bool *)
      local false
        (defer
           (do err <- outer (callback req);
            do ok <- outer (callback (acceptable err));
            run (if ok then zoom snd (fun b st => (fst st, b)) (put true)
                 else ret tt);
            ret err)
           (do success <- gets snd;
            if (success : bool) then outer markSuccess else outer markFailure))
  end.

(** *** The logging decorator *)

Record loggedThrottle : Type := mkLoggedThrottle {
  lt_name : string;
  lt_internal : googleBreaker;   (* [internalThrottle], a [*googleBreaker] *)
  lt_errWin : errorWindow
}.

Definition LT (U : Type) : Type := (loggedThrottle * (U * World))%type.

(** The wrapped breaker; the callbacks handed to it close over the
    error window as well. *)
Definition on_internal {U A} (m : M (GB (errorWindow * U)) A) : M (LT U) A :=
  zoom (fun s : LT U =>
          (lt_internal (fst s), ((lt_errWin (fst s), fst (snd s)), snd (snd s))))
       (fun t s =>
          (mkLoggedThrottle (lt_name (fst s)) (fst t) (fst (fst (snd t))),
           (snd (fst (snd t)), snd (snd t)))) m.

Definition on_errWin {U A} (m : M (errorWindow * World) A) : M (LT U) A :=
  zoom (fun s : LT U => (lt_errWin (fst s), snd (snd s)))
       (fun t s =>
          (mkLoggedThrottle (lt_name (fst s)) (lt_internal (fst s)) (fst t),
           (fst (snd s), snd t))) m.

(** The same two views, from inside a callback handed to the wrapped
    breaker. *)
Definition cb_user {U A} (m : M (U * World) A) : M ((errorWindow * U) * World) A :=
  zoom (fun s => (snd (fst s), snd s)) (fun t s => ((fst (fst s), fst t), snd t)) m.
Definition cb_errWin {U A} (m : M (errorWindow * World) A)
  : M ((errorWindow * U) * World) A :=
  zoom (fun s => (fst (fst s), snd s)) (fun t s => ((fst t, snd (fst s)), snd t)) m.

Definition newLoggedThrottle (name : string) (t : googleBreaker) : loggedThrottle :=
  mkLoggedThrottle name t new_errorWindow.

(** Modelled from the spec: [stat.Report] is not among the sources.
    "accepts a formatted string for out-of-band reporting;
    fire-and-forget". *)
Definition Report (msg : string) : M World unit :=
  modify (fun w => set_sink (msg :: sink w) w).

(** [%s] of the error window: [fmt] calls [String] and prints its own
    note when that panics. *)
Definition fmt_errorWindow (ew : errorWindow) : string :=
  match errorWindow_String ew with
  | Ok s => s
  | Panic _ => "%!s(PANIC=String method: runtime error: index out of range)"
  end.

Definition logError {U} (err : error) : M (LT U) error :=
  if errors_Is_unavailable err then
    do lt <- gets fst;
    do w <- gets (fun s => snd (snd s));
    run on_errWin (on_world (Report
          ("proc(" ++ procName w ++ "/" ++ NilZero.string_of_int (Z.to_int (pid w))
           ++ "), callee: " ++ lt_name lt
           ++ ", breaker is open and requests dropped" ++ newline
           ++ "last errors:" ++ newline ++ fmt_errorWindow (lt_errWin lt))%string));
    ret err
  else ret err.

Record PromiseWithReason : Type := mkPromiseWithReason {
  promise : internalPromise
  (* [errWin]: the error window of the state *)
}.

Definition loggedThrottle_allow {U} : M (LT U) (PromiseWithReason * error) :=
  do r <- on_internal allow;
  do err <- logError (snd r);
  ret (mkPromiseWithReason (fst r), err).

Definition loggedThrottle_doReq {U} (req : M (U * World) error)
           (fallback : Fallback U) (acceptable : Acceptable U) : M (LT U) error :=
  do err <- on_internal
              (doReq (cb_user req)
                     (match fallback with
                      | Some f => Some (fun e => cb_user (f e))
                      | None => None
                      end)
                     (fun err =>
                        do accept <- cb_user (acceptable err);
                        run (match err with
                             | Some e =>
                                 if negb accept then cb_errWin (errorWindow_add (Error e))
                                 else ret tt
                             | None => ret tt
                             end);
                        ret accept));
  logError err.

Definition PromiseWithReason_Accept {U} (p : PromiseWithReason) : M (LT U) unit :=
  on_internal (internalPromise_Accept (promise p)).

Definition PromiseWithReason_Reject {U} (p : PromiseWithReason) (reason : string)
  : M (LT U) unit :=
  run on_errWin (errorWindow_add reason);
  on_internal (internalPromise_Reject (promise p)).

(** *** The breaker handed to callers *)

Record circuitBreaker : Type := mkCircuitBreaker {
  cb_name : string;
  cb_throttle : option loggedThrottle   (* the interface [throttle], nil when unset *)
}.

Definition Option : Type := circuitBreaker -> circuitBreaker.

(** The interface value [Breaker]: nil or a [*circuitBreaker]. *)
Inductive Breaker : Type :=
| nilBreaker
| BreakerOf (cb : circuitBreaker).

(** [NewBreaker]. The result is [None] when the fuel given to
    [stringx.Rand] does not suffice. *)
Definition NewBreaker (fuel : nat) (opts : list Option) : M World (option Breaker) :=
  let b := fold_left (fun b opt => opt b) opts (mkCircuitBreaker EmptyString None) in
  do b' <- (if (String.length (cb_name b) =? 0)%nat
            then do name <- stringx.Rand fuel;
                 ret (match name with
                      | Some n => Some (mkCircuitBreaker n (cb_throttle b))
                      | None => None
                      end)
            else ret (Some b));
  ret (match b' with
       | Some _ => Some nilBreaker
       | None => None
       end).

(** A method call on the interface value. *)
Definition Name (b : Breaker) : Result string :=
  match b with
  | nilBreaker => Panic NilDereference
  | BreakerOf cb => Ok (cb_name cb)
  end.

Definition CB (U : Type) : Type := (circuitBreaker * (U * World))%type.

Definition on_throttle {U A} (m : M (LT U) A) : M (CB U) A :=
  fun s =>
    match cb_throttle (fst s) with
    | None => (Panic NilDereference, s)
    | Some lt =>
        let (r, t) := m (lt, snd s) in
        (r, (mkCircuitBreaker (cb_name (fst s)) (Some (fst t)), snd t))
    end.

Definition Allow {U} : M (CB U) (PromiseWithReason * error) :=
  on_throttle loggedThrottle_allow.

Definition Do {U} (req : M (U * World) error) : M (CB U) error :=
  on_throttle (loggedThrottle_doReq req None defaultAcceptable).

Definition DoWithAcceptable {U} (req : M (U * World) error) (acceptable : Acceptable U)
  : M (CB U) error :=
  on_throttle (loggedThrottle_doReq req None acceptable).

Definition DoWithFallback {U} (req : M (U * World) error) (fallback : Fallback U)
  : M (CB U) error :=
  on_throttle (loggedThrottle_doReq req fallback defaultAcceptable).

Definition DoWithFallbackAcceptable {U} (req : M (U * World) error)
           (fallback : Fallback U) (acceptable : Acceptable U) : M (CB U) error :=
  on_throttle (loggedThrottle_doReq req fallback acceptable).

End breaker.

(** ** Sample inputs *)

Module Samples.

Import collection.

(** A clock that ticks 7 units per reading from 100 on. *)
Definition clock7 (n : nat) : Z := Z.min (100 + 7 * Z.of_nat n) 1000000.

Definition world0 : World :=
  mkWorld clock7 0 (fun _ => 1 # 2) 0 (fun _ => 0) 0 (fun _ => "12:00:00"%string) 0
          "svc" 1 [].

(** A clock stopped at 100. *)
Definition world_still : World :=
  mkWorld (fun _ => 100) 0 (fun _ => 1 # 2) 0 (fun _ => 0) 0
          (fun _ => "12:00:00"%string) 0 "svc" 1 [].

(** Four buckets of ten units each, the cursor on bucket 1. *)
Definition window_of (bs : list (option Bucket)) (lastTime : Z) : RollingWindow :=
  mkRollingWindow 4 (mkWindow bs 4) 10 1 false lastTime.

Definition window4 (lastTime : Z) : RollingWindow :=
  window_of [Some (mkBucket 1 1); Some (mkBucket 2 3);
             Some (mkBucket 0 2); Some (mkBucket 4 4)] lastTime.

(** Six samples, all successes; forty samples, all failures. *)
Definition all_success : list (option Bucket) :=
  [Some (mkBucket 1 1); Some (mkBucket 2 2); Some (mkBucket 0 0); Some (mkBucket 3 3)].
Definition all_failure : list (option Bucket) :=
  [Some (mkBucket 0 10); Some (mkBucket 0 10); Some (mkBucket 0 10);
   Some (mkBucket 0 10)].

Definition breaker_of (rw : RollingWindow) : breaker.googleBreaker :=
  breaker.mkGoogleBreaker breaker.k rw.

(** A request that fails with an error of its own. *)
Definition failing_req : M (unit * World) breaker.error :=
  ret (Some (breaker.ErrorString "boom")).

(** A callback that adds up the counts and empties each bucket through
    the pointer it is handed. *)
Definition draining (b : Bucket) (n : Z) : Bucket * Z :=
  (mkBucket 0 0, Int64.add n (Count b)).

End Samples.

(** * Properties *)

(** ** Machine integers *)

Module Int64Facts.

Import Int64.

Lemma wrap64_small z : in_range z -> wrap64 z = z.
Proof.
  unfold in_range, wrap64, modulus, min_int, max_int. intros H.
  rewrite Z.mod_small; lia.
Qed.

Lemma wrap64_range z : in_range (wrap64 z).
Proof.
  unfold in_range, wrap64, modulus, min_int, max_int.
  pose proof (Z.mod_pos_bound (z + 2 ^ 63) (2 ^ 64) ltac:(lia)). lia.
Qed.

Lemma add_small a b : in_range (a + b) -> add a b = a + b.
Proof. apply wrap64_small. Qed.

Lemma sub_small a b : in_range (a - b) -> sub a b = a - b.
Proof. apply wrap64_small. Qed.

Lemma in_range_nonneg z : 0 <= z <= max_int -> in_range z.
Proof. unfold in_range, min_int, max_int. lia. Qed.

End Int64Facts.

(** ** The rolling window *)

Module CollectionFacts.

Import collection Int64Facts.

Ltac run_step :=
  cbv beta iota delta [bind ret gets get put modify on_world on_obj on_win zoom
                       local outer panic fst snd].

Ltac int64_range :=
  unfold Int64.in_range, Int64.min_int, Int64.max_int in *; lia.

(** *** Slices *)

Lemma slice_get_set_eq {A} (l : list A) j a :
  0 <= j < Z.of_nat (length l) -> slice_get (slice_set l j a) j = Some a.
Proof.
  intros H. unfold slice_get, slice_set. destruct (Z.ltb_spec j 0); [lia|].
  apply list_lookup_insert_eq. lia.
Qed.

Lemma slice_get_set_ne {A} (l : list A) i j a :
  0 <= i -> 0 <= j -> i <> j -> slice_get (slice_set l i a) j = slice_get l j.
Proof.
  intros Hi Hj H. unfold slice_get, slice_set. destruct (Z.ltb_spec j 0); [lia|].
  apply list_lookup_insert_ne. lia.
Qed.

Lemma slice_set_id {A} (l : list A) j a :
  slice_get l j = Some a -> slice_set l j a = l.
Proof.
  unfold slice_get, slice_set. destruct (Z.ltb_spec j 0); [done|].
  apply list_insert_id.
Qed.

Lemma mod_apart x y s : 0 < y - x < s -> x mod s <> y mod s.
Proof.
  intros H E.
  assert (Hm : (y - x) mod s = 0).
  { rewrite Zminus_mod, E, Z.sub_diag. apply Z.mod_0_l. lia. }
  rewrite Z.mod_small in Hm; lia.
Qed.

(** *** Buckets of a well-formed window *)

Lemma wpoke_wf size j b win :
  wf_window size win -> 0 <= j < size -> wf_window size (wpoke j b win).
Proof.
  intros [Hs Hl Hnn] Hj. split; cbn; [done| |].
  - unfold slice_set. by rewrite length_insert.
  - intros i Hi. unfold wbucket; cbn.
    destruct (Z.eq_dec j i) as [->|Hne].
    + rewrite slice_get_set_eq by lia. eauto.
    + rewrite slice_get_set_ne by lia. apply (Hnn i Hi).
Qed.

Lemma wbucket_wpoke_eq size j b win :
  wf_window size win -> 0 <= j < size -> wbucket (wpoke j b win) j = Some b.
Proof.
  intros Hwf Hj. unfold wbucket; cbn. rewrite slice_get_set_eq; [done|].
  rewrite (wfw_length _ _ Hwf). lia.
Qed.

Lemma wbucket_wpoke_ne i j b win :
  0 <= i -> 0 <= j -> i <> j -> wbucket (wpoke i b win) j = wbucket win j.
Proof.
  intros Hi Hj Hne. unfold wbucket; cbn. by rewrite slice_get_set_ne.
Qed.

Lemma poke_wf j b rw : wf rw -> 0 <= j < rw_size rw -> wf (poke j b rw).
Proof.
  intros [Hs Hw Ho Hi] Hj. split; cbn; try assumption. by apply wpoke_wf.
Qed.

Lemma poke_frame j b rw : same_frame rw (poke j b rw).
Proof. repeat split. Qed.

Lemma bucket_at_poke_eq j b rw :
  wf rw -> 0 <= j < rw_size rw -> bucket_at (poke j b rw) j = Some b.
Proof. intros Hwf Hj. eapply wbucket_wpoke_eq; [apply (wf_win _ Hwf)|done]. Qed.

Lemma bucket_at_poke_ne i j b rw :
  0 <= i -> 0 <= j -> i <> j -> bucket_at (poke i b rw) j = bucket_at rw j.
Proof. apply wbucket_wpoke_ne. Qed.

Lemma bucket_at_poke_inv i j b b' rw :
  0 <= i ->
  bucket_at (poke i b rw) j = Some b' ->
  (j = i /\ b' = b) \/ bucket_at rw j = Some b'.
Proof.
  intros Hi. unfold bucket_at, wbucket, poke, wpoke, slice_get, slice_set. cbn.
  destruct (Z.ltb_spec j 0); [done|].
  destruct (decide (Z.to_nat i = Z.to_nat j)) as [E|E].
  - rewrite E. destruct (decide (Z.to_nat j < length (win_buckets (rw_win rw)))%nat).
    + rewrite list_lookup_insert_eq by done. intros [= <-]. left. split; [lia|done].
    + rewrite list_insert_ge by lia. by right.
  - rewrite list_lookup_insert_ne by done. by right.
Qed.

Lemma deref_run {S} size win j (s : S) :
  wf_window size win -> 0 <= j < size ->
  exists b, wbucket win j = Some b /\ deref win j s = (Ok b, s).
Proof.
  intros Hwf Hj. destruct (wfw_non_nil _ _ Hwf j Hj) as [b Hb].
  exists b. split; [done|]. unfold wbucket in Hb.
  unfold deref, index, bind, ret.
  destruct (slice_get (win_buckets win) j) as [[b'|]|]; try discriminate.
  cbn. congruence.
Qed.

Lemma resetBucket_run rw w j :
  wf rw -> 0 <= j < rw_size rw ->
  on_win (window_resetBucket j) (rw, w) = (Ok tt, (poke j zeroBucket rw, w)).
Proof.
  intros Hwf Hj. pose proof (wf_win _ Hwf) as Hw.
  destruct (deref_run (S:=window) _ _ j (rw_win rw) Hw Hj) as (b & Hb & Hd).
  unfold window_resetBucket, go_rem, store. run_step.
  rewrite (wfw_size _ _ Hw).
  destruct (Z.eqb_spec (rw_size rw) 0); [destruct (wf_size _ Hwf); lia|].
  cbn [fst snd]. rewrite Z.rem_small by lia. rewrite Hd. reflexivity.
Qed.

Lemma window_add_run rw w j v :
  wf rw -> 0 <= j < rw_size rw ->
  exists b, bucket_at rw j = Some b /\
    on_win (window_add j v) (rw, w) = (Ok tt, (poke j (Bucket_add v b) rw, w)).
Proof.
  intros Hwf Hj. pose proof (wf_win _ Hwf) as Hw.
  destruct (deref_run (S:=window) _ _ j (rw_win rw) Hw Hj) as (b & Hb & Hd).
  exists b. split; [done|].
  unfold window_add, go_rem, store. run_step.
  rewrite (wfw_size _ _ Hw).
  destruct (Z.eqb_spec (rw_size rw) 0); [destruct (wf_size _ Hwf); lia|].
  cbn [fst snd]. rewrite Z.rem_small by lia. rewrite Hd. reflexivity.
Qed.

(** *** The clock *)

Lemma timely_now rw w :
  timely rw w ->
  0 <= rw_lastTime rw <= mono w (mono_reads w) /\
  mono w (mono_reads w) <= mono w (S (mono_reads w)) <= Int64.max_int.
Proof.
  intros [Hm Hl]. unfold reading in Hl. rewrite Nat.add_0_r in Hl.
  pose proof (Hm (mono_reads w)) as [_ H1].
  pose proof (Hm (S (mono_reads w))) as [[_ H2] _]. lia.
Qed.

Lemma timely_advance rw rw' w :
  timely rw w -> 0 <= rw_lastTime rw' <= mono w (S (mono_reads w)) ->
  timely rw' (set_mono_reads (S (mono_reads w)) w).
Proof.
  intros [Hm Hl] H. split; [exact Hm|].
  unfold reading. cbn. by rewrite Nat.add_0_r.
Qed.

(** *** [span] *)

Lemma span_run rw w :
  wf rw -> timely rw w ->
  span (rw, w) =
    (Ok (Z.min ((reading w 0 - rw_lastTime rw) / rw_interval rw) (rw_size rw)),
     (rw, set_mono_reads (S (mono_reads w)) w)).
Proof.
  intros Hwf Ht. apply timely_now in Ht as [Hlast Hnext].
  destruct Hwf as [[Hs1 Hs2] _ _ Hi].
  unfold reading. rewrite Nat.add_0_r.
  unfold span, timex.Since, timex.Now, go_div. run_step.
  rewrite sub_small by int64_range.
  destruct (Z.eqb_spec (rw_interval rw) 0); [lia|]. cbn [fst snd].
  rewrite Z.quot_div_nonneg by lia.
  set (q := (mono w (mono_reads w) - rw_lastTime rw) / rw_interval rw).
  assert (Hq : 0 <= q <= mono w (mono_reads w)).
  { subst q. split; [apply Z.div_pos; lia|].
    transitivity (mono w (mono_reads w) - rw_lastTime rw); [|lia].
    apply Z.div_le_upper_bound; nia. }
  rewrite wrap64_small by int64_range.
  destruct (Z.leb_spec 0 q); [|lia].
  destruct (Z.ltb_spec q (rw_size rw)); cbn; f_equal; f_equal; lia.
Qed.

(** *** [updateOffset] *)

Lemma reset_body_run offset i rw w :
  wf rw -> 0 <= offset < rw_size rw -> 0 <= i < rw_size rw ->
  reset_body offset i (rw, w) =
    (Ok tt, (poke ((offset + i + 1) mod rw_size rw) zeroBucket rw, w)).
Proof.
  intros Hwf Ho Hi. pose proof (wf_size _ Hwf) as [Hs1 Hs2].
  unfold reset_body, go_rem.
  cbv beta iota delta [bind gets fst].
  rewrite (add_small offset i) by int64_range.
  rewrite add_small by int64_range.
  destruct (Z.eqb_spec (rw_size rw) 0); [lia|].
  cbv beta iota delta [ret].
  rewrite Z.rem_mod_nonneg by lia.
  apply resetBucket_run; [done|]. apply Z.mod_pos_bound. lia.
Qed.

Lemma reset_loop_run n : forall i0 rw w offset,
  wf rw -> 0 <= offset < rw_size rw -> 0 <= i0 -> i0 + Z.of_nat n <= rw_size rw ->
  exists rw',
    for_loop n i0 (reset_body offset) (rw, w) = (Ok tt, (rw', w)) /\
    wf rw' /\ same_frame rw rw' /\
    (forall i, i0 <= i < i0 + Z.of_nat n ->
       bucket_at rw' ((offset + i + 1) mod rw_size rw) = Some zeroBucket) /\
    (forall j, 0 <= j < rw_size rw ->
       (forall i, i0 <= i < i0 + Z.of_nat n -> j <> (offset + i + 1) mod rw_size rw) ->
       bucket_at rw' j = bucket_at rw j) /\
    (forall j b, bucket_at rw' j = Some b ->
       b = zeroBucket \/ bucket_at rw j = Some b).
Proof.
  induction n as [|n IH]; intros i0 rw w offset Hwf Ho Hi0 Hn.
  - exists rw. cbn. split; [done|]. split; [done|]. split; [by repeat split|].
    split; [intros; lia|]. split; [done|]. intros j b Hb. by right.
  - pose proof (wf_size _ Hwf) as [Hs1 Hs2].
    set (j0 := (offset + i0 + 1) mod rw_size rw).
    assert (Hj0 : 0 <= j0 < rw_size rw) by (apply Z.mod_pos_bound; lia).
    destruct (IH (i0 + 1) (poke j0 zeroBucket rw) w offset)
      as (rw' & Hrun & Hwf' & Hfr & Hz & Hk & He).
    { by apply poke_wf. } { done. } { lia. } { cbn [rw_size poke set_rw_win]. lia. }
    exists rw'. cbn [for_loop]. unfold bind at 1.
    rewrite reset_body_run by (done || lia). fold j0.
    cbn [rw_size poke set_rw_win] in *.
    split; [exact Hrun|]. split; [done|]. split; [done|]. split.
    + intros i Hi. destruct (Z.eq_dec i i0) as [->|Hne].
      * fold j0. rewrite Hk; [by apply bucket_at_poke_eq|done|].
        intros i Hi'. apply mod_apart. lia.
      * apply Hz. lia.
    + split.
      * intros j Hj Hout. rewrite Hk; [|done|intros i Hi'; apply Hout; lia].
        apply bucket_at_poke_ne; try lia. apply not_eq_sym, Hout. lia.
      * intros j b Hb. destruct (He j b Hb) as [->|Hb1]; [by left|].
        apply bucket_at_poke_inv in Hb1 as [[_ ->]|Hb1]; [by left|by right|lia].
Qed.

Lemma updateOffset_idle rw w :
  wf rw -> timely rw w ->
  Z.min ((reading w 0 - rw_lastTime rw) / rw_interval rw) (rw_size rw) <= 0 ->
  updateOffset (rw, w) = (Ok tt, (rw, set_mono_reads (S (mono_reads w)) w)).
Proof.
  intros Hwf Ht Hsp. unfold updateOffset. unfold bind at 1.
  rewrite span_run by done.
  destruct (Z.leb_spec (Z.min ((reading w 0 - rw_lastTime rw) / rw_interval rw)
                              (rw_size rw)) 0); [done|lia].
Qed.

Lemma updateOffset_run rw w :
  wf rw -> timely rw w ->
  let sp := Z.min ((reading w 0 - rw_lastTime rw) / rw_interval rw) (rw_size rw) in
  1 <= sp ->
  exists rw',
    updateOffset (rw, w) = (Ok tt, (rw', set_mono_reads (S (S (mono_reads w))) w)) /\
    wf rw' /\
    rw_size rw' = rw_size rw /\ rw_interval rw' = rw_interval rw /\
    rw_ignoreCurrent rw' = rw_ignoreCurrent rw /\
    rw_offset rw' = (rw_offset rw + sp) mod rw_size rw /\
    rw_lastTime rw' =
      reading w 1 - (reading w 1 - rw_lastTime rw) mod rw_interval rw /\
    (forall i, 0 <= i < sp ->
       bucket_at rw' ((rw_offset rw + i + 1) mod rw_size rw) = Some zeroBucket) /\
    (forall j, 0 <= j < rw_size rw ->
       (forall i, 0 <= i < sp -> j <> (rw_offset rw + i + 1) mod rw_size rw) ->
       bucket_at rw' j = bucket_at rw j) /\
    (forall j b, bucket_at rw' j = Some b ->
       b = zeroBucket \/ bucket_at rw j = Some b).
Proof.
  intros Hwf Ht. pose proof (timely_now _ _ Ht) as [Hlast Hnext].
  cbv zeta. unfold reading.
  rewrite Nat.add_0_r.
  replace (mono_reads w + 1)%nat with (S (mono_reads w)) by lia.
  set (sp := Z.min _ _). intros Hsp.
  pose proof (wf_size _ Hwf) as [Hs1 Hs2]. pose proof (wf_offset _ Hwf) as Ho.
  pose proof (wf_interval _ Hwf) as Hi.
  assert (Hsp' : sp <= rw_size rw) by (subst sp; lia).
  destruct (reset_loop_run (Z.to_nat sp) 0 rw (set_mono_reads (S (mono_reads w)) w)
              (rw_offset rw) Hwf Ho ltac:(lia) ltac:(lia))
    as (rw1 & Hloop & Hwf1 & (Hf1 & Hf2 & Hf3 & Hf4 & Hf5) & Hz & Hk & He).
  rewrite Z2Nat.id in Hz, Hk by lia.
  set (t2 := mono w (S (mono_reads w))) in *.
  set (r := (t2 - rw_lastTime rw) mod rw_interval rw).
  assert (Hr : 0 <= r < rw_interval rw) by (apply Z.mod_pos_bound; lia).
  assert (Hr' : r <= t2 - rw_lastTime rw) by (apply Z.mod_le; lia).
  exists (set_rw_lastTime (t2 - r)
            (set_rw_offset ((rw_offset rw + sp) mod rw_size rw) rw1)).
  split.
  { unfold updateOffset. unfold bind at 1.
    rewrite span_run by done.
    unfold reading. rewrite Nat.add_0_r. fold sp.
    destruct (Z.leb_spec sp 0); [lia|].
    unfold bind at 1. unfold gets at 1. cbn [fst snd].
    unfold bind at 1.
    rewrite Hloop.
    run_step. rewrite Hf1.
    unfold go_rem. destruct (Z.eqb_spec (rw_size rw) 0); [lia|].
    rewrite add_small by int64_range.
    rewrite Z.rem_mod_nonneg by lia. run_step.
    unfold timex.Now.
    cbn [rw_interval rw_lastTime set_rw_offset mono mono_reads set_mono_reads].
    rewrite Hf2, Hf5.
    destruct (Z.eqb_spec (rw_interval rw) 0); [lia|]. run_step. fold t2.
    rewrite (sub_small t2 (rw_lastTime rw)) by int64_range.
    rewrite Z.rem_mod_nonneg by lia. fold r.
    rewrite sub_small by int64_range.
    reflexivity. }
  destruct Hwf1 as [Hs Hw Ho1 Hi1].
  split.
  { split; cbn; try done. rewrite Hf1. apply Z.mod_pos_bound. lia. }
  cbn. rewrite Z.add_0_l in Hz, Hk. do 5 (split; [done|]).
  split; [exact Hz|]. split; [exact Hk|exact He].
Qed.

(** *** [Add] *)

Lemma Add_after rw w v rw1 w1 :
  updateOffset (rw, w) = (Ok tt, (rw1, w1)) -> wf rw1 ->
  exists b, bucket_at rw1 (rw_offset rw1) = Some b /\
    Add v (rw, w) = (Ok tt, (poke (rw_offset rw1) (Bucket_add v b) rw1, w1)).
Proof.
  intros Hupd Hwf1.
  destruct (window_add_run rw1 w1 (rw_offset rw1) v Hwf1 (wf_offset _ Hwf1))
    as (b & Hb & Hadd).
  exists b. split; [done|].
  unfold Add. unfold bind at 1. rewrite Hupd.
  unfold bind, gets. cbn [fst snd]. exact Hadd.
Qed.

(** [Add] keeps the window well formed and its [lastTime] in the past. *)
Lemma Add_keeps rw w v :
  wf rw -> timely rw w ->
  exists rw' k,
    Add v (rw, w) = (Ok tt, (rw', set_mono_reads (mono_reads w + S k) w)) /\
    wf rw' /\ timely rw' (set_mono_reads (mono_reads w + S k) w) /\
    rw_size rw' = rw_size rw /\ rw_interval rw' = rw_interval rw /\
    rw_ignoreCurrent rw' = rw_ignoreCurrent rw /\
    rw_lastTime rw' <= mono w (mono_reads w + k).
Proof.
  intros Hwf Ht. pose proof (timely_now _ _ Ht) as [Hlast Hnext].
  pose proof (wf_interval _ Hwf) as Hi.
  destruct (Z.le_gt_cases
              (Z.min ((reading w 0 - rw_lastTime rw) / rw_interval rw) (rw_size rw)) 0)
    as [Hsp|Hsp].
  - pose proof (updateOffset_idle rw w Hwf Ht Hsp) as Hupd.
    destruct (Add_after rw w v _ _ Hupd Hwf) as (b & Hb & Hadd).
    exists (poke (rw_offset rw) (Bucket_add v b) rw), 0%nat.
    replace (mono_reads w + 1)%nat with (S (mono_reads w)) by lia.
    rewrite Nat.add_0_r.
    split; [done|]. split; [apply poke_wf; [done|apply (wf_offset _ Hwf)]|].
    split; [apply (timely_advance rw); [done|cbn; lia]|]. cbn. repeat split; lia.
  - destruct (updateOffset_run rw w Hwf Ht ltac:(lia))
      as (rw1 & Hupd & Hwf1 & Hsz & Hiv & Hig & Hoff & Hlt & _).
    destruct (Add_after rw w v _ _ Hupd Hwf1) as (b & Hb & Hadd).
    exists (poke (rw_offset rw1) (Bucket_add v b) rw1), 1%nat.
    replace (mono_reads w + 2)%nat with (S (S (mono_reads w))) by lia.
    replace (mono_reads w + 1)%nat with (S (mono_reads w)) by lia.
    unfold reading in Hlt.
    replace (mono_reads w + 1)%nat with (S (mono_reads w)) in Hlt by lia.
    assert (Hr : 0 <= (mono w (S (mono_reads w)) - rw_lastTime rw) mod rw_interval rw
                 <= mono w (S (mono_reads w)) - rw_lastTime rw).
    { split; [apply Z.mod_pos_bound; lia|apply Z.mod_le; lia]. }
    split; [done|]. split; [apply poke_wf; [done|apply (wf_offset _ Hwf1)]|].
    split.
    { destruct Ht as [Hm Hl]. split; [exact Hm|]. unfold reading. cbn.
      rewrite Nat.add_0_r, Hlt.
      pose proof (Hm (S (mono_reads w))) as [_ Hstep]. lia. }
    cbn. rewrite Hlt. repeat split; try done. lia.
Qed.

(** Where the buckets of the window come from after [Add]: a bucket is
    zero or as it was, with the sample added if it is the one under
    the cursor. *)
Lemma Add_buckets rw w v rw' w' :
  wf rw -> timely rw w ->
  Add v (rw, w) = (Ok tt, (rw', w')) ->
  forall j b', bucket_at rw' j = Some b' ->
    exists b, (b = zeroBucket \/ bucket_at rw j = Some b) /\
              (b' = b \/ b' = Bucket_add v b).
Proof.
  intros Hwf Ht Hadd j b' Hb'.
  assert (Hfrom : exists rw1 w1,
    updateOffset (rw, w) = (Ok tt, (rw1, w1)) /\ wf rw1 /\
    (forall j b, bucket_at rw1 j = Some b ->
       b = zeroBucket \/ bucket_at rw j = Some b)).
  { destruct (Z.le_gt_cases
                (Z.min ((reading w 0 - rw_lastTime rw) / rw_interval rw) (rw_size rw)) 0)
      as [Hsp|Hsp].
    - exists rw, (set_mono_reads (S (mono_reads w)) w).
      split; [by apply updateOffset_idle|]. split; [done|]. intros; by right.
    - destruct (updateOffset_run rw w Hwf Ht ltac:(lia))
        as (rw1 & Hupd & Hwf1 & _ & _ & _ & _ & _ & _ & _ & He).
      eauto. }
  destruct Hfrom as (rw1 & w1 & Hupd & Hwf1 & He).
  destruct (Add_after rw w v _ _ Hupd Hwf1) as (b & Hb & Hrun).
  rewrite Hrun in Hadd. injection Hadd as <- <-.
  apply bucket_at_poke_inv in Hb' as [[-> ->]|Hb']; [| |apply (wf_offset _ Hwf1)].
  - exists b. split; [by apply (He (rw_offset rw1))|by right].
  - exists b'. split; [by apply (He j)|by left].
Qed.

(** C2. [Add], when [n >= 1] whole intervals have elapsed ([n] is
    [min(floor((now - lastTime)/interval), size)], [now] being the
    reading [span] takes): [updateOffset] zeroes the buckets at
    [(offset + i + 1) mod size] for [i] in [0..n-1] and no other, moves
    the cursor to [(offset + n) mod size], and sets [lastTime] to
    [now' - ((now' - lastTime) mod interval)], [now'] being the reading
    it takes next: the latest point at or before [now'] that lies a
    whole number of intervals after the old [lastTime]. [Add] then
    writes the sample into the bucket under the cursor. When [n <= 0],
    [updateOffset] changes nothing and [Add] only writes the sample
    into the bucket under the cursor. *)
Theorem Add_rotates_and_realigns (rw : RollingWindow) (w : World) (v : Q) :
  wf rw -> timely rw w ->
  let size := rw_size rw in
  let interval := rw_interval rw in
  let now := reading w 0 in
  let now' := reading w 1 in
  let n := Z.min ((now - rw_lastTime rw) / interval) size in
  (1 <= n ->
   exists rw1 rw',
     updateOffset (rw, w) = (Ok tt, (rw1, set_mono_reads (S (S (mono_reads w))) w)) /\
     Add v (rw, w) = (Ok tt, (rw', set_mono_reads (S (S (mono_reads w))) w)) /\
     (forall i, 0 <= i < n ->
        bucket_at rw1 ((rw_offset rw + i + 1) mod size) = Some zeroBucket) /\
     (forall j, 0 <= j < size ->
        (forall i, 0 <= i < n -> j <> (rw_offset rw + i + 1) mod size) ->
        bucket_at rw1 j = bucket_at rw j) /\
     rw_offset rw1 = (rw_offset rw + n) mod size /\
     rw_lastTime rw1 = now' - (now' - rw_lastTime rw) mod interval /\
     rw_lastTime rw1 <= now' < rw_lastTime rw1 + interval /\
     (rw_lastTime rw1 - rw_lastTime rw) mod interval = 0 /\
     rw_offset rw' = rw_offset rw1 /\ rw_lastTime rw' = rw_lastTime rw1 /\
     bucket_at rw' (rw_offset rw1) = Some (Bucket_add v zeroBucket) /\
     (forall j, 0 <= j < size -> j <> rw_offset rw1 ->
        bucket_at rw' j = bucket_at rw1 j))
  /\
  (n <= 0 ->
   exists rw',
     updateOffset (rw, w) = (Ok tt, (rw, set_mono_reads (S (mono_reads w)) w)) /\
     Add v (rw, w) = (Ok tt, (rw', set_mono_reads (S (mono_reads w)) w)) /\
     rw_offset rw' = rw_offset rw /\ rw_lastTime rw' = rw_lastTime rw /\
     bucket_at rw' (rw_offset rw) = Bucket_add v <$> bucket_at rw (rw_offset rw) /\
     (forall j, 0 <= j < size -> j <> rw_offset rw ->
        bucket_at rw' j = bucket_at rw j)).
Proof.
  intros Hwf Ht size interval now now' n.
  pose proof (timely_now _ _ Ht) as [Hlast Hnext].
  pose proof (wf_size _ Hwf) as [Hs1 Hs2].
  pose proof (wf_interval _ Hwf) as Hi.
  split; intros Hn.
  - destruct (updateOffset_run rw w Hwf Ht Hn)
      as (rw1 & Hupd & Hwf1 & Hsz & Hiv & Hig & Hoff & Hlt & Hz & Hk & _).
    destruct (Add_after rw w v _ _ Hupd Hwf1) as (b & Hb & Hadd).
    assert (Hb0 : b = zeroBucket).
    { rewrite Hoff in Hb.
      replace (rw_offset rw + Z.min ((reading w 0 - rw_lastTime rw) / rw_interval rw)
                                    (rw_size rw))
        with (rw_offset rw + (n - 1) + 1) in Hb by (subst n now interval size; lia).
      rewrite Hz in Hb by (subst n now interval size; lia). congruence. }
    subst b.
    exists rw1, (poke (rw_offset rw1) (Bucket_add v zeroBucket) rw1).
    assert (Hnow' : now' = mono w (S (mono_reads w))).
    { subst now'. unfold reading. f_equal. lia. }
    assert (Hr : 0 <= (now' - rw_lastTime rw) mod interval < interval)
      by (apply Z.mod_pos_bound; subst interval; lia).
    do 6 (split; [done|]). fold now' interval in Hlt.
    split; [lia|]. split.
    { rewrite Hlt.
      pose proof (Z.div_mod (now' - rw_lastTime rw) interval ltac:(lia)) as Hdm.
      replace (now' - (now' - rw_lastTime rw) mod interval - rw_lastTime rw)
        with ((now' - rw_lastTime rw) / interval * interval) by lia.
      apply Z.mod_mul. lia. }
    split; [done|]. split; [done|]. split.
    + apply bucket_at_poke_eq; [done|apply (wf_offset _ Hwf1)].
    + intros j Hj Hne. apply bucket_at_poke_ne; try lia.
      pose proof (wf_offset _ Hwf1). lia.
  - pose proof (updateOffset_idle rw w Hwf Ht Hn) as Hupd.
    destruct (Add_after rw w v _ _ Hupd Hwf) as (b & Hb & Hadd).
    exists (poke (rw_offset rw) (Bucket_add v b) rw).
    do 4 (split; [done|]). split.
    + rewrite Hb. apply bucket_at_poke_eq; [done|apply (wf_offset _ Hwf)].
    + intros j Hj Hne. apply bucket_at_poke_ne; try lia.
      pose proof (wf_offset _ Hwf). lia.
Qed.

End CollectionFacts.

(** ** Construction of the rolling window *)

Module ConstructionFacts.

Import collection Int64Facts CollectionFacts.

(** The loop of [newWindow] after [i] rounds: [i] fresh buckets, the
    other slots still nil. *)
Lemma newWindow_loop {T} (s : T) n : forall i k,
  for_loop n (Z.of_nat i)
    (fun j => zoom snd (fun l st => (fst st, l)) (assign j (Some zeroBucket)))
    (s, replicate i (Some zeroBucket) ++ replicate (n + k) None) =
  (Ok tt, (s, replicate (i + n) (Some zeroBucket) ++ replicate k None)).
Proof.
  induction n as [|n IH]; intros i k.
  - cbn. by rewrite Nat.add_0_r.
  - cbn [for_loop]. unfold bind at 1. unfold zoom, assign, bind, get, put.
    cbn [fst snd].
    assert (Hget : slice_get (replicate i (Some zeroBucket) ++ replicate (S n + k) None)
                             (Z.of_nat i) = Some None).
    { unfold slice_get. destruct (Z.ltb_spec (Z.of_nat i) 0); [lia|].
      rewrite Nat2Z.id, lookup_app_r by (rewrite length_replicate; lia).
      rewrite length_replicate, Nat.sub_diag. done. }
    rewrite Hget.
    replace (slice_set (replicate i (Some zeroBucket) ++ replicate (S n + k) None)
                       (Z.of_nat i) (Some zeroBucket))
      with (replicate (S i) (Some zeroBucket) ++ replicate (n + k) (@None Bucket)).
    + replace (Z.of_nat i + 1) with (Z.of_nat (S i)) by lia.
      rewrite IH. by replace (S i + n)%nat with (i + S n)%nat by lia.
    + unfold slice_set. rewrite Nat2Z.id, replicate_S_end, <- app_assoc.
      rewrite insert_app_r_alt by (rewrite length_replicate; lia).
      by rewrite length_replicate, Nat.sub_diag.
Qed.

Lemma newWindow_run {T} (s : T) size :
  0 <= size ->
  newWindow size s =
    (Ok (mkWindow (replicate (Z.to_nat size) (Some zeroBucket)) size), s).
Proof.
  intros Hs. unfold newWindow. destruct (Z.ltb_spec size 0); [lia|].
  unfold bind at 1. unfold local, bind at 1.
  pose proof (newWindow_loop s (Z.to_nat size) 0 0) as Hl.
  cbn [replicate app] in Hl. change (Z.of_nat 0) with 0 in Hl.
  rewrite Nat.add_0_r, app_nil_r in Hl.
  rewrite Hl. reflexivity.
Qed.

Lemma replicate_wf_window size :
  0 <= size ->
  wf_window size (mkWindow (replicate (Z.to_nat size) (Some zeroBucket)) size).
Proof.
  intros Hs. split; cbn; [done|rewrite length_replicate; lia|].
  intros j Hj. unfold wbucket, slice_get. cbn.
  destruct (Z.ltb_spec j 0); [lia|].
  rewrite lookup_replicate_2 by lia. eauto.
Qed.

Lemma apply_ignore opts (rw : RollingWindow) :
  Forall (fun o => o = IgnoreCurrentBucket) opts ->
  fold_left (fun w (opt : RollingWindowOption) => opt w) opts rw =
    set_rw_ignoreCurrent
      (match opts with [] => rw_ignoreCurrent rw | _ => true end) rw.
Proof.
  intros H. revert rw. induction H as [|o opts -> _ IH]; intros rw.
  - by destruct rw.
  - cbn [fold_left]. rewrite IH. by destruct opts.
Qed.

(** A window out of [NewRollingWindow]. *)
Lemma NewRollingWindow_run size interval opts w :
  1 <= size -> Forall (fun o => o = IgnoreCurrentBucket) opts ->
  NewRollingWindow size interval opts w =
    (Ok (mkRollingWindow size
           (mkWindow (replicate (Z.to_nat size) (Some zeroBucket)) size)
           interval 0 (match opts with [] => false | _ => true end) (reading w 0)),
     set_mono_reads (S (mono_reads w)) w).
Proof.
  intros Hs Ho. unfold NewRollingWindow. destruct (Z.ltb_spec size 1); [lia|].
  unfold bind at 1. rewrite newWindow_run by lia.
  unfold bind, ret, timex.Now. rewrite apply_ignore by done.
  unfold reading. by rewrite Nat.add_0_r.
Qed.

Lemma NewRollingWindow_wf size interval opts w rw w' :
  1 <= size -> 2 * size < Int64.max_int -> 0 < interval ->
  Forall (fun o => o = IgnoreCurrentBucket) opts ->
  timex.monotonic w ->
  NewRollingWindow size interval opts w = (Ok rw, w') ->
  wf rw /\ timely rw w'.
Proof.
  intros Hs Hb Hi Ho Hm. rewrite NewRollingWindow_run by done.
  intros [= <- <-]. split.
  - split; cbn; [lia|apply replicate_wf_window; lia|lia|lia].
  - split; [exact Hm|]. unfold reading. cbn. rewrite !Nat.add_0_r.
    pose proof (Hm (mono_reads w)) as [[H0 _] H1]. lia.
Qed.

(** C9. [NewRollingWindow(size, interval)] panics when [size < 1], with
    no window built and the clock not read; for every [size >= 1] it
    returns a window of exactly [size] buckets, all zero, the cursor on
    bucket 0 and [lastTime] the current reading of the clock. *)
Theorem NewRollingWindow_fails_fast_or_builds (size interval : Z) (w : World) :
  (size < 1 ->
   NewRollingWindow size interval [] w =
     (Panic (PanicString "size must be greater than 0"), w)) /\
  (1 <= size ->
   exists rw,
     NewRollingWindow size interval [] w = (Ok rw, set_mono_reads (S (mono_reads w)) w) /\
     rw_size rw = size /\
     win_size (rw_win rw) = size /\
     win_buckets (rw_win rw) = replicate (Z.to_nat size) (Some zeroBucket) /\
     Z.of_nat (length (win_buckets (rw_win rw))) = size /\
     (forall j, 0 <= j < size -> bucket_at rw j = Some (mkBucket 0 0)) /\
     rw_interval rw = interval /\ rw_offset rw = 0 /\
     rw_ignoreCurrent rw = false /\
     rw_lastTime rw = reading w 0).
Proof.
  split; intros Hs.
  - unfold NewRollingWindow. by destruct (Z.ltb_spec size 1); [|lia].
  - eexists. split; [by apply NewRollingWindow_run|]. cbn.
    do 3 (split; [done|]). split; [rewrite length_replicate; lia|].
    split; [|done].
    intros j Hj. unfold bucket_at, wbucket, slice_get. cbn.
    destruct (Z.ltb_spec j 0); [lia|]. by rewrite lookup_replicate_2 by lia.
Qed.

End ConstructionFacts.

(** ** Reading the rolling window *)

Module ReduceFacts.

Import collection Int64Facts CollectionFacts.

Section Callback.

Context {A : Type} (fn : Bucket -> A -> Bucket * A).

Lemma visit_wf size win a j :
  wf_window size win -> 0 <= j < size -> wf_window size (fst (visit fn (win, a) j)).
Proof.
  intros Hwf Hj. unfold visit. cbn [fst snd].
  destruct (wbucket win j); [by apply wpoke_wf|done].
Qed.

Lemma reduce_body_run size start i win a :
  wf_window size win -> 2 * size < Int64.max_int ->
  0 <= start < size -> 0 <= i < size ->
  reduce_body start fn i (win, a) = (Ok tt, visit fn (win, a) ((start + i) mod size)).
Proof.
  intros Hwf Hsz Hs Hi.
  assert (Hj : 0 <= (start + i) mod size < size) by (apply Z.mod_pos_bound; lia).
  destruct (deref_run (S:=window * A) _ _ _ (win, a) Hwf Hj) as (b & Hb & Hd).
  unfold reduce_body, go_rem. run_step.
  rewrite (wfw_size _ _ Hwf).
  destruct (Z.eqb_spec size 0); [lia|].
  rewrite add_small by int64_range. rewrite Z.rem_mod_nonneg by lia.
  rewrite Hd. unfold visit. cbn [fst snd]. rewrite Hb.
  by destruct (fn b a).
Qed.

Lemma reduce_loop_run size start n : forall i0 win a,
  wf_window size win -> 2 * size < Int64.max_int ->
  0 <= start < size -> 0 <= i0 -> i0 + Z.of_nat n <= size ->
  for_loop n i0 (reduce_body start fn) (win, a) =
    (Ok tt, fold_left (visit fn)
              (map (fun i => (start + i) mod size) (seqZ i0 (Z.of_nat n))) (win, a)).
Proof.
  induction n as [|n IH]; intros i0 win a Hwf Hsz Hs Hi0 Hn; [done|].
  cbn [for_loop]. unfold bind at 1.
  rewrite (reduce_body_run size) by (done || lia).
  rewrite seqZ_cons by lia. cbn [map fold_left].
  replace (Z.pred (Z.of_nat (S n))) with (Z.of_nat n) by lia.
  replace (Z.succ i0) with (i0 + 1) by lia.
  destruct (visit fn (win, a) ((start + i0) mod size)) as [win1 a1] eqn:Hv.
  apply IH; try lia.
  change win1 with (fst (win1, a1)). rewrite <- Hv.
  apply visit_wf; [done|]. apply Z.mod_pos_bound. lia.
Qed.

(** A callback that only reads leaves the window as it is, whatever
    the window. *)
Lemma reduce_body_read_only start i win a :
  read_only fn ->
  fst (snd (reduce_body start fn i (win, a))) = win.
Proof.
  intros Hro. unfold reduce_body, go_rem, deref, index. run_step.
  destruct (win_size win =? 0); [done|].
  destruct (slice_get _ _) as [[b|]|] eqn:Hg; [|done|done].
  specialize (Hro b a). destruct (fn b a) as [b' a']. cbn in Hro. subst b'.
  rewrite slice_set_id by done. by destruct win.
Qed.

Lemma reduce_loop_read_only start n : forall i0 win a,
  read_only fn ->
  fst (snd (for_loop n i0 (reduce_body start fn) (win, a))) = win.
Proof.
  induction n as [|n IH]; intros i0 win a Hro; [done|].
  cbn [for_loop]. unfold bind.
  pose proof (reduce_body_read_only start i0 win a Hro) as Hb.
  destruct (reduce_body start fn i0 (win, a)) as [[[]|p] [win1 a1]];
    cbn in Hb; subst win1; [by apply IH|done].
Qed.

(** [span] and [Reduce] step by step, whatever the window. *)
Lemma span_unfold rw w :
  span (rw, w) =
    (if rw_interval rw =? 0 then Panic DivideByZero
     else
       let n := Int64.wrap64
                  (Z.quot (Int64.sub (reading w 0) (rw_lastTime rw)) (rw_interval rw)) in
       Ok (if (0 <=? n) && (n <? rw_size rw) then n else rw_size rw),
     (rw, set_mono_reads (S (mono_reads w)) w)).
Proof.
  unfold span, timex.Since, timex.Now, go_div, reading. run_step.
  rewrite Nat.add_0_r.
  destruct (rw_interval rw =? 0); [done|]. cbv zeta.
  by destruct (_ && _).
Qed.

Lemma Reduce_unfold a rw w :
  Reduce fn a (rw, w) =
    match span (rw, w) with
    | (Ok sp, (rw1, w1)) =>
        let diff := if (sp =? 0) && rw_ignoreCurrent rw1
                    then Int64.sub (rw_size rw1) 1
                    else Int64.sub (rw_size rw1) sp in
        if 0 <? diff then
          if rw_size rw1 =? 0 then (Panic DivideByZero, (rw1, w1))
          else
            let start := Z.rem (Int64.add (Int64.add (rw_offset rw1) sp) 1)
                               (rw_size rw1) in
            match for_loop (Z.to_nat diff) 0 (reduce_body start fn) (rw_win rw1, a) with
            | (Ok _, (win', a')) => (Ok a', (set_rw_win win' rw1, w1))
            | (Panic p, (win', _)) => (Panic p, (set_rw_win win' rw1, w1))
            end
        else (Ok a, (rw1, w1))
    | (Panic p, s) => (Panic p, s)
    end.
Proof.
  unfold Reduce. unfold bind at 1.
  destruct (span (rw, w)) as [[sp|p] [rw1 w1]]; [|done].
  unfold bind at 1, gets at 1. cbn [fst snd]. cbv zeta.
  destruct (0 <? _); [|done].
  unfold go_rem, bind at 1. destruct (rw_size rw1 =? 0); [done|].
  unfold ret at 1. unfold on_win, on_obj, zoom, local, window_reduce.
  cbn [fst snd]. unfold bind at 1.
  by destruct (for_loop _ _ _ _) as [[[]|p] [win' a']].
Qed.

Lemma Reduce_read_only a rw w :
  read_only fn ->
  snd (Reduce fn a (rw, w)) = (rw, set_mono_reads (S (mono_reads w)) w).
Proof.
  intros Hro. rewrite Reduce_unfold, span_unfold.
  destruct (rw_interval rw =? 0); [done|]. cbv beta iota zeta.
  match goal with |- context [0 <? ?d] => destruct (0 <? d) end; [|done]. destruct (rw_size rw =? 0); [done|].
  match goal with |- context [for_loop ?n ?i (reduce_body ?s fn) (?win, ?a0)] =>
    pose proof (reduce_loop_read_only s n i win a0 Hro) as Hl;
    destruct (for_loop n i (reduce_body s fn) (win, a0)) as [[[]|p] [win1 a1]]
  end; cbn in Hl; subst win1; by destruct rw.
Qed.

(** The outcome of [Reduce] depends on the world through the reading
    of the clock only. *)
Lemma Reduce_clock_only a rw w w' :
  reading w 0 = reading w' 0 ->
  fst (Reduce fn a (rw, w)) = fst (Reduce fn a (rw, w')) /\
  fst (snd (Reduce fn a (rw, w))) = fst (snd (Reduce fn a (rw, w'))).
Proof.
  intros E. rewrite !Reduce_unfold, !span_unfold, E.
  destruct (rw_interval rw =? 0); [done|]. cbv beta iota zeta.
  match goal with |- context [0 <? ?d] => destruct (0 <? d) end; [|done]. destruct (rw_size rw =? 0); [done|].
  by match goal with |- context [for_loop ?n ?i ?b ?s] =>
       destruct (for_loop n i b s) as [[[]|p] [win' a']] end.
Qed.

End Callback.

(** The callback that records the buckets it is called on. *)
Lemma trace_read_only : read_only (fun (b : Bucket) (tr : list Bucket) => (b, tr ++ [b])).
Proof. by intros b tr. Qed.

Lemma visit_trace size win slots : forall tr,
  wf_window size win -> Forall (fun j => 0 <= j < size) slots ->
  exists seen,
    fold_left (visit (fun b tr => (b, tr ++ [b]))) slots (win, tr) = (win, tr ++ seen) /\
    Forall2 (fun j b => wbucket win j = Some b) slots seen.
Proof.
  intros tr Hwf. revert tr.
  induction slots as [|j slots IH]; intros tr Hin.
  - exists []. by rewrite app_nil_r.
  - inversion Hin as [|? ? Hj Hin']; subst.
    destruct (wfw_non_nil _ _ Hwf j Hj) as [b Hb].
    destruct (IH (tr ++ [b]) Hin') as (seen & Hfold & Hall).
    exists (b :: seen). cbn [fold_left]. unfold visit at 2. cbn [fst snd].
    rewrite Hb. cbn [fst snd].
    replace (wpoke j b win) with win.
    + rewrite Hfold, <- app_assoc. split; [done|]. by constructor.
    + unfold wpoke. unfold wbucket in Hb.
      destruct (slice_get (win_buckets win) j) as [p|] eqn:Hg; [|done]. subst p.
      rewrite slice_set_id by done. by destruct win.
Qed.

(** The slots [Reduce] visits, in order. *)
Lemma Reduce_run {A} (fn : Bucket -> A -> Bucket * A) (a : A) rw w :
  wf rw -> timely rw w ->
  let size := rw_size rw in
  let span := Z.min ((reading w 0 - rw_lastTime rw) / rw_interval rw) size in
  let count := if (span =? 0) && rw_ignoreCurrent rw then size - 1 else size - span in
  let slots := map (fun i => (rw_offset rw + span + 1 + i) mod size) (seqZ 0 count) in
  Reduce fn a (rw, w) =
    (Ok (snd (fold_left (visit fn) slots (rw_win rw, a))),
     (set_rw_win (fst (fold_left (visit fn) slots (rw_win rw, a))) rw,
      set_mono_reads (S (mono_reads w)) w)).
Proof.
  intros Hwf Ht size sp count slots.
  pose proof (wf_size _ Hwf) as [Hs1 Hs2]. pose proof (wf_offset _ Hwf) as Ho.
  pose proof (wf_interval _ Hwf) as Hi. pose proof (wf_win _ Hwf) as Hw.
  pose proof (timely_now _ _ Ht) as [Hlast _].
  assert (Hsp : 0 <= sp <= size).
  { subst sp size. split; [|lia].
    apply Z.min_glb; [|lia]. apply Z.div_pos; [|lia].
    unfold reading. rewrite Nat.add_0_r. lia. }
  assert (Hcount : count <= size) by (subst count; destruct (_ && _); lia).
  rewrite Reduce_unfold, span_run by done.
  fold size sp. cbv beta iota zeta.
  rewrite !sub_small by int64_range.
  fold size. change (if (sp =? 0) && rw_ignoreCurrent rw then size - 1 else size - sp)
    with count.
  destruct (Z.ltb_spec 0 count) as [Hpos|Hneg].
  - destruct (Z.eqb_spec size 0); [lia|].
    rewrite (add_small (rw_offset rw) sp) by int64_range.
    rewrite add_small by int64_range.
    rewrite Z.rem_mod_nonneg by lia.
    rewrite (reduce_loop_run fn size) by
      (done || lia || (apply Z.mod_pos_bound; lia)).
    rewrite Z2Nat.id by lia.
    replace (map (fun i => ((rw_offset rw + sp + 1) mod size + i) mod size)
                 (seqZ 0 count)) with slots.
    + by destruct (fold_left _ _ _).
    + subst slots. apply map_ext. intros i. by rewrite Zplus_mod_idemp_l.
  - subst slots. rewrite seqZ_nil by lia. cbn. by destruct rw.
Qed.

(** C3. [Reduce(fn)] calls [fn] on [size - span] buckets, [span] being
    [min(floor(elapsed/interval), size)], or on [size - 1] buckets when
    [span] is 0 and [ignoreCurrent] is set; the buckets are those of the
    slots [(offset + span + 1 + i) mod size] for [i = 0, 1, ...], in
    this order; and on no bucket when that count is not positive. *)
Theorem Reduce_visits {A} (fn : Bucket -> A -> Bucket * A) (a : A)
        (rw : RollingWindow) (w : World) :
  wf rw -> timely rw w ->
  let size := rw_size rw in
  let elapsed := reading w 0 - rw_lastTime rw in
  let span := Z.min (elapsed / rw_interval rw) size in
  let count := if (span =? 0) && rw_ignoreCurrent rw then size - 1 else size - span in
  let slots := map (fun i => (rw_offset rw + span + 1 + i) mod size) (seqZ 0 count) in
  let w' := set_mono_reads (S (mono_reads w)) w in
  (* any callback: one call per slot, in order *)
  Reduce fn a (rw, w) =
    (Ok (snd (fold_left (visit fn) slots (rw_win rw, a))),
     (set_rw_win (fst (fold_left (visit fn) slots (rw_win rw, a))) rw, w')) /\
  (* the buckets the callback is handed *)
  (exists seen,
     Reduce (fun b tr => (b, tr ++ [b])) [] (rw, w) = (Ok seen, (rw, w')) /\
     Forall2 (fun j b => bucket_at rw j = Some b) slots seen /\
     length seen = Z.to_nat count) /\
  (count <= 0 -> Reduce fn a (rw, w) = (Ok a, (rw, w'))).
Proof.
  intros Hwf Ht size elapsed sp count slots w'.
  pose proof (wf_size _ Hwf) as [Hs1 Hs2]. pose proof (wf_win _ Hwf) as Hw.
  pose proof (Reduce_run fn a rw w Hwf Ht) as Hgen. cbv zeta in Hgen.
  fold size elapsed sp count slots w' in Hgen.
  split; [exact Hgen|]. split.
  - destruct (visit_trace size (rw_win rw) slots [] Hw) as (seen & Hfold & Hall).
    { subst slots. apply Forall_forall. intros j Hj.
      apply list_elem_of_In, in_map_iff in Hj as (i & <- & _).
      apply Z.mod_pos_bound. lia. }
    exists seen.
    pose proof (Reduce_run (fun b tr => (b, tr ++ [b])) [] rw w Hwf Ht) as Htr.
    cbv zeta in Htr. fold size elapsed sp count slots w' in Htr.
    rewrite Htr, Hfold. cbn [fst snd app].
    split; [by destruct rw|]. split; [done|].
    rewrite <- (Forall2_length _ _ _ Hall). subst slots.
    by rewrite length_map, length_seqZ.
  - intros Hneg. rewrite Hgen. subst slots. rewrite seqZ_nil by lia.
    cbn. by destruct rw.
Qed.

(** What [Reduce] itself leaves alone, whatever its callback writes:
    the cursor, [lastTime], the size, the interval and [ignoreCurrent];
    the world only loses the reading of the clock. *)
Lemma Reduce_frame {A} (fn : Bucket -> A -> Bucket * A) (a : A) rw w :
  exists win',
    snd (Reduce fn a (rw, w)) = (set_rw_win win' rw, set_mono_reads (S (mono_reads w)) w).
Proof.
  rewrite Reduce_unfold, span_unfold.
  destruct (rw_interval rw =? 0); [exists (rw_win rw); by destruct rw|].
  cbv beta iota zeta.
  destruct (0 <? _); [|exists (rw_win rw); by destruct rw].
  destruct (rw_size rw =? 0); [exists (rw_win rw); by destruct rw|].
  destruct (for_loop _ _ _ _) as [[[]|p] [win' a']]; by exists win'.
Qed.

(** C8. [Reduce] hands its callback a pointer to each bucket it
    visits, so it is read-only for the callbacks that are. Whatever
    the callback does, [Reduce] changes neither the cursor nor
    [lastTime] (nor the size, the interval or [ignoreCurrent]), and
    only advances the clock by the one reading it takes. With a callback that does not write through the pointer, a
    call leaves every bucket as it was too, and repeated with the same
    clock reading and no [Add] in between it yields the same aggregate;
    on a well-formed window both calls return. *)
Theorem Reduce_idempotent_read_only {A} (fn : Bucket -> A -> Bucket * A) (a : A)
        (rw : RollingWindow) (w : World) :
  let w1 := set_mono_reads (S (mono_reads w)) w in
  let w2 := set_mono_reads (S (S (mono_reads w))) w in
  (exists rw',
     snd (Reduce fn a (rw, w)) = (rw', w1) /\
     rw_offset rw' = rw_offset rw /\ rw_lastTime rw' = rw_lastTime rw /\
     rw_size rw' = rw_size rw /\ rw_interval rw' = rw_interval rw /\
     rw_ignoreCurrent rw' = rw_ignoreCurrent rw) /\
  (read_only fn ->
   snd (Reduce fn a (rw, w)) = (rw, w1) /\
   (reading w 1 = reading w 0 ->
    Reduce fn a (snd (Reduce fn a (rw, w))) = (fst (Reduce fn a (rw, w)), (rw, w2))) /\
   (wf rw -> timely rw w -> exists r, fst (Reduce fn a (rw, w)) = Ok r)).
Proof.
  intros w1 w2. split.
  { destruct (Reduce_frame fn a rw w) as [win' Hfr].
    exists (set_rw_win win' rw). by repeat split. }
  intros Hro.
  pose proof (Reduce_read_only fn a rw w Hro) as H1.
  split; [exact H1|]. split.
  - intros Hsame. rewrite H1.
    pose proof (Reduce_read_only fn a rw w1 Hro) as H2.
    destruct (Reduce_clock_only fn a rw w1 w) as [Hr _].
    { unfold reading in *. subst w1. cbn. rewrite Nat.add_0_r in *.
      by replace (S (mono_reads w)) with (mono_reads w + 1)%nat by lia. }
    apply injective_projections; cbn [fst snd]; [exact Hr|exact H2].
  - intros Hwf Ht. pose proof (Reduce_run fn a rw w Hwf Ht) as Hrun.
    cbv zeta in Hrun. rewrite Hrun. eauto.
Qed.

End ReduceFacts.

(** ** The rolling window under any clock *)

Module RobustFacts.

Import collection Int64Facts CollectionFacts ReduceFacts.

Lemma span_at_range rw now : 0 <= rw_size rw -> 0 <= span_at rw now <= rw_size rw.
Proof.
  intros Hs. unfold span_at. cbv zeta.
  destruct (Z.leb_spec 0 (Int64.wrap64
     (Z.quot (Int64.sub now (rw_lastTime rw)) (rw_interval rw)))); cbn; [|lia].
  destruct (Z.ltb_spec (Int64.wrap64
     (Z.quot (Int64.sub now (rw_lastTime rw)) (rw_interval rw))) (rw_size rw)); lia.
Qed.

Lemma span_any rw w :
  rw_interval rw <> 0 ->
  span (rw, w) =
    (Ok (span_at rw (reading w 0)), (rw, set_mono_reads (S (mono_reads w)) w)).
Proof.
  intros Hi. rewrite span_unfold.
  destruct (Z.eqb_spec (rw_interval rw) 0); [done|]. reflexivity.
Qed.

(** Under the clock contract [span_at] is the number of whole intervals
    elapsed, capped by the size. *)
Lemma span_at_timely rw w :
  wf rw -> timely rw w ->
  span_at rw (reading w 0) =
    Z.min ((reading w 0 - rw_lastTime rw) / rw_interval rw) (rw_size rw).
Proof.
  intros Hwf Ht. pose proof (span_run rw w Hwf Ht) as H1.
  rewrite span_any in H1 by (pose proof (wf_interval _ Hwf); lia).
  by injection H1.
Qed.

Lemma updateOffset_any rw w :
  wf rw ->
  let sp := span_at rw (reading w 0) in
  exists rw' k,
    updateOffset (rw, w) = (Ok tt, (rw', set_mono_reads (mono_reads w + S k) w)) /\
    (k <= 1)%nat /\ wf rw' /\
    rw_size rw' = rw_size rw /\ rw_interval rw' = rw_interval rw /\
    rw_ignoreCurrent rw' = rw_ignoreCurrent rw /\
    rw_offset rw' = (rw_offset rw + sp) mod rw_size rw /\
    (sp = 0 -> rw' = rw) /\
    (forall i, 0 <= i < sp ->
       bucket_at rw' ((rw_offset rw + i + 1) mod rw_size rw) = Some zeroBucket) /\
    (forall j, 0 <= j < rw_size rw ->
       (forall i, 0 <= i < sp -> j <> (rw_offset rw + i + 1) mod rw_size rw) ->
       bucket_at rw' j = bucket_at rw j).
Proof.
  intros Hwf sp.
  pose proof (wf_size _ Hwf) as [Hs1 Hs2]. pose proof (wf_offset _ Hwf) as Ho.
  pose proof (wf_interval _ Hwf) as Hi.
  pose proof (span_at_range rw (reading w 0) ltac:(lia)) as Hsp. fold sp in Hsp.
  destruct (Z.eq_dec sp 0) as [Hz|Hnz].
  - exists rw, 0%nat. replace (mono_reads w + 1)%nat with (S (mono_reads w)) by lia.
    split.
    { unfold updateOffset. unfold bind at 1. rewrite span_any by lia. fold sp.
      rewrite Hz. reflexivity. }
    split; [lia|]. split; [done|]. do 3 (split; [done|]).
    split; [rewrite Hz, Z.add_0_r, Z.mod_small; lia|].
    split; [done|]. split; [intros; lia|]. done.
  - destruct (reset_loop_run (Z.to_nat sp) 0 rw (set_mono_reads (S (mono_reads w)) w)
                (rw_offset rw) Hwf Ho ltac:(lia) ltac:(lia))
      as (rw1 & Hloop & Hwf1 & (Hf1 & Hf2 & Hf3 & Hf4 & Hf5) & Hz & Hk & He).
    rewrite Z2Nat.id in Hz, Hk by lia.
    set (t2 := mono w (S (mono_reads w))).
    set (r := Z.rem (Int64.sub t2 (rw_lastTime rw)) (rw_interval rw)).
    exists (set_rw_lastTime (Int64.sub t2 r)
              (set_rw_offset ((rw_offset rw + sp) mod rw_size rw) rw1)), 1%nat.
    replace (mono_reads w + 2)%nat with (S (S (mono_reads w))) by lia.
    split.
    { unfold updateOffset. unfold bind at 1. rewrite span_any by lia. fold sp.
      destruct (Z.leb_spec sp 0); [lia|].
      unfold bind at 1. unfold gets at 1. cbn [fst snd].
      unfold bind at 1.
      rewrite Hloop.
      run_step. rewrite Hf1.
      unfold go_rem. destruct (Z.eqb_spec (rw_size rw) 0); [lia|].
      rewrite add_small by int64_range.
      rewrite Z.rem_mod_nonneg by lia. run_step.
      unfold timex.Now.
      cbn [rw_interval rw_lastTime set_rw_offset mono mono_reads set_mono_reads].
      rewrite Hf2, Hf5.
      destruct (Z.eqb_spec (rw_interval rw) 0); [lia|]. run_step.
      reflexivity. }
    split; [lia|].
    destruct Hwf1 as [Hs Hw Ho1 Hi1].
    split.
    { split; cbn; try done. rewrite Hf1. apply Z.mod_pos_bound. lia. }
    cbn. rewrite Z.add_0_l in Hz, Hk. do 4 (split; [done|]).
    split; [done|]. split; [exact Hz|exact Hk].
Qed.

Lemma fold_visit_wf {A} (fn : Bucket -> A -> Bucket * A) size slots : forall win a,
  wf_window size win -> Forall (fun j => 0 <= j < size) slots ->
  wf_window size (fst (fold_left (visit fn) slots (win, a))).
Proof.
  induction slots as [|j slots IH]; intros win a Hwf Hin; [done|].
  inversion Hin as [|? ? Hj Hin']; subst. cbn [fold_left].
  pose proof (visit_wf fn size win a j Hwf Hj) as Hv.
  destruct (visit fn (win, a) j) as [win1 a1]. by apply IH.
Qed.

Lemma reduce_count_range rw sp :
  1 <= rw_size rw -> 0 <= sp <= rw_size rw -> 0 <= reduce_count rw sp <= rw_size rw.
Proof. intros Hs Hsp. unfold reduce_count. destruct (_ && _); lia. Qed.

Lemma reduce_slots_range rw sp :
  1 <= rw_size rw -> Forall (fun j => 0 <= j < rw_size rw) (reduce_slots rw sp).
Proof.
  intros Hs. unfold reduce_slots. apply Forall_map, Forall_forall.
  intros i _. cbn. apply Z.mod_pos_bound. lia.
Qed.

Lemma Reduce_any {A} (fn : Bucket -> A -> Bucket * A) (a : A) rw w :
  wf rw ->
  let slots := reduce_slots rw (span_at rw (reading w 0)) in
  Reduce fn a (rw, w) =
    (Ok (snd (fold_left (visit fn) slots (rw_win rw, a))),
     (set_rw_win (fst (fold_left (visit fn) slots (rw_win rw, a))) rw,
      set_mono_reads (S (mono_reads w)) w)).
Proof.
  intros Hwf. cbv zeta.
  pose proof (wf_size _ Hwf) as [Hs1 Hs2]. pose proof (wf_offset _ Hwf) as Ho.
  pose proof (wf_interval _ Hwf) as Hi. pose proof (wf_win _ Hwf) as Hw.
  pose proof (span_at_range rw (reading w 0) ltac:(lia)) as Hsp.
  set (sp := span_at rw (reading w 0)) in *.
  pose proof (reduce_count_range rw sp ltac:(lia) Hsp) as Hc.
  unfold reduce_slots.
  rewrite Reduce_unfold, span_any by lia. fold sp. cbv beta iota zeta.
  rewrite !sub_small by int64_range.
  change (if (sp =? 0) && rw_ignoreCurrent rw then rw_size rw - 1 else rw_size rw - sp)
    with (reduce_count rw sp).
  destruct (Z.ltb_spec 0 (reduce_count rw sp)) as [Hpos|Hneg].
  - destruct (Z.eqb_spec (rw_size rw) 0); [lia|].
    rewrite (add_small (rw_offset rw) sp) by int64_range.
    rewrite add_small by int64_range.
    rewrite Z.rem_mod_nonneg by lia.
    rewrite (reduce_loop_run fn (rw_size rw)) by
      (done || lia || (apply Z.mod_pos_bound; lia)).
    rewrite Z2Nat.id by lia.
    replace (map (fun i => ((rw_offset rw + sp + 1) mod rw_size rw + i) mod rw_size rw)
                 (seqZ 0 (reduce_count rw sp)))
      with (map (fun i => (rw_offset rw + sp + 1 + i) mod rw_size rw)
                (seqZ 0 (reduce_count rw sp))).
    + by destruct (fold_left _ _ _).
    + apply map_ext. intros i. by rewrite Zplus_mod_idemp_l.
  - rewrite seqZ_nil by lia. cbn. by destruct rw.
Qed.

(** *** The slots [Reduce] visits *)

Lemma in_reduce_slots rw sp j :
  In j (reduce_slots rw sp) <->
  exists i, 0 <= i < reduce_count rw sp /\ j = (rw_offset rw + sp + 1 + i) mod rw_size rw.
Proof.
  unfold reduce_slots. rewrite in_map_iff. split.
  - intros (i & <- & Hi). apply list_elem_of_In, elem_of_seqZ in Hi.
    exists i. split; [lia|done].
  - intros (i & Hi & ->). exists i. split; [done|].
    apply list_elem_of_In, elem_of_seqZ. lia.
Qed.

Lemma reduce_slots_NoDup rw sp :
  1 <= rw_size rw -> 0 <= sp <= rw_size rw -> NoDup (reduce_slots rw sp).
Proof.
  intros Hs Hsp. pose proof (reduce_count_range rw sp Hs Hsp) as Hc.
  unfold reduce_slots.
  change (NoDup ((fun i => (rw_offset rw + sp + 1 + i) mod rw_size rw)
                   <$> seqZ 0 (reduce_count rw sp))).
  apply NoDup_fmap_2_strong; [|apply NoDup_seqZ].
  intros x y Hx Hy Heq. apply elem_of_seqZ in Hx, Hy.
  destruct (Z.lt_trichotomy x y) as [Hlt|[->|Hlt]]; [|done|].
  - exfalso. revert Heq. apply mod_apart. lia.
  - exfalso. symmetry in Heq. revert Heq. apply mod_apart. lia.
Qed.

(** A slot is visited exactly when [updateOffset] would not reset it,
    the slot under the cursor being left out as [ignoreCurrent] asks. *)
Lemma reduce_slots_fresh rw sp j :
  1 <= rw_size rw -> 0 <= sp <= rw_size rw -> 0 <= rw_offset rw < rw_size rw ->
  0 <= j < rw_size rw ->
  In j (reduce_slots rw sp) <->
  ~ stale rw sp j /\ ~ (sp = 0 /\ rw_ignoreCurrent rw = true /\ j = rw_offset rw).
Proof.
  intros Hs Hsp Ho Hj. rewrite in_reduce_slots. unfold stale, reduce_count.
  set (size := rw_size rw) in *. set (o := rw_offset rw) in *.
  set (d := (j - o - 1) mod size).
  assert (Hd : 0 <= d < size) by (apply Z.mod_pos_bound; lia).
  assert (Hjd : j = (o + d + 1) mod size).
  { subst d. rewrite <- Zplus_mod_idemp_l, <- (Zplus_mod_idemp_r ((j - o - 1) mod size)).
    rewrite Z.mod_mod by lia. rewrite Zplus_mod_idemp_r, Zplus_mod_idemp_l.
    replace (o + (j - o - 1) + 1) with j by lia. by rewrite Z.mod_small. }
  assert (Huniq : forall e, 0 <= e < size -> j = (o + e + 1) mod size -> e = d).
  { intros e He Hje. rewrite Hjd in Hje.
    destruct (Z.lt_trichotomy e d) as [Hlt|[->|Hlt]]; [|done|].
    - exfalso. symmetry in Hje. revert Hje. apply mod_apart. lia.
    - exfalso. revert Hje. apply mod_apart. lia. }
  split.
  - intros (i & Hi & Hji). split.
    + intros (e & He & Hje).
      assert (e = d) by (apply Huniq; [lia|done]).
      destruct ((sp =? 0) && rw_ignoreCurrent rw) eqn:Hcur.
      * apply andb_true_iff in Hcur as [Hz%Z.eqb_eq _].
        assert (sp + i = d); [|lia].
        apply Huniq; [lia|]. rewrite Hji. f_equal. lia.
      * assert (sp + i = d); [|lia].
        apply Huniq; [lia|]. rewrite Hji. f_equal. lia.
    + intros (-> & Hig & ->). rewrite Hig in Hi. cbn in Hi.
      assert (Hdd : size - 1 = d).
      { apply Huniq; [lia|]. replace (o + (size - 1) + 1) with (o + 1 * size) by lia.
        rewrite Z.mod_add by lia. by rewrite Z.mod_small. }
      assert (0 + i = d); [|lia].
      apply Huniq; [lia|]. rewrite Hji. f_equal. lia.
  - intros [Hfresh Hcur].
    assert (Hge : sp <= d).
    { destruct (Z.le_gt_cases sp d); [done|]. exfalso. apply Hfresh. exists d.
      split; [lia|done]. }
    exists (d - sp). split.
    + destruct (Z.eqb_spec sp 0) as [->|Hnz]; cbn; [|lia].
      destruct (rw_ignoreCurrent rw) eqn:Hig; [|lia].
      assert (d <> size - 1); [|lia]. intros Hdd. apply Hcur.
      split; [done|]. split; [done|]. rewrite Hjd, Hdd.
      replace (o + (size - 1) + 1) with (o + 1 * size) by lia.
      rewrite Z.mod_add by lia. by rewrite Z.mod_small.
    + rewrite Hjd. f_equal. lia.
Qed.

(** X1. [Add] never panics on a well-formed window, whatever the
    clock reads (also when it jumps back): it reads the clock once or
    twice, keeps the window well formed with its size, interval and
    [ignoreCurrent], and moves the cursor by what [span] returned. When
    the clock keeps its contract, [lastTime] stays a past reading. *)
Theorem Add_keeps_well_formed (rw : RollingWindow) (w : World) (v : Q) :
  wf rw ->
  exists rw' k,
    Add v (rw, w) = (Ok tt, (rw', set_mono_reads (mono_reads w + S k) w)) /\
    (k <= 1)%nat /\ wf rw' /\
    rw_size rw' = rw_size rw /\ rw_interval rw' = rw_interval rw /\
    rw_ignoreCurrent rw' = rw_ignoreCurrent rw /\
    rw_offset rw' = (rw_offset rw + span_at rw (reading w 0)) mod rw_size rw /\
    (timely rw w -> timely rw' (set_mono_reads (mono_reads w + S k) w)).
Proof.
  intros Hwf.
  destruct (updateOffset_any rw w Hwf)
    as (rw1 & k & Hupd & Hk1 & Hwf1 & Hsz & Hiv & Hig & Hoff & _).
  destruct (Add_after rw w v _ _ Hupd Hwf1) as (b & Hb & Hadd).
  exists (poke (rw_offset rw1) (Bucket_add v b) rw1), k.
  split; [exact Hadd|]. split; [exact Hk1|].
  split; [apply poke_wf; [done|apply (wf_offset _ Hwf1)]|].
  do 4 (split; [done|]).
  intros Ht. destruct (Add_keeps rw w v Hwf Ht) as (rw2 & k2 & Hadd2 & _ & Ht2 & _).
  rewrite Hadd in Hadd2. injection Hadd2 as -> ->. exact Ht2.
Qed.

(** X2. [Reduce] never panics on a well-formed window, whatever the
    clock reads and whatever the callback writes: it reads the clock
    once, calls the callback on the buckets of at most [size] slots, all
    of them inside the window, and leaves the window well formed, its
    cursor, [lastTime], size and interval untouched. *)
Theorem Reduce_keeps_well_formed {A} (fn : Bucket -> A -> Bucket * A) (a : A)
        (rw : RollingWindow) (w : World) :
  wf rw ->
  let sp := span_at rw (reading w 0) in
  let slots := reduce_slots rw sp in
  let after := fold_left (visit fn) slots (rw_win rw, a) in
  Reduce fn a (rw, w) =
    (Ok (snd after), (set_rw_win (fst after) rw, set_mono_reads (S (mono_reads w)) w)) /\
  wf (set_rw_win (fst after) rw) /\
  same_frame rw (set_rw_win (fst after) rw) /\
  0 <= sp <= rw_size rw /\
  Z.of_nat (length slots) = reduce_count rw sp /\
  reduce_count rw sp <= rw_size rw /\
  Forall (fun j => 0 <= j < rw_size rw) slots.
Proof.
  intros Hwf sp slots after.
  pose proof (wf_size _ Hwf) as [Hs1 Hs2].
  pose proof (span_at_range rw (reading w 0) ltac:(lia)) as Hsp. fold sp in Hsp.
  pose proof (reduce_count_range rw sp Hs1 Hsp) as Hc.
  pose proof (reduce_slots_range rw sp Hs1) as Hin. fold slots in Hin.
  split; [by apply Reduce_any|].
  split.
  { destruct Hwf as [Hs Hw Ho Hi]. split; cbn; try done.
    subst after. by apply fold_visit_wf. }
  split; [by repeat split|]. split; [done|].
  split; [|split; [lia|done]].
  subst slots. unfold reduce_slots. rewrite length_map, length_seqZ. lia.
Qed.

(** X3. A window whose interval is zero is accepted by
    [NewRollingWindow], and then every [Add] and every [Reduce] panics
    with an integer division by zero in [span], after one reading of
    the clock and with the window as it was. *)
Theorem zero_interval_panics {A} (fn : Bucket -> A -> Bucket * A) (a : A) (v : Q)
        (rw : RollingWindow) (w : World) :
  rw_interval rw = 0 ->
  let w1 := set_mono_reads (S (mono_reads w)) w in
  span (rw, w) = (Panic DivideByZero, (rw, w1)) /\
  updateOffset (rw, w) = (Panic DivideByZero, (rw, w1)) /\
  Add v (rw, w) = (Panic DivideByZero, (rw, w1)) /\
  Reduce fn a (rw, w) = (Panic DivideByZero, (rw, w1)) /\
  (forall size w0, 1 <= size ->
     exists rw0 w0',
       NewRollingWindow size 0 [] w0 = (Ok rw0, w0') /\ rw_interval rw0 = 0).
Proof.
  intros Hi w1.
  assert (Hspan : span (rw, w) = (Panic DivideByZero, (rw, w1))).
  { rewrite span_unfold, Hi. reflexivity. }
  split; [exact Hspan|].
  assert (Hupd : updateOffset (rw, w) = (Panic DivideByZero, (rw, w1))).
  { unfold updateOffset. unfold bind at 1. by rewrite Hspan. }
  split; [exact Hupd|]. split.
  { unfold Add. unfold bind at 1. by rewrite Hupd. }
  split.
  { rewrite Reduce_unfold, Hspan. reflexivity. }
  intros size w0 Hsize.
  eexists _, _. split; [apply (ConstructionFacts.NewRollingWindow_run size 0 [] w0); [lia|constructor]|].
  reflexivity.
Qed.

(** X4. The buckets [Reduce] hands to its callback are those an
    [updateOffset] at the same reading of the clock would keep: no slot
    is visited twice, a slot is visited exactly when it is not among
    the [span] slots after the cursor that [updateOffset] resets (and,
    with [ignoreCurrent] and no elapsed interval, is not the slot under
    the cursor), and [updateOffset] leaves the bucket of every visited
    slot as it is and zeroes the others. *)
Theorem Reduce_visits_fresh_slots_once {A} (fn : Bucket -> A -> Bucket * A) (a : A)
        (rw : RollingWindow) (w : World) :
  wf rw ->
  let size := rw_size rw in
  let sp := span_at rw (reading w 0) in
  let slots := reduce_slots rw sp in
  let after := fold_left (visit fn) slots (rw_win rw, a) in
  Reduce fn a (rw, w) =
    (Ok (snd after), (set_rw_win (fst after) rw, set_mono_reads (S (mono_reads w)) w)) /\
  NoDup slots /\
  (forall j, 0 <= j < size ->
     In j slots <->
     ~ stale rw sp j /\ ~ (sp = 0 /\ rw_ignoreCurrent rw = true /\ j = rw_offset rw)) /\
  (exists rw1 w1,
     updateOffset (rw, w) = (Ok tt, (rw1, w1)) /\
     (forall j, In j slots -> bucket_at rw1 j = bucket_at rw j) /\
     (forall j, stale rw sp j -> bucket_at rw1 j = Some zeroBucket)) /\
  (timely rw w ->
   sp = Z.min ((reading w 0 - rw_lastTime rw) / rw_interval rw) size).
Proof.
  intros Hwf size sp slots after.
  pose proof (wf_size _ Hwf) as [Hs1 Hs2]. pose proof (wf_offset _ Hwf) as Ho.
  pose proof (span_at_range rw (reading w 0) ltac:(lia)) as Hsp. fold sp in Hsp.
  split; [by apply Reduce_any|].
  split; [by apply reduce_slots_NoDup|].
  split; [intros j Hj; by apply reduce_slots_fresh|].
  split; [|intros Ht; by apply span_at_timely].
  destruct (updateOffset_any rw w Hwf)
    as (rw1 & k & Hupd & _ & _ & _ & _ & _ & _ & _ & Hz & Hk).
  fold sp in Hz, Hk.
  exists rw1, (set_mono_reads (mono_reads w + S k) w).
  split; [exact Hupd|]. split.
  - intros j Hin.
    assert (Hj : 0 <= j < size).
    { pose proof (reduce_slots_range rw sp Hs1) as Hall.
      apply (proj1 (List.Forall_forall _ _) Hall j Hin). }
    apply (reduce_slots_fresh rw sp j Hs1 Hsp Ho Hj) in Hin as [Hfresh _].
    apply Hk; [done|]. intros i Hi Hji. apply Hfresh. by exists i.
  - intros j (i & Hi & ->). by apply Hz.
Qed.

(** *** A sample and the readers after it *)

(** Slot [j] is [(o + d + 1) mod size] for one [d] below [size]. *)
Lemma slot_after o size j :
  0 <= j < size ->
  0 <= (j - o - 1) mod size < size /\ j = (o + (j - o - 1) mod size + 1) mod size.
Proof.
  intros Hj. split; [apply Z.mod_pos_bound; lia|].
  rewrite <- Zplus_mod_idemp_l, <- (Zplus_mod_idemp_r ((j - o - 1) mod size)).
  rewrite Z.mod_mod by lia. rewrite Zplus_mod_idemp_r, Zplus_mod_idemp_l.
  replace (o + (j - o - 1) + 1) with j by lia. by rewrite Z.mod_small.
Qed.

(** The callback is not called on a slot outside [slots]: what that
    slot holds does not bear on the result. *)
Lemma fold_visit_frame {A} (fn : Bucket -> A -> Bucket * A) j b slots : forall win a,
  0 <= j -> Forall (fun i => 0 <= i) slots -> ~ In j slots ->
  fold_left (visit fn) slots (wpoke j b win, a) =
    (wpoke j b (fst (fold_left (visit fn) slots (win, a))),
     snd (fold_left (visit fn) slots (win, a))).
Proof.
  induction slots as [|i slots IH]; intros win a Hj Hpos Hout; [done|].
  inversion Hpos as [|? ? Hi Hpos']; subst. cbn [fold_left].
  assert (Hne : i <> j) by (intros ->; apply Hout; by left).
  assert (Hout' : ~ In j slots) by (intros Hin; apply Hout; by right).
  unfold visit at 2 4 6. cbn [fst snd].
  rewrite wbucket_wpoke_ne by (lia || (intros ->; done)).
  destruct (wbucket win i) as [b0|]; [|by apply IH].
  replace (wpoke i (fst (fn b0 a)) (wpoke j b win))
    with (wpoke j b (wpoke i (fst (fn b0 a)) win)); [by apply IH|].
  unfold wpoke, set_win_buckets, slice_set. cbn [win_buckets win_size]. f_equal.
  apply list_insert_insert_ne. lia.
Qed.

(** X5. A window built with [IgnoreCurrentBucket] hides the sample
    just added: as long as the clock stays in the interval of the last
    [Add], [Reduce] returns what it would return had the sample not
    been written, for it does not visit the bucket under the cursor.
    Without the option the bucket that [Add] wrote is the last one the
    callback is handed. *)
Theorem ignoreCurrent_hides_the_last_sample {A} (fn : Bucket -> A -> Bucket * A) (a : A)
        (rw : RollingWindow) (w : World) (v : Q) :
  wf rw -> timely rw w ->
  exists rw1 b rw' w',
    updateOffset (rw, w) = (Ok tt, (rw1, w')) /\
    bucket_at rw1 (rw_offset rw1) = Some b /\
    Add v (rw, w) = (Ok tt, (rw', w')) /\
    bucket_at rw' (rw_offset rw') = Some (Bucket_add v b) /\
    (reading w' 0 < rw_lastTime rw' + rw_interval rw' ->
     (rw_ignoreCurrent rw = true ->
      ~ In (rw_offset rw') (reduce_slots rw' 0) /\
      fst (Reduce fn a (rw', w')) = fst (Reduce fn a (rw1, w'))) /\
     (rw_ignoreCurrent rw = false ->
      exists seen,
        Reduce (fun b tr => (b, tr ++ [b])) [] (rw', w') =
          (Ok (seen ++ [Bucket_add v b]), (rw', set_mono_reads (S (mono_reads w')) w')) /\
        Z.of_nat (length seen) = rw_size rw - 1)) /\
    (forall size interval w0, 1 <= size ->
       exists rw0 w0',
         NewRollingWindow size interval [] w0 = (Ok rw0, w0') /\
         NewRollingWindow size interval [IgnoreCurrentBucket] w0 =
           (Ok (set_rw_ignoreCurrent true rw0), w0')).
Proof.
  intros Hwf Ht.
  destruct (updateOffset_any rw w Hwf)
    as (rw1 & k & Hupd & Hk1 & Hwf1 & Hsz & Hiv & Hig & Hoff & _).
  destruct (Add_after rw w v _ _ Hupd Hwf1) as (b & Hb & Hadd).
  pose proof (wf_offset _ Hwf1) as Ho1. pose proof (wf_size _ Hwf1) as [Hs1 Hs2].
  pose proof (wf_interval _ Hwf1) as Hi1.
  set (w' := set_mono_reads (mono_reads w + S k) w) in *.
  set (rw' := poke (rw_offset rw1) (Bucket_add v b) rw1) in *.
  assert (Hwf' : wf rw') by (by apply poke_wf).
  assert (Hs1' : 1 <= rw_size rw') by exact Hs1.
  assert (Ho1' : 0 <= rw_offset rw' < rw_size rw') by exact Ho1.
  exists rw1, b, rw', w'.
  split; [exact Hupd|]. split; [exact Hb|]. split; [exact Hadd|].
  split; [by apply bucket_at_poke_eq|].
  split.
  - intros Hsame.
    destruct (Add_keeps rw w v Hwf Ht) as (rw2 & k2 & Hadd2 & _ & Ht2 & _).
    rewrite Hadd in Hadd2. injection Hadd2 as <- Hw. fold w' in Hw. rewrite <- Hw in Ht2.
    assert (Hsp : span_at rw' (reading w' 0) = 0).
    { rewrite span_at_timely by done. destruct Ht2 as [_ Hl]. fold w' in Hl.
      change (rw_interval rw') with (rw_interval rw1) in *.
      change (rw_size rw') with (rw_size rw1).
      rewrite Z.div_small by lia. lia. }
    split.
    + intros Hig1.
      assert (Hout : ~ In (rw_offset rw') (reduce_slots rw' 0)).
      { intros Hin. apply reduce_slots_fresh in Hin as [_ Hc]; [|done|lia|done|done].
        apply Hc. split; [done|]. split; [|done].
        change (rw_ignoreCurrent rw1 = true). by rewrite Hig. }
      split; [exact Hout|].
      rewrite (Reduce_any fn a rw' w' Hwf'), (Reduce_any fn a rw1 w' Hwf1).
      cbn [fst]. f_equal.
      change (span_at rw1 (reading w' 0)) with (span_at rw' (reading w' 0)).
      rewrite Hsp.
      change (reduce_slots rw1 0) with (reduce_slots rw' 0).
      change (rw_win rw') with (wpoke (rw_offset rw1) (Bucket_add v b) (rw_win rw1)).
      rewrite fold_visit_frame; [done|lia| |exact Hout].
      eapply Forall_impl; [apply (reduce_slots_range rw' 0); done|].
      intros i Hi. cbn in Hi. lia.
    + intros Hig0.
      assert (Hig' : rw_ignoreCurrent rw' = false).
      { change (rw_ignoreCurrent rw1 = false). by rewrite Hig. }
      assert (Hslots : reduce_slots rw' 0 =
        map (fun i => (rw_offset rw' + 0 + 1 + i) mod rw_size rw')
            (seqZ 0 (rw_size rw' - 1)) ++ [rw_offset rw']).
      { unfold reduce_slots, reduce_count. rewrite Hig'. cbn [andb Z.eqb].
        replace (rw_size rw' - 0) with ((rw_size rw' - 1) + 1) by lia.
        rewrite seqZ_app by (change (rw_size rw') with (rw_size rw1); lia).
        rewrite map_app. f_equal. cbn [seqZ]. rewrite seqZ_cons by lia.
        rewrite seqZ_nil by lia. cbn [map]. f_equal.
        replace (rw_offset rw' + 0 + 1 + (0 + (rw_size rw' - 1)))
          with (rw_offset rw' + 1 * rw_size rw') by lia.
        change (rw_size rw') with (rw_size rw1).
        change (rw_offset rw') with (rw_offset rw1).
        rewrite Z.mod_add by lia. by rewrite Z.mod_small. }
      pose proof (reduce_slots_range rw' 0 ltac:(done)) as Hin.
      destruct (visit_trace (rw_size rw') (rw_win rw') (reduce_slots rw' 0) []
                  (wf_win _ Hwf') Hin) as (seen & Hfold & Hall).
      rewrite Hslots in Hall.
      apply Forall2_app_inv_l in Hall as (seen1 & last & Hall1 & Hlast & ->).
      inversion Hlast as [|? blast ? ? Hbl Hnil]; subst.
      inversion Hnil; subst.
      assert (Hcur : bucket_at rw' (rw_offset rw1) = Some (Bucket_add v b))
        by (by apply bucket_at_poke_eq).
      assert (Heq : Some blast = Some (Bucket_add v b)) by (rewrite <- Hbl; exact Hcur).
      injection Heq as ->.
      exists seen1. split.
      * rewrite (Reduce_any _ [] rw' w' Hwf'). rewrite Hsp, Hfold. reflexivity.
      * apply Forall2_length in Hall1. rewrite <- Hall1, length_map, length_seqZ.
        change (rw_size rw') with (rw_size rw1). lia.
  - intros size interval w0 Hsize. eexists _, _.
    split; [apply (ConstructionFacts.NewRollingWindow_run size interval [] w0);
            [lia|constructor]|].
    rewrite (ConstructionFacts.NewRollingWindow_run size interval [IgnoreCurrentBucket] w0)
      by (lia || by repeat constructor).
    reflexivity.
Qed.

(** X6. After an idle period of at least the whole window
    ([size * interval] or more since [lastTime]), [Add] resets every
    bucket: the cursor comes back to the slot it was on, the bucket
    under it holds the new sample alone and every other bucket is
    empty. *)
Theorem Add_after_idle_window_keeps_one_sample (rw : RollingWindow) (w : World) (v : Q) :
  wf rw -> timely rw w ->
  rw_size rw * rw_interval rw <= reading w 0 - rw_lastTime rw ->
  exists rw',
    Add v (rw, w) = (Ok tt, (rw', set_mono_reads (S (S (mono_reads w))) w)) /\
    rw_offset rw' = rw_offset rw /\
    bucket_at rw' (rw_offset rw) = Some (Bucket_add v zeroBucket) /\
    (forall j, 0 <= j < rw_size rw -> j <> rw_offset rw ->
       bucket_at rw' j = Some zeroBucket) /\
    rw_lastTime rw' = reading w 1 - (reading w 1 - rw_lastTime rw) mod rw_interval rw.
Proof.
  intros Hwf Ht Hidle.
  pose proof (wf_size _ Hwf) as [Hs1 Hs2]. pose proof (wf_offset _ Hwf) as Ho.
  pose proof (wf_interval _ Hwf) as Hi.
  assert (Hsp : Z.min ((reading w 0 - rw_lastTime rw) / rw_interval rw) (rw_size rw)
                = rw_size rw).
  { apply Z.min_r. apply Z.div_le_lower_bound; lia. }
  destruct (updateOffset_run rw w Hwf Ht)
    as (rw1 & Hupd & Hwf1 & Hsz & Hiv & Hig & Hoff & Hlt & Hz & _); [lia|].
  rewrite Hsp in Hoff, Hz.
  assert (Hoff1 : rw_offset rw1 = rw_offset rw).
  { rewrite Hoff. replace (rw_offset rw + rw_size rw)
      with (rw_offset rw + 1 * rw_size rw) by lia.
    rewrite Z.mod_add by lia. by rewrite Z.mod_small. }
  assert (Hall : forall j, 0 <= j < rw_size rw -> bucket_at rw1 j = Some zeroBucket).
  { intros j Hj. destruct (slot_after (rw_offset rw) (rw_size rw) j Hj) as [Hd Hjd].
    rewrite Hjd. by apply Hz. }
  destruct (Add_after rw w v _ _ Hupd Hwf1) as (b & Hb & Hadd).
  rewrite Hoff1 in Hb, Hadd. rewrite Hall in Hb by done. injection Hb as <-.
  eexists. split; [exact Hadd|]. split; [exact Hoff1|].
  split; [apply bucket_at_poke_eq; [done|lia]|].
  split; [|exact Hlt].
  intros j Hj Hne. rewrite bucket_at_poke_ne by lia. by apply Hall.
Qed.

End RobustFacts.

(** ** The adaptive breaker *)

Module BreakerFacts.

Import collection breaker Int64Facts CollectionFacts ReduceFacts ConstructionFacts.

Lemma tally_read_only : read_only tally.
Proof. by intros b acc. Qed.

Section Caller.

Context {U : Type}.
Implicit Types (b : googleBreaker) (u : U) (w : World).

Lemma on_stat_run {A} (m : M RW A) b u w :
  on_stat m (b, (u, w)) =
    (fst (m (gb_stat b, w)),
     (set_gb_stat (fst (snd (m (gb_stat b, w)))) b, (u, snd (snd (m (gb_stat b, w)))))).
Proof. unfold on_stat, zoom. cbn [fst snd]. by destruct (m _) as [r [rw' w']]. Qed.

Lemma history_run b u w :
  history (b, (u, w)) =
    (fst (Reduce tally (0, 0) (gb_stat b, w)),
     (b, (u, set_mono_reads (S (mono_reads w)) w))).
Proof.
  unfold history. rewrite on_stat_run.
  rewrite (Reduce_read_only tally (0, 0) (gb_stat b) w tally_read_only).
  by destruct b.
Qed.

Lemma accept_unfold b u w :
  accept (b, (u, w)) =
    let w1 := set_mono_reads (S (mono_reads w)) w in
    match fst (history (b, (u, w))) with
    | Ok h =>
        if Qle_bool (dropRatio (gb_k b) (fst h) (snd h)) 0 then (Ok None, (b, (u, w1)))
        else
          (Ok (if Qlt_le_dec (unif w (unif_draws w))
                             (dropRatio (gb_k b) (fst h) (snd h))
               then Some ErrServiceUnavailable else None),
           (b, (u, set_unif_draws (S (unif_draws w)) w1)))
    | Panic p => (Panic p, (b, (u, w1)))
    end.
Proof.
  unfold accept. unfold bind at 1. rewrite history_run. cbn [fst snd].
  destruct (fst (Reduce _ _ _)) as [h|p]; [|done].
  unfold bind at 1, gets at 1. cbn [fst snd]. cbv zeta.
  destruct (Qle_bool _ _); [done|].
  unfold bind, in_world, zoom, mathx.TrueOnProba. cbn [fst snd].
  by destruct (Qlt_le_dec _ _).
Qed.

(** [accept] rejects with the sentinel only. *)
Lemma accept_error b u w e s :
  accept (b, (u, w)) = (Ok (Some e), s) -> e = ErrServiceUnavailable.
Proof.
  rewrite accept_unfold. cbv zeta.
  destruct (fst (history _)) as [h|p]; [|done].
  destruct (Qle_bool _ _); [done|].
  destruct (Qlt_le_dec _ _); by intros [= <- <-].
Qed.

End Caller.

(** The sign of the drop ratio. *)
Lemma dropRatio_all_success total :
  0 <= total < Int64.max_int -> (dropRatio k total total <= 0)%Q.
Proof.
  intros Ht. unfold dropRatio, protection, float64.
  rewrite sub_small, add_small by int64_range.
  apply Qle_shift_div_r.
  - unfold Qlt, inject_Z. cbn. lia.
  - unfold Qle, Qmult, Qminus, Qplus, Qopp, inject_Z, k. cbn. lia.
Qed.

Lemma dropRatio_protected accepts total :
  0 <= accepts -> 0 <= total <= protection ->
  (dropRatio k accepts total < 0)%Q.
Proof.
  intros Ha Ht. unfold protection in Ht. unfold dropRatio, protection, float64.
  rewrite sub_small, add_small by int64_range.
  apply Qlt_shift_div_r.
  - unfold Qlt, inject_Z. cbn. lia.
  - unfold Qlt, Qmult, Qminus, Qplus, Qopp, inject_Z, k. cbn. lia.
Qed.

Lemma dropRatio_cold_start : (dropRatio k 0 0 == - (13 # 2))%Q.
Proof. reflexivity. Qed.

(** *** The counts a breaker keeps *)

Lemma int64_of_float_count q s :
  (q == inject_Z s)%Q -> Int64.in_range s -> int64_of_float q = s.
Proof.
  intros Hq Hs. unfold int64_of_float. unfold Qeq, inject_Z in Hq. cbn in Hq.
  rewrite Z.mul_1_r in Hq. rewrite Hq, Z.quot_mul by lia. by apply wrap64_small.
Qed.

Lemma tallied_bucket_zero : tallied_bucket 0 zeroBucket.
Proof. exists 0. cbn. split; [reflexivity|lia]. Qed.

Lemma tallied_bucket_weaken m m' b :
  m <= m' -> tallied_bucket m b -> tallied_bucket m' b.
Proof. intros Hm (s & Hs & Hr & Hc). exists s. split; [done|lia]. Qed.

Lemma tallied_bucket_add m v b :
  v = 0%Q \/ v = 1%Q -> 0 <= m < Int64.max_int ->
  tallied_bucket m b -> tallied_bucket (m + 1) (Bucket_add v b).
Proof.
  intros Hv Hm (s & Hs & Hr & Hc). unfold Bucket_add. cbn [Sum Count].
  rewrite add_small by int64_range.
  destruct Hv as [-> | ->].
  - exists s. cbn [Sum Count]. split; [|lia].
    transitivity (Sum b); [apply Qplus_0_r|exact Hs].
  - exists (s + 1). cbn [Sum Count]. split; [|lia].
    rewrite inject_Z_plus. apply Qplus_comp; [exact Hs|reflexivity].
Qed.

(** A sample more keeps the counts, one higher at most. *)
Lemma Add_tallied m v rw w rw' w' :
  wf rw -> timely rw w -> v = 0%Q \/ v = 1%Q -> 0 <= m < Int64.max_int ->
  tallied m rw -> Add v (rw, w) = (Ok tt, (rw', w')) -> tallied (m + 1) rw'.
Proof.
  intros Hwf Ht Hv Hm Hrw Hadd j b' Hb'.
  destruct (Add_buckets rw w v rw' w' Hwf Ht Hadd j b' Hb') as (b & Hfrom & Hb).
  assert (Hok : tallied_bucket m b).
  { destruct Hfrom as [-> | Hold].
    - apply (tallied_bucket_weaken 0); [lia|apply tallied_bucket_zero].
    - by apply (Hrw j). }
  destruct Hb as [-> | ->].
  - apply (tallied_bucket_weaken m); [lia|done].
  - by apply tallied_bucket_add.
Qed.

(** The sums [history] makes over the buckets it is handed. *)
Lemma tally_fold size win m slots : forall a t,
  wf_window size win ->
  (forall j b, wbucket win j = Some b -> tallied_bucket m b) ->
  Forall (fun j => 0 <= j < size) slots ->
  0 <= m -> 0 <= a <= t -> t + Z.of_nat (length slots) * m <= Int64.max_int ->
  exists a' t',
    fold_left (visit tally) slots (win, (a, t)) = (win, (a', t')) /\
    0 <= a' <= t' /\ t' <= t + Z.of_nat (length slots) * m.
Proof.
  induction slots as [|j slots IH]; intros a t Hwf Hok Hin Hm Hat Hbound.
  - exists a, t. cbn. split; [done|lia].
  - inversion Hin as [|? ? Hj Hin']; subst.
    destruct (wfw_non_nil _ _ Hwf j Hj) as [b Hb].
    destruct (Hok j b Hb) as (s & Hs & Hr & Hc).
    cbn [length] in Hbound.
    cbn [fold_left]. unfold visit at 2. cbn [fst snd]. rewrite Hb.
    unfold tally at 2 3. cbn [fst snd].
    rewrite (int64_of_float_count _ s Hs) by int64_range.
    rewrite !add_small by int64_range.
    replace (wpoke j b win) with win.
    2:{ unfold wpoke. unfold wbucket in Hb.
        destruct (slice_get (win_buckets win) j) as [p|] eqn:Hg; [|done]. subst p.
        rewrite slice_set_id by done. by destruct win. }
    destruct (IH (a + s) (t + Count b) Hwf Hok Hin' Hm) as (a' & t' & Hfold & Ha' & Ht');
      [lia|nia|].
    exists a', t'. split; [done|]. split; [done|]. cbn [length]. nia.
Qed.

Lemma history_counts {U} (b : googleBreaker) (u : U) w m :
  wf (gb_stat b) -> timely (gb_stat b) w -> tallied m (gb_stat b) ->
  0 <= m -> rw_size (gb_stat b) * m <= Int64.max_int ->
  exists accepts total,
    history (b, (u, w)) =
      (Ok (accepts, total), (b, (u, set_mono_reads (S (mono_reads w)) w))) /\
    0 <= accepts <= total /\ total <= rw_size (gb_stat b) * m.
Proof.
  intros Hwf Ht Hrw Hm Hbound. rewrite history_run.
  pose proof (wf_size _ Hwf) as [Hs1 Hs2].
  pose proof (Reduce_run tally (0, 0) (gb_stat b) w Hwf Ht) as Hrun.
  cbv zeta in Hrun.
  set (sp := Z.min _ _) in Hrun.
  match type of Hrun with context [seqZ 0 ?c] => set (count := c) in Hrun end.
  match type of Hrun with context [fold_left _ ?l _] => set (slots := l) in Hrun end.
  assert (Hsp : 0 <= sp).
  { subst sp. pose proof (timely_now _ _ Ht) as [Hl _]. pose proof (wf_interval _ Hwf).
    apply Z.min_glb; [|lia]. apply Z.div_pos; [|lia].
    unfold reading. rewrite Nat.add_0_r. lia. }
  assert (Hlen : Z.of_nat (length slots) <= rw_size (gb_stat b)).
  { subst slots. rewrite length_map, length_seqZ. subst count.
    destruct (_ && _); lia. }
  destruct (tally_fold (rw_size (gb_stat b)) (rw_win (gb_stat b)) m slots 0 0)
    as (a' & t' & Hfold & Ha' & Ht'); try done; try lia.
  { apply (wf_win _ Hwf). }
  { subst slots. apply Forall_forall. intros j Hj.
    apply list_elem_of_In, in_map_iff in Hj as (i & <- & _).
    apply Z.mod_pos_bound. lia. }
  { nia. }
  exists a', t'. rewrite Hrun, Hfold. cbn [fst snd]. split; [done|]. split; [done|nia].
Qed.

(** A new breaker: forty buckets of 250 ms, ten seconds in all, and no
    sample yet. *)
Lemma newGoogleBreaker_run w :
  timex.monotonic w ->
  exists rw,
    let w' := set_mono_reads (S (mono_reads w)) w in
    newGoogleBreaker w = (Ok (mkGoogleBreaker k rw), w') /\
    rw_size rw = 40 /\ rw_interval rw = 250000000 /\
    rw_size rw * rw_interval rw = window /\
    rw_lastTime rw = reading w 0 /\
    wf rw /\ timely rw w' /\ tallied 0 rw.
Proof.
  intros Hm. eexists. cbv zeta. split.
  { unfold newGoogleBreaker, go_div, window, buckets, bind, ret. cbn [Z.eqb].
    change (Int64.wrap64 (Z.quot (10 * 1000000000) 40)) with 250000000.
    rewrite NewRollingWindow_run by (lia || constructor). reflexivity. }
  cbn [rw_size rw_interval rw_lastTime]. do 4 (split; [done|]).
  destruct (NewRollingWindow_wf 40 250000000 [] w _ _ ltac:(lia)
              ltac:(unfold Int64.max_int; lia) ltac:(lia) ltac:(constructor) Hm
              (NewRollingWindow_run 40 250000000 [] w ltac:(lia) ltac:(constructor)))
    as [Hwf Ht].
  split; [exact Hwf|]. split; [exact Ht|].
  intros j b. unfold bucket_at, wbucket, slice_get. cbn [rw_win win_buckets].
  destruct (j <? 0); [done|].
  destruct (replicate (Z.to_nat 40) (Some zeroBucket) !! Z.to_nat j) as [p|] eqn:Hl;
    [|done].
  apply lookup_replicate in Hl as [-> _]. intros [= <-]. apply tallied_bucket_zero.
Qed.

(** C4. With an all-success history ([accepts = total]), and likewise
    with at most [protection] = 5 samples in the window, the drop ratio
    [((total - 5) - (1.5 + accepts)) / (total + 1)] is not positive and
    [accept] admits without asking the sampler: it returns no error and
    the world only loses the clock reading that [history] took. The
    history of a breaker's window is one of counts,
    [0 <= accepts <= total]. With an empty history the ratio is
    [-6.5]. *)
Theorem accept_admits_protected {U} (b : googleBreaker) (u : U) (w : World)
        (accepts total : Z) :
  fst (history (b, (u, w))) = Ok (accepts, total) ->
  gb_k b = k ->
  (0 <= total < Int64.max_int ->
   accepts = total \/ (0 <= accepts /\ total <= protection) ->
   (dropRatio k accepts total <= 0)%Q /\
   accept (b, (u, w)) = (Ok None, (b, (u, set_mono_reads (S (mono_reads w)) w))) /\
   unif_draws (snd (snd (snd (accept (b, (u, w)))))) = unif_draws w) /\
  (forall m, wf (gb_stat b) -> timely (gb_stat b) w -> tallied m (gb_stat b) ->
     0 <= m -> rw_size (gb_stat b) * m < Int64.max_int ->
     0 <= accepts <= total /\ total < Int64.max_int) /\
  (dropRatio k 0 0 == - (13 # 2))%Q /\ (dropRatio k 0 0 < 0)%Q.
Proof.
  intros Hh Hk. split; [|split].
  - intros Ht Hcase.
    assert (Hle : (dropRatio k accepts total <= 0)%Q).
    { destruct Hcase as [->|[Ha Hp]].
      - by apply dropRatio_all_success.
      - apply Qlt_le_weak, dropRatio_protected; lia. }
    assert (Hacc : accept (b, (u, w)) =
                     (Ok None, (b, (u, set_mono_reads (S (mono_reads w)) w)))).
    { rewrite accept_unfold, Hh, Hk. cbn [fst snd]. cbv zeta.
      apply Qle_bool_iff in Hle. by rewrite Hle. }
    split; [exact Hle|]. split; [exact Hacc|]. by rewrite Hacc.
  - intros m Hwf Ht Hrw Hm Hbound.
    destruct (history_counts b u w m Hwf Ht Hrw Hm ltac:(lia))
      as (a' & t' & Hrun & Ha' & Ht').
    rewrite Hrun in Hh. injection Hh as <- <-. lia.
  - split; [apply dropRatio_cold_start|]. by rewrite dropRatio_cold_start.
Qed.

(** C7. Once [size * interval] has elapsed since the last [Add] (that
    [Add] took place at [tAdd], and [lastTime] is never later than the
    [Add] that set it), [span] is [size], [Reduce] calls its callback on
    no bucket, [history] is [(0, 0)] and [accept] admits, as for a new
    breaker. *)
Theorem stale_window_admits {U} (b : googleBreaker) (u : U) (w : World) (tAdd : Z) :
  wf (gb_stat b) -> timely (gb_stat b) w -> gb_k b = k ->
  rw_lastTime (gb_stat b) <= tAdd ->
  rw_size (gb_stat b) * rw_interval (gb_stat b) <= reading w 0 - tAdd ->
  let w1 := set_mono_reads (S (mono_reads w)) w in
  span (gb_stat b, w) = (Ok (rw_size (gb_stat b)), (gb_stat b, w1)) /\
  (forall A (fn : Bucket -> A -> Bucket * A) (a : A),
     Reduce fn a (gb_stat b, w) = (Ok a, (gb_stat b, w1))) /\
  history (b, (u, w)) = (Ok (0, 0), (b, (u, w1))) /\
  accept (b, (u, w)) = (Ok None, (b, (u, w1))) /\
  (* [lastTime] is never later than the reading its [Add] took last *)
  (forall v rw0 w0, wf rw0 -> timely rw0 w0 ->
     exists rw' n,
       Add v (rw0, w0) = (Ok tt, (rw', set_mono_reads (mono_reads w0 + S n) w0)) /\
       rw_lastTime rw' <= reading w0 n) /\
  (* the window of a new breaker: 40 buckets of 250 ms *)
  (forall w0, timex.monotonic w0 ->
     exists b0 w0',
       newGoogleBreaker w0 = (Ok b0, w0') /\ gb_k b0 = k /\ wf (gb_stat b0) /\
       rw_size (gb_stat b0) = 40 /\ rw_interval (gb_stat b0) = 250000000 /\
       rw_size (gb_stat b0) * rw_interval (gb_stat b0) = 10 * 1000000000).
Proof.
  intros Hwf Ht Hk Hlast Hstale w1.
  pose proof (wf_size _ Hwf) as [Hs1 Hs2]. pose proof (wf_interval _ Hwf) as Hi.
  set (rw := gb_stat b) in *.
  assert (Hsp : Z.min ((reading w 0 - rw_lastTime rw) / rw_interval rw) (rw_size rw)
                = rw_size rw).
  { apply Z.min_r. apply Z.div_le_lower_bound; [lia|nia]. }
  assert (Hred : forall A (fn : Bucket -> A -> Bucket * A) (a : A),
             Reduce fn a (rw, w) = (Ok a, (rw, w1))).
  { intros A fn a. pose proof (Reduce_run fn a rw w Hwf Ht) as Hrun.
    cbv zeta in Hrun. rewrite Hsp in Hrun.
    destruct (Z.eqb_spec (rw_size rw) 0); [lia|].
    rewrite Z.sub_diag in Hrun. cbn in Hrun. rewrite Hrun. by destruct rw. }
  assert (Hhist : history (b, (u, w)) = (Ok (0, 0), (b, (u, w1)))).
  { rewrite history_run. fold rw. by rewrite Hred. }
  split; [by rewrite span_run, Hsp|]. split; [exact Hred|]. split; [exact Hhist|].
  split.
  - rewrite accept_unfold, Hhist, Hk. reflexivity.
  - split.
    + intros v rw0 w0 Hwf0 Ht0.
      destruct (Add_keeps rw0 w0 v Hwf0 Ht0)
        as (rw' & n & Hadd & _ & _ & _ & _ & _ & Hle).
      exists rw', n. split; [exact Hadd|]. exact Hle.
    + intros w0 Hm0.
      destruct (newGoogleBreaker_run w0 Hm0)
        as (rw0 & Hnew & Hsz & Hiv & Hprod & _ & Hwf0 & _).
      eexists _, _. split; [exact Hnew|]. cbn [gb_k gb_stat].
      split; [done|]. split; [done|]. split; [done|]. split; [done|].
      by rewrite Hsz, Hiv.
Qed.

End BreakerFacts.

(** ** The samples a breaker counts *)

Module SampleFacts.

Import collection breaker Int64Facts CollectionFacts ReduceFacts RobustFacts
       BreakerFacts.

(** *** Sums over slots *)

Lemma sumZ_le {T} (f g : T -> Z) l :
  Forall (fun x => f x <= g x) l -> sumZ (map f l) <= sumZ (map g l).
Proof. unfold sumZ. induction 1 as [|x l Hx _ IH]; cbn; lia. Qed.

Lemma sumZ_nonneg {T} (f : T -> Z) l :
  Forall (fun x => 0 <= f x) l -> 0 <= sumZ (map f l).
Proof. unfold sumZ. induction 1 as [|x l Hx _ IH]; cbn; lia. Qed.

Lemma sumZ_submseteq {T} (f : T -> Z) l k :
  (forall x, 0 <= f x) -> l ⊆+ k -> sumZ (map f l) <= sumZ (map f k).
Proof.
  intros Hf. unfold sumZ.
  induction 1 as [|x l k _ IH|x y l|x l k _ IH|l k m _ IH1 _ IH2]; cbn.
  - lia.
  - lia.
  - lia.
  - specialize (Hf x). lia.
  - lia.
Qed.

(** One slot changed: the sum moves by the difference there. *)
Lemma sumZ_point (f g : Z -> Z) j0 l :
  NoDup l -> (forall j, j ∈ l -> j <> j0 -> g j = f j) ->
  sumZ (map g l) = sumZ (map f l) + (if decide (j0 ∈ l) then g j0 - f j0 else 0).
Proof.
  unfold sumZ.
  induction 1 as [|x l Hx Hnd IH]; intros Hsame; cbn [map fold_right].
  - rewrite decide_False by apply not_elem_of_nil. lia.
  - rewrite IH by (intros j Hj; apply Hsame; by right).
    destruct (decide (x = j0)) as [->|Hne].
    + rewrite (decide_False (P := j0 ∈ l)) by done.
      rewrite decide_True by (by left). lia.
    + rewrite (Hsame x) by (by left || done).
      destruct (decide (j0 ∈ l)) as [Hin|Hout].
      * rewrite decide_True by (by right). lia.
      * rewrite decide_False; [lia|].
        intros [Heq|Hin]%elem_of_cons; [by apply Hne|by apply Hout].
Qed.

(** *** What a well-kept bucket holds *)

Lemma tallied_counts n rw j :
  tallied n rw -> n <= Int64.max_int ->
  0 <= success_at rw j <= count_at rw j /\ (count_at rw j = 0 \/ count_at rw j <= n).
Proof.
  intros Hrw Hn. unfold success_at, count_at.
  destruct (bucket_at rw j) as [b|] eqn:Hb; [|lia].
  destruct (Hrw j b Hb) as (s & Hs & Hr & Hc).
  rewrite (int64_of_float_count _ s Hs) by int64_range. lia.
Qed.

Lemma samples_in_nonneg n rw slots :
  tallied n rw -> n <= Int64.max_int ->
  0 <= successes_in rw slots <= samples_in rw slots.
Proof.
  intros Hrw Hn. unfold successes_in, samples_in. split.
  - apply sumZ_nonneg, Forall_forall. intros j _.
    destruct (tallied_counts n rw j Hrw Hn) as [? _]. lia.
  - apply sumZ_le, Forall_forall. intros j _.
    destruct (tallied_counts n rw j Hrw Hn) as [? _]. lia.
Qed.

(** *** What [history] adds up *)

Lemma tally_fold_sum n rw slots : forall a t,
  wf rw -> tallied n rw -> n <= Int64.max_int ->
  Forall (fun j => 0 <= j < rw_size rw) slots ->
  0 <= a <= t -> t + samples_in rw slots <= Int64.max_int ->
  fold_left (visit tally) slots (rw_win rw, (a, t)) =
    (rw_win rw, (a + successes_in rw slots, t + samples_in rw slots)).
Proof.
  induction slots as [|j slots IH]; intros a t Hwf Hrw Hn Hin Hat Hbound.
  - unfold successes_in, samples_in. cbn. by rewrite !Z.add_0_r.
  - inversion Hin as [|? ? Hj Hin']; subst.
    destruct (wfw_non_nil _ _ (wf_win _ Hwf) j Hj) as [b Hb].
    pose proof (tallied_counts n rw j Hrw Hn) as [Hsc _].
    pose proof (samples_in_nonneg n rw slots Hrw Hn) as Hrest.
    assert (Hsj : int64_of_float (Sum b) = success_at rw j).
    { unfold success_at, bucket_at. by rewrite Hb. }
    assert (Hcj : Count b = count_at rw j).
    { unfold count_at, bucket_at. by rewrite Hb. }
    change (successes_in rw (j :: slots))
      with (success_at rw j + successes_in rw slots) in *.
    change (samples_in rw (j :: slots))
      with (count_at rw j + samples_in rw slots) in *.
    cbn [fold_left]. unfold visit at 2. cbn [fst snd]. rewrite Hb.
    unfold tally at 2 3. cbn [fst snd]. rewrite Hsj, Hcj.
    rewrite !add_small by int64_range.
    replace (wpoke j b (rw_win rw)) with (rw_win rw).
    2:{ unfold wpoke. unfold wbucket in Hb.
        destruct (slice_get (win_buckets (rw_win rw)) j) as [p|] eqn:Hg; [|done].
        subst p. rewrite slice_set_id by done. by destruct (rw_win rw). }
    rewrite IH by (done || lia). f_equal. f_equal; lia.
Qed.

Lemma history_sum {U} (b : googleBreaker) (u : U) w ns n :
  wf (gb_stat b) -> counts_within ns n (gb_stat b) -> n <= Int64.max_int ->
  let slots := reduce_slots (gb_stat b) (span_at (gb_stat b) (reading w 0)) in
  history (b, (u, w)) =
    (Ok (successes_in (gb_stat b) slots, samples_in (gb_stat b) slots),
     (b, (u, set_mono_reads (S (mono_reads w)) w))) /\
  0 <= successes_in (gb_stat b) slots <= samples_in (gb_stat b) slots /\
  successes_in (gb_stat b) slots <= ns /\ samples_in (gb_stat b) slots <= n.
Proof.
  intros Hwf (Hrw & Hsuc & Hsam) Hn slots.
  pose proof (wf_size _ Hwf) as [Hs1 Hs2].
  pose proof (span_at_range (gb_stat b) (reading w 0) ltac:(lia)) as Hsp.
  pose proof (reduce_slots_range (gb_stat b) (span_at (gb_stat b) (reading w 0)) Hs1)
    as Hin. fold slots in Hin.
  assert (Hsub : slots ⊆+ seqZ 0 (rw_size (gb_stat b))).
  { apply NoDup_submseteq; [by apply reduce_slots_NoDup|].
    intros j Hj. rewrite Forall_forall in Hin. apply elem_of_seqZ.
    specialize (Hin j Hj). cbn in Hin. lia. }
  pose proof (samples_in_nonneg n (gb_stat b) slots Hrw Hn) as Hnn.
  assert (Hle1 : samples_in (gb_stat b) slots <= samples (gb_stat b)).
  { apply sumZ_submseteq; [|done]. intros j.
    destruct (tallied_counts n (gb_stat b) j Hrw Hn) as [? _]. lia. }
  assert (Hle2 : successes_in (gb_stat b) slots <= successes (gb_stat b)).
  { apply sumZ_submseteq; [|done]. intros j.
    destruct (tallied_counts n (gb_stat b) j Hrw Hn) as [? _]. lia. }
  split; [|lia].
  rewrite history_run, (Reduce_any tally (0, 0) (gb_stat b) w Hwf). fold slots.
  rewrite (tally_fold_sum n) by (done || lia). reflexivity.
Qed.

(** *** What a sample adds *)

(** The slot under the cursor is in the view of [Reduce] until [size]
    intervals have elapsed, unless [ignoreCurrent] leaves it out. *)
Lemma cursor_in_view rw sp :
  1 <= rw_size rw -> 0 <= sp <= rw_size rw -> 0 <= rw_offset rw < rw_size rw ->
  In (rw_offset rw) (reduce_slots rw sp) <->
  sp < rw_size rw /\ ~ (sp = 0 /\ rw_ignoreCurrent rw = true).
Proof.
  intros Hs Hsp Ho.
  rewrite (reduce_slots_fresh rw sp (rw_offset rw) Hs Hsp Ho Ho).
  assert (Hstale : stale rw sp (rw_offset rw) <-> sp = rw_size rw).
  { unfold stale. split.
    - intros (i & Hi & Heq).
      destruct (Z.eq_dec i (rw_size rw - 1)) as [->|Hne]; [lia|].
      exfalso.
      apply (mod_apart (rw_offset rw) (rw_offset rw + i + 1) (rw_size rw)); [lia|].
      by rewrite Z.mod_small by lia.
    - intros Heq. exists (rw_size rw - 1). split; [lia|].
      replace (rw_offset rw + (rw_size rw - 1) + 1)
        with (rw_offset rw + 1 * rw_size rw) by lia.
      rewrite Z.mod_add by lia. by rewrite Z.mod_small. }
  rewrite Hstale. split.
  - intros [H1 H2]. split; [lia|]. intros (H3 & H4). apply H2. by repeat split.
  - intros [H1 H2]. split; [lia|]. intros (H3 & H4 & _). apply H2. by split.
Qed.

(** A sample written into the bucket of slot [o]: wherever that slot
    is among [slots], the samples go up by one and the successes by
    the value of the sample. *)
Lemma poke_sums n (v : Q) (d : Z) rw o cur slots :
  wf rw -> tallied n rw -> n < Int64.max_int ->
  (v = 0%Q /\ d = 0) \/ (v = 1%Q /\ d = 1) ->
  0 <= o < rw_size rw -> bucket_at rw o = Some cur ->
  NoDup slots -> Forall (fun j => 0 <= j) slots ->
  samples_in (poke o (Bucket_add v cur) rw) slots =
    samples_in rw slots + (if decide (o ∈ slots) then 1 else 0) /\
  successes_in (poke o (Bucket_add v cur) rw) slots =
    successes_in rw slots + (if decide (o ∈ slots) then d else 0).
Proof.
  intros Hwf Hrw Hn Hv Ho Hb Hnd Hpos.
  destruct (Hrw o cur Hb) as (s & Hs & Hr & Hc).
  assert (Hframe : forall j, j ∈ slots -> j <> o ->
            bucket_at (poke o (Bucket_add v cur) rw) j = bucket_at rw j).
  { intros j Hj Hne. rewrite Forall_forall in Hpos. specialize (Hpos j Hj).
    apply bucket_at_poke_ne; lia. }
  assert (Hcur : bucket_at (poke o (Bucket_add v cur) rw) o = Some (Bucket_add v cur))
    by (by apply bucket_at_poke_eq).
  split.
  - unfold samples_in.
    rewrite (sumZ_point (count_at rw) (count_at (poke o (Bucket_add v cur) rw)) o)
      by (done || (intros j Hj Hne; unfold count_at; by rewrite Hframe)).
    destruct (decide (o ∈ slots)); [|done].
    unfold count_at. rewrite Hcur, Hb. cbn [Count Bucket_add].
    rewrite add_small by int64_range. lia.
  - unfold successes_in.
    rewrite (sumZ_point (success_at rw) (success_at (poke o (Bucket_add v cur) rw)) o)
      by (done || (intros j Hj Hne; unfold success_at; by rewrite Hframe)).
    destruct (decide (o ∈ slots)); [|done].
    unfold success_at. rewrite Hcur, Hb. cbn [Sum Bucket_add].
    rewrite (int64_of_float_count (Sum cur) s Hs) by int64_range.
    destruct Hv as [[-> ->]|[-> ->]].
    + rewrite (int64_of_float_count _ s) by
        (int64_range || (transitivity (Sum cur); [apply Qplus_0_r|exact Hs])).
      lia.
    + rewrite (int64_of_float_count _ (s + 1)) by
        (int64_range ||
         (rewrite inject_Z_plus; apply Qplus_comp; [exact Hs|reflexivity])).
      lia.
Qed.

(** [Add]: the window [updateOffset] leaves, and the bucket written. *)
Lemma Add_shape rw w v :
  wf rw -> timely rw w ->
  exists rw1 cur k,
    updateOffset (rw, w) = (Ok tt, (rw1, set_mono_reads (mono_reads w + S k) w)) /\
    Add v (rw, w) =
      (Ok tt, (poke (rw_offset rw1) (Bucket_add v cur) rw1,
               set_mono_reads (mono_reads w + S k) w)) /\
    wf rw1 /\ rw_size rw1 = rw_size rw /\
    bucket_at rw1 (rw_offset rw1) = Some cur /\
    (forall j b, bucket_at rw1 j = Some b ->
       b = zeroBucket \/ bucket_at rw j = Some b).
Proof.
  intros Hwf Ht.
  destruct (Z.le_gt_cases
              (Z.min ((reading w 0 - rw_lastTime rw) / rw_interval rw) (rw_size rw)) 0)
    as [Hsp|Hsp].
  - pose proof (updateOffset_idle rw w Hwf Ht Hsp) as Hupd.
    destruct (Add_after rw w v _ _ Hupd Hwf) as (b & Hb & Hadd).
    exists rw, b, 0%nat.
    replace (mono_reads w + 1)%nat with (S (mono_reads w)) by lia.
    split; [exact Hupd|]. split; [exact Hadd|].
    split; [done|]. split; [done|]. split; [done|]. intros; by right.
  - destruct (updateOffset_run rw w Hwf Ht ltac:(lia))
      as (rw1 & Hupd & Hwf1 & Hsz & _ & _ & _ & _ & _ & _ & He).
    destruct (Add_after rw w v _ _ Hupd Hwf1) as (b & Hb & Hadd).
    exists rw1, b, 1%nat.
    replace (mono_reads w + 2)%nat with (S (S (mono_reads w))) by lia.
    split; [exact Hupd|]. split; [exact Hadd|].
    split; [done|]. split; [done|]. split; [done|exact He].
Qed.

(** Resetting buckets takes samples away, never adds any. *)
Lemma reset_counts ns n rw rw1 :
  counts_within ns n rw -> 0 <= n <= Int64.max_int -> rw_size rw1 = rw_size rw ->
  (forall j b, bucket_at rw1 j = Some b ->
     b = zeroBucket \/ bucket_at rw j = Some b) ->
  counts_within ns n rw1.
Proof.
  intros (Hrw & Hsuc & Hsam) Hn Hsz He.
  assert (Hle : forall j, success_at rw1 j <= success_at rw j /\
                          count_at rw1 j <= count_at rw j).
  { intros j. pose proof (tallied_counts n rw j Hrw ltac:(lia)) as [Hc _].
    unfold success_at, count_at in *.
    destruct (bucket_at rw1 j) as [b1|] eqn:Hb1; [|lia].
    destruct (He j b1 Hb1) as [->|Hold]; [|rewrite Hold; lia].
    replace (int64_of_float (Sum zeroBucket)) with 0 by reflexivity.
    cbn [Count zeroBucket]. lia. }
  split; [|split].
  - intros j b1 Hb1. destruct (He j b1 Hb1) as [->|Hold].
    + apply (tallied_bucket_weaken 0); [lia|apply tallied_bucket_zero].
    + by apply (Hrw j).
  - transitivity (successes rw); [|done].
    unfold successes, successes_in. rewrite Hsz. apply sumZ_le, Forall_forall.
    intros j _. apply Hle.
  - transitivity (samples rw); [|done].
    unfold samples, samples_in. rewrite Hsz. apply sumZ_le, Forall_forall.
    intros j _. apply Hle.
Qed.

(** A sample more: the counts of the window, one higher at most. *)
Lemma Add_counts ns n (v : Q) (d : Z) rw w rw' w' :
  wf rw -> timely rw w -> counts_within ns n rw -> 0 <= n < Int64.max_int ->
  (v = 0%Q /\ d = 0) \/ (v = 1%Q /\ d = 1) ->
  Add v (rw, w) = (Ok tt, (rw', w')) ->
  counts_within (ns + d) (n + 1) rw'.
Proof.
  intros Hwf Ht Hcw Hn Hv Hadd.
  assert (Hv' : v = 0%Q \/ v = 1%Q) by (destruct Hv as [[? _]|[? _]]; eauto).
  split; [destruct Hcw as [Hrw _]; by apply (Add_tallied n v rw w rw' w')|].
  destruct (Add_shape rw w v Hwf Ht)
    as (rw1 & cur & k & _ & Hrun & Hwf1 & Hsz & Hb & He).
  rewrite Hrun in Hadd. injection Hadd as <- _.
  destruct (reset_counts ns n rw rw1 Hcw ltac:(lia) Hsz He) as (Hrw1 & Hsuc1 & Hsam1).
  pose proof (wf_offset _ Hwf1) as Ho1. pose proof (wf_size _ Hwf1) as [Hs1 _].
  destruct (poke_sums n v d rw1 (rw_offset rw1) cur (seqZ 0 (rw_size rw1))
              Hwf1 Hrw1 ltac:(lia) Hv Ho1 Hb (NoDup_seqZ _ _)) as [Hsam Hsuc].
  { apply Forall_forall. intros j Hj%elem_of_seqZ. lia. }
  rewrite decide_True in Hsam, Hsuc by (apply elem_of_seqZ; lia).
  unfold samples, successes in *. cbn [rw_size poke set_rw_win].
  rewrite Hsam, Hsuc. lia.
Qed.

(** The sample in the history: read while the bucket under the cursor
    is in view, the history of the window with the sample counts one
    sample more than that of the window without it, and one success
    more when the sample is a success. *)
Lemma sample_in_history {U} (kk : Q) (success : bool) ns n rw cur (u : U) w :
  wf rw -> counts_within ns n rw -> 0 <= n < Int64.max_int ->
  bucket_at rw (rw_offset rw) = Some cur ->
  let v := if success then 1%Q else 0%Q in
  let d := if success then 1 else 0 in
  let rw' := poke (rw_offset rw) (Bucket_add v cur) rw in
  let sp := span_at rw (reading w 0) in
  let w1 := set_mono_reads (S (mono_reads w)) w in
  exists accepts total,
    0 <= accepts <= total /\ total <= n /\
    history (mkGoogleBreaker kk rw, (u, w)) =
      (Ok (accepts, total), (mkGoogleBreaker kk rw, (u, w1))) /\
    (sp < rw_size rw -> ~ (sp = 0 /\ rw_ignoreCurrent rw = true) ->
     history (mkGoogleBreaker kk rw', (u, w)) =
       (Ok (accepts + d, total + 1), (mkGoogleBreaker kk rw', (u, w1)))) /\
    (sp = rw_size rw \/ (sp = 0 /\ rw_ignoreCurrent rw = true) ->
     history (mkGoogleBreaker kk rw', (u, w)) =
       (Ok (accepts, total), (mkGoogleBreaker kk rw', (u, w1)))).
Proof.
  intros Hwf Hcw Hn Hb v d rw' sp w1.
  pose proof (wf_offset _ Hwf) as Ho. pose proof (wf_size _ Hwf) as [Hs1 Hs2].
  pose proof (span_at_range rw (reading w 0) ltac:(lia)) as Hsp. fold sp in Hsp.
  assert (Hv : (v = 0%Q /\ d = 0) \/ (v = 1%Q /\ d = 1)).
  { subst v d. destruct success; [by right|by left]. }
  assert (Hwf' : wf rw') by (by apply poke_wf).
  assert (Hcw' : counts_within (ns + d) (n + 1) rw').
  { destruct Hcw as (Hrw & Hsuc & Hsam). split; [|split].
    - intros j b' Hb'. apply bucket_at_poke_inv in Hb' as [[_ ->]|Hold]; [| |lia].
      + apply tallied_bucket_add; [destruct Hv as [[? _]|[? _]]; eauto|lia|].
        by apply (Hrw (rw_offset rw)).
      + apply (tallied_bucket_weaken n); [lia|]. by apply (Hrw j).
    - destruct (poke_sums n v d rw (rw_offset rw) cur (seqZ 0 (rw_size rw))
                  Hwf Hrw ltac:(lia) Hv Ho Hb (NoDup_seqZ _ _)) as [_ Hsuc'].
      { apply Forall_forall. intros j Hj%elem_of_seqZ. lia. }
      rewrite decide_True in Hsuc' by (apply elem_of_seqZ; lia).
      unfold successes in *. change (rw_size rw') with (rw_size rw).
      fold rw' in Hsuc'. lia.
    - destruct (poke_sums n v d rw (rw_offset rw) cur (seqZ 0 (rw_size rw))
                  Hwf Hrw ltac:(lia) Hv Ho Hb (NoDup_seqZ _ _)) as [Hsam' _].
      { apply Forall_forall. intros j Hj%elem_of_seqZ. lia. }
      rewrite decide_True in Hsam' by (apply elem_of_seqZ; lia).
      unfold samples in *. change (rw_size rw') with (rw_size rw).
      fold rw' in Hsam'. lia. }
  destruct (history_sum (mkGoogleBreaker kk rw) u w ns n Hwf Hcw ltac:(lia))
    as (Hrun & Hb1 & Hb2 & Hb3).
  destruct (history_sum (mkGoogleBreaker kk rw') u w (ns + d) (n + 1) Hwf' Hcw'
              ltac:(lia)) as (Hrun' & _).
  cbn [gb_stat] in *.
  change (span_at rw' (reading w 0)) with sp in Hrun'.
  change (reduce_slots rw' sp) with (reduce_slots rw sp) in Hrun'.
  fold sp in Hrun, Hb1, Hb2, Hb3.
  destruct Hcw as (Hrw & _ & _).
  destruct (poke_sums n v d rw (rw_offset rw) cur (reduce_slots rw sp)
              Hwf Hrw ltac:(lia) Hv Ho Hb) as [Hsam Hsuc].
  { by apply reduce_slots_NoDup. }
  { eapply Forall_impl; [by apply reduce_slots_range|]. intros j Hj. cbn in Hj. lia. }
  fold rw' in Hsam, Hsuc.
  pose proof (cursor_in_view rw sp Hs1 Hsp Ho) as Hview.
  rewrite <- list_elem_of_In in Hview.
  eexists _, _. split; [exact Hb1|]. split; [exact Hb3|]. split; [exact Hrun|].
  split.
  - intros H1 H2. rewrite decide_True in Hsam, Hsuc by (apply Hview; by split).
    rewrite Hrun', Hsam, Hsuc. reflexivity.
  - intros Hout.
    rewrite decide_False in Hsam, Hsuc by (rewrite Hview; intros [H1 H2]; destruct Hout; [lia|done]).
    rewrite Hrun', Hsam, Hsuc, !Z.add_0_r. reflexivity.
Qed.

(** X7. The history of a breaker counts recorded samples and nothing
    else. The invariant [counts_within ns n]: every bucket holds a
    number of successes among a number of samples, the samples of the
    window are [n] at most and its successes [ns] at most. A new
    breaker satisfies [counts_within 0 0]; [markSuccess] and
    [markFailure] keep it with one sample more, [markSuccess] with one
    success more; and under it [history] returns
    [0 <= accepts <= total] with [total <= n] and [accepts <= ns]. *)
Theorem history_counts_recorded_samples {U} (b : googleBreaker) (u : U) (w : World)
        (ns n : Z) :
  wf (gb_stat b) -> timely (gb_stat b) w -> counts_within ns n (gb_stat b) ->
  0 <= n < Int64.max_int ->
  (exists accepts total,
     history (b, (u, w)) =
       (Ok (accepts, total), (b, (u, set_mono_reads (S (mono_reads w)) w))) /\
     0 <= accepts <= total /\ accepts <= ns /\ total <= n) /\
  (exists b' w',
     markSuccess (b, (u, w)) = (Ok tt, (b', (u, w'))) /\
     wf (gb_stat b') /\ timely (gb_stat b') w' /\ gb_k b' = gb_k b /\
     counts_within (ns + 1) (n + 1) (gb_stat b')) /\
  (exists b' w',
     markFailure (b, (u, w)) = (Ok tt, (b', (u, w'))) /\
     wf (gb_stat b') /\ timely (gb_stat b') w' /\ gb_k b' = gb_k b /\
     counts_within ns (n + 1) (gb_stat b')) /\
  (forall w0, timex.monotonic w0 ->
     exists b0 w0',
       newGoogleBreaker w0 = (Ok b0, w0') /\
       wf (gb_stat b0) /\ timely (gb_stat b0) w0' /\ counts_within 0 0 (gb_stat b0)).
Proof.
  intros Hwf Ht Hrec Hn.
  assert (Hmark : forall (v : Q) (d : Z),
    (v = 0%Q /\ d = 0) \/ (v = 1%Q /\ d = 1) ->
    exists b' w',
      on_stat (Add v) (b, (u, w)) = (Ok tt, (b', (u, w'))) /\
      wf (gb_stat b') /\ timely (gb_stat b') w' /\ gb_k b' = gb_k b /\
      counts_within (ns + d) (n + 1) (gb_stat b')).
  { intros v d Hv.
    destruct (Add_keeps (gb_stat b) w v Hwf Ht) as (rw' & k & Hadd & Hwf' & Ht' & _).
    eexists (set_gb_stat rw' b), _. split.
    { rewrite on_stat_run, Hadd. reflexivity. }
    split; [exact Hwf'|]. split; [exact Ht'|]. split; [done|].
    exact (Add_counts ns n v d (gb_stat b) w rw' _ Hwf Ht Hrec Hn Hv Hadd). }
  split; [|split; [|split]].
  - destruct (history_sum b u w ns n Hwf Hrec ltac:(lia)) as (Hrun & Hb1 & Hb2 & Hb3).
    eexists _, _. split; [exact Hrun|]. done.
  - apply (Hmark 1%Q 1). by right.
  - destruct (Hmark 0%Q 0 ltac:(by left)) as (b' & w' & Hrun & H1 & H2 & H3 & H4).
    rewrite Z.add_0_r in H4. by exists b', w'.
  - intros w0 Hm. destruct (newGoogleBreaker_run w0 Hm)
      as (rw0 & Hnew & Hsz & _ & _ & _ & Hwf0 & Ht0 & Hrw0).
    cbv zeta in Hnew. eexists _, _. split; [exact Hnew|].
    cbn [gb_stat]. split; [exact Hwf0|]. split; [exact Ht0|].
    split; [exact Hrw0|].
    assert (Hzero : forall j, success_at rw0 j = 0 /\ count_at rw0 j = 0).
    { intros j. pose proof (tallied_counts 0 rw0 j Hrw0 ltac:(unfold Int64.max_int; lia)).
      lia. }
    split.
    + unfold successes, successes_in.
      transitivity (sumZ (map (fun _ : Z => 0) (seqZ 0 (rw_size rw0)))).
      * apply sumZ_le, Forall_forall. intros j _. destruct (Hzero j). lia.
      * unfold sumZ. generalize (seqZ 0 (rw_size rw0)). intros l.
        induction l; cbn; lia.
    + unfold samples, samples_in.
      transitivity (sumZ (map (fun _ : Z => 0) (seqZ 0 (rw_size rw0)))).
      * apply sumZ_le, Forall_forall. intros j _. destruct (Hzero j). lia.
      * unfold sumZ. generalize (seqZ 0 (rw_size rw0)). intros l.
        induction l; cbn; lia.
Qed.

End SampleFacts.

(** ** The error window *)

Module ErrorWindowFacts.

Import breaker Int64Facts CollectionFacts.

Lemma new_holds : ew_holds new_errorWindow [].
Proof. split; try done. cbn. intros i Hi. lia. Qed.

Lemma add_holds ew es reason w :
  ew_holds ew es ->
  errorWindow_add reason (ew, w) =
    (Ok tt,
     (mkErrorWindow
        (slice_set (ew_reasons ew) (ew_index ew)
                   (wall w (wall_reads w) ++ " " ++ reason)%string)
        ((Z.of_nat (length es) + 1) mod numHistoryReasons)
        (Z.min (Z.of_nat (length es) + 1) numHistoryReasons),
      set_wall_reads (S (wall_reads w)) w)) /\
  ew_holds
    (mkErrorWindow
       (slice_set (ew_reasons ew) (ew_index ew)
                  (wall w (wall_reads w) ++ " " ++ reason)%string)
       ((Z.of_nat (length es) + 1) mod numHistoryReasons)
       (Z.min (Z.of_nat (length es) + 1) numHistoryReasons))
    (es ++ [(wall w (wall_reads w) ++ " " ++ reason)%string]).
Proof.
  intros [Hi Hc Hl Hs]. unfold numHistoryReasons in *.
  set (n := Z.of_nat (length es)) in *.
  assert (Hn : 0 <= n) by lia.
  assert (Hidx : 0 <= ew_index ew < 5) by (rewrite Hi; apply Z.mod_pos_bound; lia).
  split.
  - unfold errorWindow_add, now_formatted, assign, go_rem, mathx.MinInt,
      numHistoryReasons.
    cbv beta iota delta [bind ret gets get put modify on_world on_obj zoom fst snd].
    cbn [ew_reasons ew_index ew_count].
    destruct (slice_get (ew_reasons ew) (ew_index ew)) eqn:Hg.
    + cbn [ew_reasons ew_index ew_count Z.eqb].
      rewrite !add_small by int64_range.
      rewrite Z.rem_mod_nonneg by lia.
      rewrite Hi, Zplus_mod_idemp_l, Hc.
      replace (Z.min (Z.min n 5 + 1) 5) with (Z.min (n + 1) 5) by lia.
      reflexivity.
    + unfold slice_get in Hg. destruct (Z.ltb_spec (ew_index ew) 0); [lia|].
      apply lookup_ge_None in Hg. lia.
  - split; unfold numHistoryReasons;
      cbn [ew_index ew_count ew_reasons]; rewrite ?length_app; cbn [length].
    + f_equal. lia.
    + f_equal. lia.
    + unfold slice_set. by rewrite length_insert.
    + intros i Hi'. rewrite rev_unit.
      replace (Z.of_nat (length es + 1)) with (n + 1) in * by lia.
      destruct (Z.eq_dec i 0) as [->|Hne].
      * replace (n + 1 - 1 - 0) with n by lia. rewrite <- Hi.
        rewrite slice_get_set_eq by lia. done.
      * replace (Z.to_nat i) with (S (Z.to_nat (i - 1))) by lia.
        change ((?x :: rev es) !! S (Z.to_nat (i - 1))) with (rev es !! Z.to_nat (i - 1)).
        rewrite <- (Hs (i - 1)) by lia.
        replace (n + 1 - 1 - i) with (n - 1 - (i - 1)) by lia.
        apply slice_get_set_ne; [lia|apply Z.mod_pos_bound; lia|].
        rewrite Hi. apply not_eq_sym, mod_apart. lia.
Qed.

Lemma add_all_holds reasons : forall ew es w,
  ew_holds ew es ->
  exists ew',
    errorWindow_add_all reasons (ew, w) =
      (Ok tt, (ew', set_wall_reads (wall_reads w + length reasons) w)) /\
    ew_holds ew' (es ++ entries w reasons).
Proof.
  induction reasons as [|r rest IH]; intros ew es w Hh.
  - exists ew. cbn. rewrite Nat.add_0_r, app_nil_r. split; [by destruct w|done].
  - destruct (add_holds ew es r w Hh) as [Hadd Hh1].
    destruct (IH _ _ (set_wall_reads (S (wall_reads w)) w) Hh1) as (ew' & Hrun & Hh').
    exists ew'. cbn [errorWindow_add_all]. unfold bind. rewrite Hadd, Hrun.
    split.
    + unfold set_wall_reads. cbn.
      by replace (S (wall_reads w + length rest))
           with (wall_reads w + S (length rest))%nat by lia.
    + unfold entries in *. cbn [imap]. rewrite Nat.add_0_r.
      rewrite <- app_assoc in Hh'. cbn [app] in Hh'.
      replace (imap (_ ∘ S) rest)
        with (imap (fun i r0 =>
                (wall (set_wall_reads (S (wall_reads w)) w)
                      (wall_reads (set_wall_reads (S (wall_reads w)) w) + i)
                 ++ " " ++ r0)%string) rest); [exact Hh'|].
      apply imap_ext. intros i x _. cbn. do 2 f_equal. lia.
Qed.

(** The loop of [String], from the [t]-th newest entry on. *)
Lemma reasons_loop ew es k : forall t acc,
  ew_holds ew es ->
  0 <= t -> t + Z.of_nat k <= Z.min (Z.of_nat (length es)) numHistoryReasons ->
  for_loop_down k (ew_index ew - 1 - t) (reasons_body ew) acc =
  (Ok tt, acc ++ take k (drop (Z.to_nat t) (rev es))).
Proof.
  induction k as [|k IH]; intros t acc Hh Ht Hk.
  - cbn. by rewrite app_nil_r.
  - pose proof (ewh_index _ _ Hh) as Hi. pose proof (ewh_slots _ _ Hh t) as Hs.
    unfold numHistoryReasons in *.
    set (n := Z.of_nat (length es)) in *.
    assert (Hidx : 0 <= ew_index ew < 5) by (rewrite Hi; apply Z.mod_pos_bound; lia).
    destruct (rev es !! Z.to_nat t) as [e|] eqn:He.
    2:{ apply lookup_ge_None in He. rewrite length_rev in He. lia. }
    cbn [for_loop_down]. unfold bind at 1. unfold reasons_body at 1.
    unfold go_rem, bind at 1. unfold numHistoryReasons.
    cbn [Z.eqb]. unfold ret at 1.
    rewrite add_small by int64_range. rewrite Z.rem_mod_nonneg by lia.
    replace ((ew_index ew - 1 - t + 5) mod 5) with ((n - 1 - t) mod 5).
    2:{ rewrite Hi. replace (n mod 5 - 1 - t + 5) with (n mod 5 + (4 - t)) by lia.
        rewrite Zplus_mod_idemp_l.
        replace (n + (4 - t)) with (n - 1 - t + 1 * 5) by lia.
        by rewrite Z_mod_plus_full. }
    unfold bind, index, modify. rewrite Hs by lia. unfold ret.
    replace (ew_index ew - 1 - t - 1) with (ew_index ew - 1 - (t + 1)) by lia.
    rewrite IH by (done || lia).
    rewrite <- app_assoc. cbn [app].
    rewrite (drop_S _ _ _ He). cbn [take].
    by replace (Z.to_nat (t + 1)) with (S (Z.to_nat t)) by lia.
Qed.

Lemma String_holds ew es :
  ew_holds ew es ->
  errorWindow_String ew =
    Ok (String.concat newline (take (Z.to_nat numHistoryReasons) (rev es))).
Proof.
  intros Hh. pose proof (ewh_index _ _ Hh) as Hi. pose proof (ewh_count _ _ Hh) as Hc.
  unfold errorWindow_String, errorWindow_reasons.
  unfold numHistoryReasons in Hi, Hc.
  assert (Hidx : 0 <= ew_index ew < 5) by (rewrite Hi; apply Z.mod_pos_bound; lia).
  rewrite !sub_small by int64_range.
  replace (ew_index ew - 1 - (ew_index ew - ew_count ew) + 1) with (ew_count ew) by lia.
  pose proof (reasons_loop ew es (Z.to_nat (ew_count ew)) 0 [] Hh) as Hl.
  rewrite Z.sub_0_r in Hl. rewrite Hl by (unfold numHistoryReasons; lia).
  change (drop (Z.to_nat 0) (rev es)) with (rev es).
  cbn [app]. f_equal. f_equal. rewrite Hc.
  unfold numHistoryReasons.
  destruct (Z.le_gt_cases (Z.of_nat (length es)) 5).
  - rewrite Z.min_l by lia.
    rewrite (take_ge (rev es) (Z.to_nat 5)) by (rewrite length_rev; lia).
    by rewrite take_ge by (rewrite length_rev; lia).
  - by rewrite Z.min_r by lia.
Qed.

(** C10. After any sequence of [add] calls on a new error window:
    [count] is the number of calls capped at 5, so [count <= 5];
    [index], the slot the next call writes, is the number of calls
    modulo 5, and from the fifth call on it is the slot of the oldest
    stored reason; the [i]-th newest reason is in slot
    [(calls - 1 - i) mod 5]; and [String] lists the stored reasons, the
    last [count] of them, newest first, one per line. *)
Theorem errorWindow_keeps_last_five (reasons : list string) (w : World) :
  let n := Z.of_nat (length reasons) in
  let stored := take 5 (rev (entries w reasons)) in
  exists ew,
    errorWindow_add_all reasons (new_errorWindow, w) =
      (Ok tt, (ew, set_wall_reads (wall_reads w + length reasons) w)) /\
    ew_count ew = Z.min n 5 /\ ew_count ew <= 5 /\
    ew_index ew = n mod 5 /\ 0 <= ew_index ew < 5 /\
    length (ew_reasons ew) = 5%nat /\
    (forall i, 0 <= i < ew_count ew ->
       slice_get (ew_reasons ew) ((n - 1 - i) mod 5) = rev (entries w reasons) !! Z.to_nat i) /\
    (5 <= n -> slice_get (ew_reasons ew) (ew_index ew) = rev (entries w reasons) !! 4%nat) /\
    errorWindow_String ew = Ok (String.concat newline stored) /\
    Z.of_nat (length stored) = ew_count ew.
Proof.
  intros n stored.
  destruct (add_all_holds reasons new_errorWindow [] w new_holds) as (ew & Hrun & Hh).
  cbn [app] in Hh. exists ew.
  pose proof (ewh_index _ _ Hh) as Hi. pose proof (ewh_count _ _ Hh) as Hc.
  pose proof (ewh_slots _ _ Hh) as Hs. pose proof (ewh_length _ _ Hh) as Hl.
  assert (Hlen : length (entries w reasons) = length reasons)
    by (unfold entries; apply length_imap).
  rewrite Hlen in Hi, Hc, Hs. unfold numHistoryReasons in *. fold n in Hi, Hc, Hs.
  split; [exact Hrun|]. split; [exact Hc|]. split; [lia|]. split; [exact Hi|].
  split; [rewrite Hi; apply Z.mod_pos_bound; lia|]. split; [exact Hl|].
  split; [intros i Hi'; apply Hs; lia|]. split.
  - intros Hn. change 4%nat with (Z.to_nat 4). rewrite <- (Hs 4) by lia.
    f_equal. rewrite Hi.
    replace (n - 1 - 4) with (n + (-1) * 5) by lia. by rewrite Z_mod_plus_full.
  - split; [by apply String_holds|].
    subst stored. rewrite length_take, length_rev, Hlen, Hc. lia.
Qed.

End ErrorWindowFacts.

(** ** Guarded requests *)

Module RequestFacts.

Import collection breaker Int64Facts CollectionFacts ReduceFacts RobustFacts
       BreakerFacts SampleFacts ErrorWindowFacts.

Section Caller.

Context {U : Type}.
Implicit Types (b : googleBreaker) (u : U) (w : World) (s : U * World).

(** Recording a sample is one [Add] on the window of the breaker. *)
Lemma mark_run (v : Q) b s :
  wf (gb_stat b) -> timely (gb_stat b) (snd s) ->
  exists rw' n,
    Add v (gb_stat b, snd s) =
      (Ok tt, (rw', set_mono_reads (mono_reads (snd s) + S n) (snd s))) /\
    on_stat (Add v) (b, s) =
      (Ok tt, (set_gb_stat rw' b,
               (fst s, set_mono_reads (mono_reads (snd s) + S n) (snd s)))) /\
    wf rw'.
Proof.
  intros Hwf Ht. destruct s as [u w]. cbn [fst snd] in *.
  destruct (Add_keeps (gb_stat b) w v Hwf Ht) as (rw' & n & Hadd & Hwf' & _).
  exists rw', n. split; [exact Hadd|]. split; [|exact Hwf'].
  rewrite on_stat_run, Hadd. reflexivity.
Qed.

(** What the window holds once a sample is recorded. [rw1] is the
    window when [Add] has moved its cursor and [cur] the bucket then
    under the cursor: the window is left as [rw1] with that bucket one
    higher in count and higher in sum by the value of the sample; a
    history read while that bucket is in view counts one sample more,
    and one success more for a success. *)
Lemma mark_records (success : bool) b s :
  wf (gb_stat b) -> timely (gb_stat b) (snd s) ->
  let v := if success then 1%Q else 0%Q in
  exists rw1 cur rw' w',
    Add v (gb_stat b, snd s) = (Ok tt, (rw', w')) /\
    on_stat (Add v) (b, s) = (Ok tt, (set_gb_stat rw' b, (fst s, w'))) /\
    w' = set_mono_reads (mono_reads w') (snd s) /\
    updateOffset (gb_stat b, snd s) = (Ok tt, (rw1, w')) /\
    bucket_at rw1 (rw_offset rw1) = Some cur /\
    same_frame rw1 rw' /\
    bucket_at rw' (rw_offset rw1) =
      Some (mkBucket (Sum cur + v) (Int64.wrap64 (Count cur + 1))) /\
    (forall j, 0 <= j < rw_size rw1 -> j <> rw_offset rw1 ->
       bucket_at rw' j = bucket_at rw1 j) /\
    (forall ns n (u2 : U) w2,
       counts_within ns n (gb_stat b) -> 0 <= n < Int64.max_int ->
       span_at rw' (reading w2 0) < rw_size rw' ->
       ~ (span_at rw' (reading w2 0) = 0 /\ rw_ignoreCurrent rw' = true) ->
       exists accepts total,
         history (set_gb_stat rw1 b, (u2, w2)) =
           (Ok (accepts, total),
            (set_gb_stat rw1 b, (u2, set_mono_reads (S (mono_reads w2)) w2))) /\
         history (set_gb_stat rw' b, (u2, w2)) =
           (Ok (accepts + (if success then 1 else 0), total + 1),
            (set_gb_stat rw' b, (u2, set_mono_reads (S (mono_reads w2)) w2)))).
Proof.
  intros Hwf Ht v. destruct s as [u w]. cbn [fst snd] in *.
  destruct (Add_shape (gb_stat b) w v Hwf Ht)
    as (rw1 & cur & k & Hupd & Hadd & Hwf1 & Hsz & Hb & He).
  pose proof (wf_offset _ Hwf1) as Ho1.
  eexists rw1, cur, _, _. split; [exact Hadd|].
  split; [rewrite on_stat_run, Hadd; reflexivity|].
  split; [reflexivity|].
  split; [exact Hupd|]. split; [exact Hb|].
  split; [apply poke_frame|].
  split; [by apply bucket_at_poke_eq|].
  split; [intros j Hj Hne; apply bucket_at_poke_ne; lia|].
  intros ns n u2 w2 Hcw Hn Hsp Hig.
  pose proof (reset_counts ns n (gb_stat b) rw1 Hcw ltac:(lia) Hsz He) as Hcw1.
  destruct (sample_in_history (gb_k b) success ns n rw1 cur u2 w2 Hwf1 Hcw1 Hn Hb)
    as (accepts & total & _ & _ & Hh1 & Hh' & _).
  exists accepts, total. split; [exact Hh1|]. by apply Hh'.
Qed.

Lemma doReq_unfold_admitted req (fallback : Fallback U) (acceptable : Acceptable U)
      b u w b1 s1 :
  accept (b, (u, w)) = (Ok None, (b1, s1)) ->
  doReq req fallback acceptable (b, (u, w)) =
    match req s1 with
    | (Ok err, s2) =>
        match acceptable err s2 with
        | (Ok ok, s3) =>
            let m := if ok then markSuccess (b1, s3) else markFailure (b1, s3) in
            (match fst m with Ok _ => Ok err | Panic p => Panic p end, snd m)
        | (Panic p, s3) =>
            let m := markFailure (b1, s3) in
            (match fst m with Ok _ => Panic p | Panic p' => Panic p' end, snd m)
        end
    | (Panic p, s2) =>
        let m := markFailure (b1, s2) in
        (match fst m with Ok _ => Panic p | Panic p' => Panic p' end, snd m)
    end.
Proof.
  intros Hacc. unfold doReq. unfold bind at 1. rewrite Hacc.
  cbv beta iota delta [local defer outer callback zoom bind put ret gets fst snd].
  destruct (req s1) as [[err|p] s2].
  - destruct (acceptable err s2) as [[[|]|p] s3].
    + by destruct (markSuccess (b1, s3)) as [[[]|p] t].
    + by destruct (markFailure (b1, s3)) as [[[]|p] t].
    + by destruct (markFailure (b1, s3)) as [[[]|p'] t].
  - by destruct (markFailure (b1, s2)) as [[[]|p'] t].
Qed.

(** [accept] changes neither the breaker nor the caller's variables. *)
Lemma accept_state b u w r b1 s1 :
  accept (b, (u, w)) = (r, (b1, s1)) -> b1 = b /\ fst s1 = u.
Proof.
  rewrite accept_unfold. cbv zeta.
  destruct (fst (history _)) as [h|p]; [|by intros [= <- <- <-]].
  destruct (Qle_bool _ _); by intros [= <- <- <-].
Qed.

(** C5. An admitted [doReq]: the fallback plays no part; when [req]
    returns [err], [doReq] returns [err] whatever [acceptable] says
    of it, and exactly one sample is recorded, a success (an [Add] of
    1) when [acceptable(err)] holds and a failure (an [Add] of 0) when
    it does not; when [req] or [acceptable] panics, the panic goes on
    after one failure is recorded. The sample recorded: with [rw1]
    the window as [Add] leaves it when it has moved the cursor and
    [cur] the bucket then under the cursor, the call leaves the window
    [rw1] with that one bucket changed, its count one higher and its
    sum higher by 1 for a success and by 0 for a failure; and a
    history read while that bucket is in view counts one sample more
    than without the call, and one accept more for a success. *)
Theorem doReq_admitted_returns_req_error
        (req : M (U * World) error) (fallback : Fallback U)
        (acceptable : Acceptable U) b u w b1 s1 :
  wf (gb_stat b) ->
  accept (b, (u, w)) = (Ok None, (b1, s1)) ->
  let recorded (success : bool) (outcome : Result error) (s : U * World) :=
    let v := if success then 1%Q else 0%Q in
    exists rw1 cur rw' w',
      (* the call ends with [outcome], after one [Add] of [v] *)
      Add v (gb_stat b, snd s) = (Ok tt, (rw', w')) /\
      doReq req fallback acceptable (b, (u, w)) =
        (outcome, (set_gb_stat rw' b, (fst s, w'))) /\
      w' = set_mono_reads (mono_reads w') (snd s) /\
      (* the window when [Add] has moved the cursor, and the bucket
         then under the cursor *)
      updateOffset (gb_stat b, snd s) = (Ok tt, (rw1, w')) /\
      bucket_at rw1 (rw_offset rw1) = Some cur /\
      (* the sample: that bucket and no other *)
      same_frame rw1 rw' /\
      bucket_at rw' (rw_offset rw1) =
        Some (mkBucket (Sum cur + v) (Int64.wrap64 (Count cur + 1))) /\
      (forall j, 0 <= j < rw_size rw1 -> j <> rw_offset rw1 ->
         bucket_at rw' j = bucket_at rw1 j) /\
      (* the sample in a history read while its bucket is in view *)
      (forall ns n (u2 : U) w2,
         counts_within ns n (gb_stat b) -> 0 <= n < Int64.max_int ->
         span_at rw' (reading w2 0) < rw_size rw' ->
         ~ (span_at rw' (reading w2 0) = 0 /\ rw_ignoreCurrent rw' = true) ->
         exists accepts total,
           history (set_gb_stat rw1 b, (u2, w2)) =
             (Ok (accepts, total),
              (set_gb_stat rw1 b, (u2, set_mono_reads (S (mono_reads w2)) w2))) /\
           history (set_gb_stat rw' b, (u2, w2)) =
             (Ok (accepts + (if success then 1 else 0), total + 1),
              (set_gb_stat rw' b, (u2, set_mono_reads (S (mono_reads w2)) w2)))) in
  doReq req fallback acceptable (b, (u, w)) = doReq req None acceptable (b, (u, w)) /\
  (forall err s2, req s1 = (Ok err, s2) ->
     (forall s3, acceptable err s2 = (Ok true, s3) ->
        timely (gb_stat b) (snd s3) -> recorded true (Ok err) s3) /\
     (forall s3, acceptable err s2 = (Ok false, s3) ->
        timely (gb_stat b) (snd s3) -> recorded false (Ok err) s3) /\
     (forall p s3, acceptable err s2 = (Panic p, s3) ->
        timely (gb_stat b) (snd s3) -> recorded false (Panic p) s3)) /\
  (forall p s2, req s1 = (Panic p, s2) ->
     timely (gb_stat b) (snd s2) -> recorded false (Panic p) s2).
Proof.
  intros Hwf Hacc recorded.
  destruct (accept_state _ _ _ _ _ _ Hacc) as [-> _].
  pose proof (doReq_unfold_admitted req fallback acceptable _ _ _ _ _ Hacc) as Hrun.
  split.
  { rewrite Hrun. symmetry. by apply doReq_unfold_admitted. }
  assert (Hrec : forall (success : bool) outcome s,
            timely (gb_stat b) (snd s) ->
            doReq req fallback acceptable (b, (u, w)) =
              (match fst (on_stat (Add (if success then 1%Q else 0%Q)) (b, s)) with
               | Ok _ => outcome
               | Panic p' => Panic p'
               end, snd (on_stat (Add (if success then 1%Q else 0%Q)) (b, s))) ->
            recorded success outcome s).
  { intros success outcome s Ht Hdo.
    destruct (mark_records success b s Hwf Ht)
      as (rw1 & cur & rw' & w' & Hadd & Hon & Hw & Hupd & Hb & Hfr & Hcur & Hrest
          & Hhist).
    exists rw1, cur, rw', w'. split; [exact Hadd|].
    split; [by rewrite Hdo, Hon|]. split; [exact Hw|].
    split; [exact Hupd|]. split; [exact Hb|]. split; [exact Hfr|].
    split; [exact Hcur|]. split; [exact Hrest|exact Hhist]. }
  split; [intros err s2 Hreq; split; [|split]|].
  - intros s3 Hok Ht. apply Hrec; [done|].
    rewrite Hrun, Hreq, Hok. cbv zeta. unfold markSuccess.
    by destruct (fst (on_stat (Add 1) (b, s3))) as [[]|].
  - intros s3 Hok Ht. apply Hrec; [done|].
    rewrite Hrun, Hreq, Hok. cbv zeta. unfold markFailure.
    by destruct (fst (on_stat (Add 0) (b, s3))) as [[]|].
  - intros p s3 Hok Ht. apply Hrec; [done|].
    rewrite Hrun, Hreq, Hok. cbv zeta. unfold markFailure.
    by destruct (fst (on_stat (Add 0) (b, s3))) as [[]|].
  - intros p s2 Hreq Ht. apply Hrec; [done|].
    rewrite Hrun, Hreq. cbv zeta. unfold markFailure.
    by destruct (fst (on_stat (Add 0) (b, s2))) as [[]|].
Qed.

Lemma rejected_unfold (req : M (U * World) error) (fallback : Fallback U)
      (acceptable : Acceptable U) b u w e st1 :
  accept (b, (u, w)) = (Ok (Some e), st1) ->
  doReq req fallback acceptable (b, (u, w)) =
    match markFailure st1 with
    | (Ok _, st2) =>
        match fallback with
        | Some f => callback (f (Some e)) st2
        | None => (Ok (Some e), st2)
        end
    | (Panic p, st2) => (Panic p, st2)
    end /\
  allow (b, (u, w)) =
    match markFailure st1 with
    | (Ok _, st2) => (Ok (None, Some e), st2)
    | (Panic p, st2) => (Panic p, st2)
    end.
Proof.
  intros Hacc. unfold doReq, allow, bind, ret. rewrite Hacc.
  split; destruct (markFailure st1) as [[[]|p] st2]; try done.
  by destruct fallback.
Qed.

Lemma timely_draw rw w n :
  timely rw w -> timely rw (set_unif_draws n w).
Proof. by intros [Hm Hl]. Qed.

(** The state [accept] leaves when it rejects: the sampler was asked
    once, after the one reading of the clock. *)
Lemma accept_rejected_state b u w e st1 :
  accept (b, (u, w)) = (Ok (Some e), st1) ->
  st1 = (b, (u, set_unif_draws (S (unif_draws w))
                 (set_mono_reads (S (mono_reads w)) w))).
Proof.
  rewrite accept_unfold. cbv zeta.
  destruct (fst (history _)) as [h|p]; [|done].
  destruct (Qle_bool _ _); [done|]. by intros [= _ <-].
Qed.

End Caller.

(** C6. A call that [accept] rejects: the error is the sentinel
    [ErrServiceUnavailable]; one failure sample is recorded, an [Add]
    of 0: with [rw1] the window as [Add] leaves it when it has moved
    the cursor and [cur] the bucket then under the cursor, the window
    is left as [rw1] with that one bucket changed, its count one higher
    and its sum as it was, and a history read while that bucket is in
    view counts one sample more and no accept more. [doReq] then
    returns that error, or the result of the fallback applied to it
    when a fallback is given; [allow] returns that error and the nil
    promise, on which [Accept] and [Reject] panic. Through the logging
    decorator, [allow] reports the rejection and returns that error
    and a promise whose inner promise is nil: its [Accept] panics at
    once, and its [Reject] stores its reason in the error window and
    then panics; neither records a sample. *)
Theorem rejected_call_records_failure {U} (req : M (U * World) error)
        (acceptable : Acceptable U) (b : googleBreaker) (u : U) (w : World)
        (e : errval) (st1 : GB U) :
  wf (gb_stat b) -> timely (gb_stat b) w ->
  accept (b, (u, w)) = (Ok (Some e), st1) ->
  e = ErrServiceUnavailable /\
  (exists rw1 cur rw' w',
     (* the failure sample *)
     Add 0 (gb_stat b, snd (snd st1)) = (Ok tt, (rw', w')) /\
     w' = set_mono_reads (mono_reads w') (snd (snd st1)) /\
     updateOffset (gb_stat b, snd (snd st1)) = (Ok tt, (rw1, w')) /\
     bucket_at rw1 (rw_offset rw1) = Some cur /\
     same_frame rw1 rw' /\
     bucket_at rw' (rw_offset rw1) =
       Some (mkBucket (Sum cur + 0) (Int64.wrap64 (Count cur + 1))) /\
     (forall j, 0 <= j < rw_size rw1 -> j <> rw_offset rw1 ->
        bucket_at rw' j = bucket_at rw1 j) /\
     (forall ns n (u2 : U) w2,
        counts_within ns n (gb_stat b) -> 0 <= n < Int64.max_int ->
        span_at rw' (reading w2 0) < rw_size rw' ->
        ~ (span_at rw' (reading w2 0) = 0 /\ rw_ignoreCurrent rw' = true) ->
        exists accepts total,
          history (set_gb_stat rw1 b, (u2, w2)) =
            (Ok (accepts, total),
             (set_gb_stat rw1 b, (u2, set_mono_reads (S (mono_reads w2)) w2))) /\
          history (set_gb_stat rw' b, (u2, w2)) =
            (Ok (accepts, total + 1),
             (set_gb_stat rw' b, (u2, set_mono_reads (S (mono_reads w2)) w2)))) /\
     (* what the caller gets *)
     let st2 : GB U := (set_gb_stat rw' b, (u, w')) in
     markFailure st1 = (Ok tt, st2) /\
     doReq req None acceptable (b, (u, w)) = (Ok (Some ErrServiceUnavailable), st2) /\
     (forall f, doReq req (Some f) acceptable (b, (u, w)) =
                  callback (f (Some ErrServiceUnavailable)) st2) /\
     allow (b, (u, w)) = (Ok (None, Some ErrServiceUnavailable), st2) /\
     (* through the decorator, whose callbacks also see its error window *)
     (forall name ew,
        exists lt' wl,
          loggedThrottle_allow (mkLoggedThrottle name b ew, (u, w)) =
            (Ok (mkPromiseWithReason None, Some ErrServiceUnavailable), (lt', (u, wl))) /\
          lt_name lt' = name /\
          lt_internal lt' = set_gb_stat rw' b /\ lt_errWin lt' = ew /\
          length (sink wl) = S (length (sink w)))) /\
  (* the nil promise *)
  (forall s : GB U, internalPromise_Accept None s = (Panic NilDereference, s)) /\
  (forall s : GB U, internalPromise_Reject None s = (Panic NilDereference, s)) /\
  (* the decorator's promise around it *)
  (forall s : LT U,
     PromiseWithReason_Accept (mkPromiseWithReason None) s = (Panic NilDereference, s)) /\
  (forall reason name (b0 : googleBreaker) ew es (u0 : U) w0,
     ew_holds ew es ->
     exists ew',
       PromiseWithReason_Reject (mkPromiseWithReason None) reason
                                (mkLoggedThrottle name b0 ew, (u0, w0)) =
         (Panic NilDereference,
          (mkLoggedThrottle name b0 ew',
           (u0, set_wall_reads (S (wall_reads w0)) w0))) /\
       ew_holds ew' (es ++ [(wall w0 (wall_reads w0) ++ " " ++ reason)%string])) /\
  (forall reason (s : LT U),
     exists p s',
       PromiseWithReason_Reject (mkPromiseWithReason None) reason s = (Panic p, s') /\
       lt_internal (fst s') = lt_internal (fst s)).
Proof.
  intros Hwf Ht Hacc.
  pose proof (accept_error _ _ _ _ _ Hacc) as ->.
  pose proof (accept_rejected_state _ _ _ _ _ Hacc) as ->.
  cbn [fst snd].
  set (w1 := set_unif_draws (S (unif_draws w)) (set_mono_reads (S (mono_reads w)) w))
    in *.
  split; [done|]. split.
  - assert (Ht1 : timely (gb_stat b) w1).
    { subst w1. apply timely_draw.
      apply (timely_advance (gb_stat b)); [done|].
      pose proof (timely_now _ _ Ht). lia. }
    destruct (mark_records false b (u, w1) Hwf Ht1)
      as (rw1 & cur & rw' & w' & Hadd & Hon & Hw & Hupd & Hb & Hfr & Hcur & Hrest & Hhist).
    cbn [fst snd] in Hadd, Hon, Hupd, Hw.
    exists rw1, cur, rw', w'. split; [exact Hadd|]. split; [exact Hw|].
    split; [exact Hupd|].
    split; [exact Hb|]. split; [exact Hfr|]. split; [exact Hcur|].
    split; [exact Hrest|]. split.
    { intros ns n u2 w2 Hcw Hn Hsp Hig.
      destruct (Hhist ns n u2 w2 Hcw Hn Hsp Hig) as (accepts & total & Hh1 & Hh2).
      exists accepts, total. split; [exact Hh1|].
      cbv beta iota in Hh2. rewrite Z.add_0_r in Hh2. exact Hh2. }
    cbv zeta.
    split; [exact Hon|].
    destruct (rejected_unfold req None acceptable _ _ _ _ _ Hacc) as [Hdo Hallow].
    unfold markFailure in Hdo, Hallow. rewrite Hon in Hdo, Hallow.
    split; [exact Hdo|]. split.
    { intros f.
      destruct (rejected_unfold req (Some f) acceptable _ _ _ _ _ Hacc) as [Hdo' _].
      unfold markFailure in Hdo'. by rewrite Hon in Hdo'. }
    split; [exact Hallow|].
    intros name ew.
    (* the same decision, with the error window among the caller's variables *)
    assert (Hacc' : accept (U:=errorWindow * U) (b, ((ew, u), w)) =
              (Ok (Some ErrServiceUnavailable), (b, ((ew, u), w1)))).
    { rewrite accept_unfold in Hacc. rewrite accept_unfold.
      rewrite history_run in Hacc. rewrite history_run.
      cbn [fst snd] in *. cbv zeta in *.
      destruct (fst (Reduce _ _ _)) as [h|p]; [|done].
      destruct (Qle_bool _ _); [done|].
      destruct (Qlt_le_dec _ _); [done|discriminate]. }
    destruct (rejected_unfold (U:=errorWindow * U) (ret None) None
                (fun _ => ret true) _ _ _ _ _ Hacc') as [_ Hallow'].
    assert (Hon2 : on_stat (U:=errorWindow * U) (Add 0) (b, ((ew, u), w1)) =
              (Ok tt, (set_gb_stat rw' b, ((ew, u), w')))).
    { rewrite on_stat_run, Hadd. reflexivity. }
    unfold markFailure in Hallow'. rewrite Hon2 in Hallow'.
    eexists _, _. split.
    { unfold loggedThrottle_allow. unfold bind at 1.
      unfold on_internal, zoom. cbn [fst snd lt_internal lt_errWin lt_name].
      rewrite Hallow'. cbn [fst snd].
      unfold logError, errors_Is_unavailable, is_unavailable.
      cbv beta iota delta [bind gets ret on_errWin on_world zoom Report modify fst snd].
      cbn [lt_errWin lt_internal lt_name]. reflexivity. }
    cbn [lt_internal lt_errWin lt_name sink set_sink length].
    split; [reflexivity|]. split; [reflexivity|]. split; [reflexivity|].
    by rewrite Hw.
  - split; [done|]. split; [done|]. split; [by intros [[] [u' w']]|].
    split.
    + intros reason name b0 ew es u0 w0 Hew.
      destruct (add_holds ew es reason w0 Hew) as [Hadd Hew'].
      eexists. split; [|exact Hew'].
      unfold PromiseWithReason_Reject. unfold bind at 1.
      unfold on_errWin at 1, zoom. cbn [fst snd lt_errWin lt_name lt_internal].
      rewrite Hadd. reflexivity.
    + intros reason [lt [u' w']].
      unfold PromiseWithReason_Reject, bind.
      destruct (on_errWin (errorWindow_add reason) (lt, (u', w'))) as [[[]|p] s'] eqn:Hadd.
      * eexists _, _. split; [reflexivity|].
        unfold on_errWin, zoom in Hadd. cbn [fst snd] in Hadd.
        destruct (errorWindow_add reason _) as [r t]. by injection Hadd as _ <-.
      * eexists _, _. split; [reflexivity|].
        unfold on_errWin, zoom in Hadd. cbn [fst snd] in Hadd.
        destruct (errorWindow_add reason _) as [r t]. by injection Hadd as _ <-.
Qed.

End RequestFacts.

(** ** The decision of the breaker *)

Module DecisionFacts.

Import collection breaker Int64Facts CollectionFacts ReduceFacts BreakerFacts
       RequestFacts.

(** The drop ratio of a history of counts, as a fraction. *)
Lemma dropRatio_counts accepts total :
  0 <= accepts <= total -> total < Int64.max_int ->
  (dropRatio k accepts total ==
     (inject_Z (total - accepts) - (13 # 2)) / inject_Z (total + 1))%Q.
Proof.
  intros Ha Ht. unfold dropRatio, protection, float64, k.
  rewrite sub_small, add_small by int64_range.
  apply Qdiv_comp; [|reflexivity].
  unfold Qeq, Qminus, Qplus, Qopp, inject_Z. cbn. lia.
Qed.

Lemma dropRatio_sign accepts total :
  0 <= accepts <= total -> total < Int64.max_int ->
  (total - accepts <= 6 -> (dropRatio k accepts total <= 0)%Q) /\
  (7 <= total - accepts -> (0 < dropRatio k accepts total)%Q) /\
  (dropRatio k accepts total < 1)%Q.
Proof.
  intros Ha Ht.
  assert (Hden : (0 < inject_Z (total + 1))%Q) by (unfold Qlt, inject_Z; cbn; lia).
  rewrite dropRatio_counts by done.
  split; [|split].
  - intros Hf. apply Qle_shift_div_r; [done|].
    unfold Qle, Qmult, Qminus, Qplus, Qopp, inject_Z. cbn. lia.
  - intros Hf. apply Qlt_shift_div_l; [done|].
    unfold Qlt, Qmult, Qminus, Qplus, Qopp, inject_Z. cbn. lia.
  - apply Qlt_shift_div_r; [done|].
    unfold Qlt, Qmult, Qminus, Qplus, Qopp, inject_Z. cbn. lia.
Qed.

(** X8. The threshold of the breaker, [k] being 1.5 and the
    protection 5: with [accepts] successes among [total] samples in
    the window, [accept] admits without asking the sampler as long as
    the failures, [total - accepts], are 6 at most; from 7 failures on
    the drop ratio [(total - accepts - 6.5) / (total + 1)] is positive
    and below 1, the sampler is asked once, and the call is rejected
    exactly when the draw is below the ratio. *)
Theorem accept_rejects_from_seven_failures {U} (b : googleBreaker) (u : U) (w : World)
        (accepts total : Z) :
  fst (history (b, (u, w))) = Ok (accepts, total) ->
  gb_k b = k ->
  0 <= accepts <= total -> total < Int64.max_int ->
  let ratio := dropRatio k accepts total in
  let w1 := set_mono_reads (S (mono_reads w)) w in
  (ratio == (inject_Z (total - accepts) - (13 # 2)) / inject_Z (total + 1))%Q /\
  (ratio < 1)%Q /\
  (total - accepts <= 6 ->
   (ratio <= 0)%Q /\ accept (b, (u, w)) = (Ok None, (b, (u, w1)))) /\
  (7 <= total - accepts ->
   (0 < ratio)%Q /\
   accept (b, (u, w)) =
     (Ok (if Qlt_le_dec (unif w (unif_draws w)) ratio
          then Some ErrServiceUnavailable else None),
      (b, (u, set_unif_draws (S (unif_draws w)) w1)))).
Proof.
  intros Hh Hk Ha Ht ratio w1.
  destruct (dropRatio_sign accepts total Ha Ht) as (Hlow & Hhigh & Hone).
  split; [by apply dropRatio_counts|]. split; [exact Hone|].
  pose proof (accept_unfold b u w) as Hacc. rewrite Hh, Hk in Hacc.
  cbn [fst snd] in Hacc. cbv zeta in Hacc. fold ratio w1 in Hacc.
  split.
  - intros Hf. specialize (Hlow Hf). split; [exact Hlow|].
    rewrite Hacc. apply Qle_bool_iff in Hlow. fold ratio in Hlow. by rewrite Hlow.
  - intros Hf. specialize (Hhigh Hf). split; [exact Hhigh|].
    rewrite Hacc. destruct (Qle_bool ratio 0) eqn:Hle; [|done].
    apply Qle_bool_iff in Hle. exfalso. apply (Qlt_irrefl 0).
    eapply Qlt_le_trans; [exact Hhigh|exact Hle].
Qed.

(** X9. [accept] and [history] only look: whatever the breaker holds
    and whatever the clock reads, they leave the breaker and the
    caller's variables as they are, read the clock once, report
    nothing, and ask the sampler at most once; the only error [accept]
    returns is [ErrServiceUnavailable], and only after a draw of the
    sampler. *)
Theorem accept_only_looks {U} (b : googleBreaker) (u : U) (w : World) :
  let w1 := set_mono_reads (S (mono_reads w)) w in
  (exists h, history (b, (u, w)) = (h, (b, (u, w1)))) /\
  exists r w',
    accept (b, (u, w)) = (r, (b, (u, w'))) /\
    (w' = w1 \/ w' = set_unif_draws (S (unif_draws w)) w1) /\
    (forall e, r = Ok (Some e) ->
       e = ErrServiceUnavailable /\ w' = set_unif_draws (S (unif_draws w)) w1) /\
    (forall p, r = Panic p -> fst (history (b, (u, w))) = Panic p /\ w' = w1).
Proof.
  intros w1. split; [rewrite history_run; by eexists|].
  rewrite accept_unfold. cbv zeta. fold w1.
  destruct (fst (history (b, (u, w)))) as [h|p].
  - destruct (Qle_bool _ _).
    + eexists _, _. split; [reflexivity|]. split; [by left|]. split; [done|done].
    + eexists _, _. split; [reflexivity|]. split; [by right|]. split; [|done].
      intros e He. destruct (Qlt_le_dec _ _); [|done]. by injection He as <-.
  - eexists _, _. split; [reflexivity|]. split; [by left|]. split; [done|].
    by intros p' [= <-].
Qed.

(** X10. The two ways of settling an admitted call agree. When
    [accept] admits, [allow] records nothing and returns a promise and
    no error; [Accept] on that promise is one [Add] of 1 and [Reject]
    one [Add] of 0; and [doReq] leaves the breaker, the caller's
    variables and the world as [Accept] does when [acceptable] holds
    of the error of [req], and as [Reject] does when it does not. *)
Theorem promise_settles_like_doReq {U} (req : M (U * World) error)
        (fallback : Fallback U) (acceptable : Acceptable U)
        (b : googleBreaker) (u : U) (w : World) (b1 : googleBreaker) (s1 : U * World) :
  accept (b, (u, w)) = (Ok None, (b1, s1)) ->
  b1 = b /\ fst s1 = u /\
  allow (b, (u, w)) = (Ok (Some mkGooglePromise, None), (b, s1)) /\
  (forall err s2 ok s3,
     req s1 = (Ok err, s2) -> acceptable err s2 = (Ok ok, s3) ->
     let settle := if (ok : bool)
                   then internalPromise_Accept (U:=U) (Some mkGooglePromise)
                   else internalPromise_Reject (U:=U) (Some mkGooglePromise) in
     snd (doReq req fallback acceptable (b, (u, w))) = snd (settle (b, s3)) /\
     (fst (settle (b, s3)) = Ok tt ->
      fst (doReq req fallback acceptable (b, (u, w))) = Ok err)) /\
  (forall s : U * World, wf (gb_stat b) -> timely (gb_stat b) (snd s) ->
     exists rw1 w1 rw0 w0,
       Add 1 (gb_stat b, snd s) = (Ok tt, (rw1, w1)) /\
       internalPromise_Accept (Some mkGooglePromise) (b, s) =
         (Ok tt, (set_gb_stat rw1 b, (fst s, w1))) /\
       Add 0 (gb_stat b, snd s) = (Ok tt, (rw0, w0)) /\
       internalPromise_Reject (Some mkGooglePromise) (b, s) =
         (Ok tt, (set_gb_stat rw0 b, (fst s, w0)))).
Proof.
  intros Hacc. destruct (accept_state _ _ _ _ _ _ Hacc) as [-> Hu].
  split; [done|]. split; [done|]. split.
  { unfold allow, bind, ret. by rewrite Hacc. }
  split.
  - intros err s2 ok s3 Hreq Hok settle.
    rewrite (doReq_unfold_admitted req fallback acceptable _ _ _ _ _ Hacc), Hreq, Hok.
    cbv zeta. subst settle. unfold internalPromise_Accept, internalPromise_Reject.
    destruct ok; cbn [fst snd].
    + split; [done|]. by intros ->.
    + split; [done|]. by intros ->.
  - intros s Hwf Ht.
    destruct (mark_run 1%Q b s Hwf Ht) as (rw1 & n1 & Hadd1 & Hon1 & _).
    destruct (mark_run 0%Q b s Hwf Ht) as (rw0 & n0 & Hadd0 & Hon0 & _).
    eexists rw1, _, rw0, _. split; [exact Hadd1|]. split; [exact Hon1|].
    split; [exact Hadd0|exact Hon0].
Qed.

End DecisionFacts.

(** ** The logging decorator *)

Module DecoratorFacts.

Import collection breaker Int64Facts CollectionFacts ReduceFacts BreakerFacts
       RequestFacts ErrorWindowFacts.

Lemma timely_wall rw w n : timely rw w -> timely rw (set_wall_reads n w).
Proof. by intros [Hm Hl]. Qed.

(** [logError] hands its argument back, after a report when the error
    is, or wraps, [ErrServiceUnavailable]. *)
Lemma logError_run {U} (err : error) (lt : loggedThrottle) (u : U) w :
  exists wl,
    logError err (lt, (u, w)) = (Ok err, (lt, (u, wl))) /\
    (errors_Is_unavailable err = false -> wl = w) /\
    (errors_Is_unavailable err = true ->
     exists msg, wl = set_sink (msg :: sink w) w).
Proof.
  unfold logError. destruct (errors_Is_unavailable err).
  - eexists. split.
    + cbv beta iota delta [bind gets ret on_errWin on_world zoom Report modify fst snd].
      by destruct lt.
    + split; [done|]. intros _. by eexists.
  - exists w. split; [done|]. split; [done|discriminate].
Qed.

(** The decision of the wrapped breaker does not depend on the
    variables its callbacks close over. *)
Lemma accept_any_caller {U V} (b : googleBreaker) (u : U) (v : V) w r b1 u1 w1 :
  accept (b, (u, w)) = (r, (b1, (u1, w1))) ->
  accept (b, (v, w)) = (r, (b, (v, w1))).
Proof.
  rewrite !accept_unfold, !history_run. cbn [fst snd]. cbv zeta.
  destruct (fst (Reduce _ _ _)) as [h|p]; [|by intros [= <- _ _ <-]].
  destruct (Qle_bool _ _); by intros [= <- _ _ <-].
Qed.

(** X12. The promise of the decorator on an admitted call.
    [loggedThrottle.allow] returns a promise around the breaker's and
    no error, reports nothing and records nothing. [Accept] on it
    records one success and leaves the error window alone; [Reject]
    stores its reason, stamped with the wall clock, in the error window
    and then records one failure. *)
Theorem PromiseWithReason_settles {U} (name : string) (b : googleBreaker)
        (ew : errorWindow) (es : list string) (u : U) (w wa : World) (reason : string) :
  wf (gb_stat b) -> ew_holds ew es ->
  accept (b, (u, w)) = (Ok None, (b, (u, wa))) ->
  let lt := mkLoggedThrottle name b ew in
  let p := mkPromiseWithReason (Some mkGooglePromise) in
  loggedThrottle_allow (lt, (u, w)) = (Ok (p, None), (lt, (u, wa))) /\
  (forall (u1 : U) w1, timely (gb_stat b) w1 ->
     (exists rw' w',
        Add 1 (gb_stat b, w1) = (Ok tt, (rw', w')) /\
        PromiseWithReason_Accept p (lt, (u1, w1)) =
          (Ok tt, (mkLoggedThrottle name (set_gb_stat rw' b) ew, (u1, w'))))  /\
     (exists rw' w' ew',
        Add 0 (gb_stat b, set_wall_reads (S (wall_reads w1)) w1) = (Ok tt, (rw', w')) /\
        PromiseWithReason_Reject p reason (lt, (u1, w1)) =
          (Ok tt, (mkLoggedThrottle name (set_gb_stat rw' b) ew', (u1, w'))) /\
        ew_holds ew' (es ++ [(wall w1 (wall_reads w1) ++ " " ++ reason)%string]))).
Proof.
  intros Hwf Hew Hacc lt p. split.
  - pose proof (accept_any_caller b u (ew, u) w _ _ _ _ Hacc) as Hacc'.
    unfold loggedThrottle_allow. unfold bind at 1.
    unfold on_internal, zoom. cbn [fst snd lt_internal lt_errWin lt_name lt].
    unfold allow. unfold bind at 1. rewrite Hacc'. reflexivity.
  - intros u1 w1 Ht. split.
    + destruct (mark_run (U:=errorWindow * U) 1%Q b ((ew, u1), w1) Hwf Ht)
        as (rw' & n & Hadd & Hon & _).
      cbn [fst snd] in Hadd, Hon.
      eexists rw', _. split; [exact Hadd|].
      unfold PromiseWithReason_Accept, on_internal, zoom.
      cbn [fst snd lt_internal lt_errWin lt_name lt promise p internalPromise_Accept].
      unfold markSuccess. rewrite Hon. reflexivity.
    + destruct (add_holds ew es reason w1 Hew) as [Hadd Hew'].
      set (w2 := set_wall_reads (S (wall_reads w1)) w1) in *.
      assert (Ht2 : timely (gb_stat b) w2) by (by apply timely_wall).
      match type of Hadd with _ = (_, (?e, _)) => set (ew' := e) in * end.
      destruct (mark_run (U:=errorWindow * U) 0%Q b ((ew', u1), w2) Hwf Ht2)
        as (rw' & n & Hadd0 & Hon & _).
      cbn [fst snd] in Hadd0, Hon.
      eexists rw', _, ew'. split; [exact Hadd0|]. split; [|exact Hew'].
      unfold PromiseWithReason_Reject. unfold bind at 1.
      unfold on_errWin at 1, zoom. cbn [fst snd lt_errWin lt_name lt_internal lt].
      rewrite Hadd. cbn [fst snd].
      unfold on_internal, zoom.
      cbn [fst snd lt_internal lt_errWin lt_name promise p internalPromise_Reject].
      unfold markFailure. rewrite Hon. reflexivity.
Qed.

(** X11. The decorator on an admitted [doReq] whose request returns.
    It returns the error of the request as the breaker does, records
    the same one sample, and stores [err.Error()], stamped with the
    wall clock, in the error window exactly when the error is not nil
    and [acceptable] refuses it; then the error window is as it was.
    It reports to the metrics sink exactly when the error it returns
    is, or wraps, [ErrServiceUnavailable], which here is the request's
    own error. *)
Theorem loggedThrottle_doReq_logs_refused_errors {U} (req : M (U * World) error)
        (fallback : Fallback U) (acceptable : Acceptable U)
        (name : string) (b : googleBreaker) (ew : errorWindow) (es : list string)
        (u : U) (w wa : World) (err : error) (u2 : U) (w2 : World)
        (ok : bool) (u3 : U) (w3 : World) :
  wf (gb_stat b) -> ew_holds ew es ->
  accept (b, (u, w)) = (Ok None, (b, (u, wa))) ->
  req (u, wa) = (Ok err, (u2, w2)) ->
  acceptable err (u2, w2) = (Ok ok, (u3, w3)) ->
  timely (gb_stat b) w3 ->
  let logged := match err with Some _ => negb ok | None => false end in
  let w4 := if logged then set_wall_reads (S (wall_reads w3)) w3 else w3 in
  exists rw' w5 ew' wl,
    Add (if ok then 1%Q else 0%Q) (gb_stat b, w4) = (Ok tt, (rw', w5)) /\
    loggedThrottle_doReq req fallback acceptable (mkLoggedThrottle name b ew, (u, w)) =
      (Ok err, (mkLoggedThrottle name (set_gb_stat rw' b) ew', (u3, wl))) /\
    (logged = false -> ew' = ew) /\
    (forall e, err = Some e -> ok = false ->
       ew_holds ew' (es ++ [(wall w3 (wall_reads w3) ++ " " ++ Error e)%string])) /\
    (errors_Is_unavailable err = false -> wl = w5) /\
    (errors_Is_unavailable err = true -> exists msg, wl = set_sink (msg :: sink w5) w5).
Proof.
  intros Hwf Hew Hacc Hreq Hok Ht logged w4.
  pose proof (accept_any_caller b u (ew, u) w _ _ _ _ Hacc) as Hacc'.
  (* what the classification handed to the breaker does *)
  set (acc' := fun err0 : error =>
         bind (cb_user (acceptable err0)) (fun accept : bool =>
         bind (match err0 with
               | Some e => if negb accept
                           then cb_errWin (U:=U) (errorWindow_add (Error e))
                           else ret tt
               | None => ret tt
               end) (fun _ => ret accept))).
  assert (Hclass : exists ew',
    acc' err ((ew, u2), w2) = (Ok ok, ((ew', u3), w4)) /\
    (logged = false -> ew' = ew) /\
    (forall e, err = Some e -> ok = false ->
       ew_holds ew' (es ++ [(wall w3 (wall_reads w3) ++ " " ++ Error e)%string]))).
  { subst acc'. cbv beta. unfold bind at 1. unfold cb_user at 1, zoom.
    cbn [fst snd]. rewrite Hok. cbn [fst snd].
    destruct err as [e|]; [destruct ok|]; cbn [negb] in *.
    - exists ew. split; [reflexivity|]. split; [done|discriminate].
    - destruct (add_holds ew es (Error e) w3 Hew) as [Hadd Hew'].
      eexists. split.
      + unfold bind, cb_errWin, zoom, ret. cbn [fst snd]. rewrite Hadd. reflexivity.
      + split; [discriminate|]. intros e' [= <-] _. exact Hew'.
    - exists ew. split; [reflexivity|]. split; [done|discriminate]. }
  destruct Hclass as (ew' & Hclass & Hsame & Hstored).
  assert (Ht4 : timely (gb_stat b) w4).
  { subst w4. destruct logged; [by apply timely_wall|done]. }
  destruct (mark_run (U:=errorWindow * U) (if ok then 1%Q else 0%Q) b ((ew', u3), w4)
              Hwf Ht4) as (rw' & n & Hadd & Hon & _).
  cbn [fst snd] in Hadd, Hon.
  destruct (logError_run err (mkLoggedThrottle name (set_gb_stat rw' b) ew') u3
              (set_mono_reads (mono_reads w4 + S n) w4)) as (wl & Hlog & Hquiet & Hrep).
  eexists rw', _, ew', wl. split; [exact Hadd|]. split.
  - unfold loggedThrottle_doReq. unfold bind at 1.
    unfold on_internal at 1, zoom.
    cbn [fst snd lt_internal lt_errWin lt_name].
    fold acc'.
    rewrite (doReq_unfold_admitted (U:=errorWindow * U) _ _ _ _ _ _ _ _ Hacc').
    unfold cb_user at 1, zoom. cbn [fst snd]. rewrite Hreq. cbn [fst snd].
    rewrite Hclass. cbv zeta.
    unfold markSuccess, markFailure.
    destruct ok; rewrite Hon; cbn [fst snd]; exact Hlog.
  - split; [exact Hsame|]. split; [exact Hstored|]. split; [exact Hquiet|exact Hrep].
Qed.

End DecoratorFacts.

(** ** Names of breakers *)

Module NameFacts.

Import stringx breaker Int64Facts CollectionFacts.

Lemma get_in_range (s : string) : forall n,
  (n < String.length s)%nat -> exists c, String.get n s = Some c.
Proof.
  induction s as [|a s IH]; intros n Hn; cbn in Hn; [lia|].
  destruct n as [|n]; cbn; [eauto|]. apply IH. lia.
Qed.

(** Once the cache holds at most [m] chunks of six bits that are not
    zero, the loop of [Randn] fills the [i + 1] bytes left within
    [m + i + 1] rounds, without drawing again. *)
Lemma Randn_loop_ends fuel : forall (m : nat) i cache remain b w,
  0 <= cache < 2 ^ (6 * Z.of_nat m) ->
  -1 <= i < Z.of_nat (length b) ->
  Z.of_nat m + i + 1 < remain <= Int64.max_int ->
  Z.of_nat m + i + 1 < Z.of_nat fuel ->
  exists b',
    Randn_loop fuel i cache remain (b, w) = (Ok (Some tt), (b', w)) /\
    length b' = length b.
Proof.
  induction fuel as [|fuel IH]; intros m i cache remain b w Hc Hi Hr Hf; [lia|].
  cbn [Randn_loop]. destruct (Z.ltb_spec i 0) as [Hneg|Hpos].
  { exists b. by split. }
  destruct (Z.eqb_spec remain 0) as [|_]; [lia|].
  unfold bind at 1 2, ret at 1. cbn [fst snd].
  unfold letterIdxMask, letterIdxBits. change (Z.shiftl 1 6 - 1) with 63.
  change (Z.of_nat (String.length letterBytes)) with 62.
  assert (Hidx : 0 <= Z.land cache 63 < 64).
  { change 63 with (Z.ones 6). rewrite Z.land_ones by lia.
    apply Z.mod_pos_bound. lia. }
  assert (Hshift : Z.shiftr cache 6 = cache / 64).
  { by rewrite Z.shiftr_div_pow2 by lia. }
  assert (Hnext : 0 <= Z.shiftr cache 6 < 2 ^ (6 * Z.of_nat (Nat.pred m))).
  { rewrite Hshift. split; [apply Z.div_pos; lia|].
    destruct m as [|m].
    - cbn in Hc |- *. assert (cache = 0) by lia. by subst.
    - cbn [Nat.pred]. apply Z.div_lt_upper_bound; [lia|].
      replace (6 * Z.of_nat (S m)) with (6 + 6 * Z.of_nat m) in Hc by lia.
      rewrite Z.pow_add_r in Hc by lia. lia. }
  rewrite (sub_small remain 1) by int64_range.
  destruct (Z.ltb_spec (Z.land cache 63) 62) as [Hvalid|Hskip].
  - destruct (get_in_range letterBytes (Z.to_nat (Z.land cache 63))) as [c Hg].
    { change (String.length letterBytes) with 62%nat. lia. }
    rewrite Hg.
    destruct (slice_get b i) as [old|] eqn:Hb.
    2:{ unfold slice_get in Hb. destruct (Z.ltb_spec i 0); [lia|].
        apply lookup_ge_None in Hb. lia. }
    cbv beta iota delta [bind on_obj zoom assign get fst snd]. rewrite Hb.
    cbv beta iota delta [put ret].
    rewrite sub_small by int64_range.
    destruct (IH (Nat.pred m) (i - 1) (Z.shiftr cache 6) (remain - 1)
                 (slice_set b i c) w) as (b' & Hrun & Hlen).
    { exact Hnext. } { unfold slice_set. rewrite length_insert. lia. }
    { lia. } { lia. }
    exists b'. split; [exact Hrun|]. rewrite Hlen. unfold slice_set.
    by rewrite length_insert.
  - assert (Hm : (0 < m)%nat).
    { destruct m; [|lia]. change (2 ^ (6 * Z.of_nat 0)) with 1 in Hc.
      assert (cache = 0) by lia. subst. rewrite Z.land_0_l in Hskip. lia. }
    cbv beta iota delta [ret bind].
    destruct (IH (Nat.pred m) i (Z.shiftr cache 6) (remain - 1) b w)
      as (b' & Hrun & Hlen); [done|lia|lia|lia|].
    by exists b'.
Qed.

(** [Rand] returns a name of eight letters with twenty rounds of fuel. *)
Lemma Rand_returns fuel w :
  source_ok w -> (20 <= fuel)%nat ->
  exists name,
    Rand fuel w = (Ok (Some name), set_rnd_draws (S (rnd_draws w)) w) /\
    String.length name = 8%nat.
Proof.
  intros Hsrc Hfuel. unfold Rand, Randn, defaultRandLen.
  cbn [Z.ltb Z.compare]. unfold bind, Int63.
  destruct (Randn_loop_ends fuel 11 (Int64.sub 8 1) (rnd w (rnd_draws w)) letterIdxMask
              (replicate (Z.to_nat 8) zero) (set_rnd_draws (S (rnd_draws w)) w))
    as (b' & Hrun & Hlen).
  { pose proof (Hsrc (rnd_draws w)) as [H0 H1]. split; [done|].
    eapply Z.lt_le_trans; [exact H1|]. by apply Z.pow_le_mono_r. }
  { by vm_compute. } { by vm_compute. } { change (Int64.sub 8 1) with 7. lia. }
  rewrite Hrun. exists (string_of_list_ascii b'). split; [done|].
  rewrite length_replicate in Hlen. clear Hrun.
  do 9 (destruct b' as [|? b']; try discriminate). reflexivity.
Qed.

(** C1, evidence. [NewBreaker] returns the nil [Breaker] whatever the
    options, also an option that sets a name, and [Name] on it panics. *)
Theorem NewBreaker_returns_nil (fuel : nat) (opts : list Option) (w : World) :
  source_ok w -> (20 <= fuel)%nat ->
  (exists w', NewBreaker fuel opts w = (Ok (Some nilBreaker), w')) /\
  Name nilBreaker = Panic NilDereference /\
  (forall name,
     exists w',
       NewBreaker fuel [fun cb => mkCircuitBreaker name (cb_throttle cb)] w
       = (Ok (Some nilBreaker), w')).
Proof.
  intros Hsrc Hfuel.
  assert (Hnil : forall os, exists w', NewBreaker fuel os w = (Ok (Some nilBreaker), w')).
  { intros os. unfold NewBreaker. cbv zeta.
    destruct (String.length _ =? 0)%nat.
    - destruct (Rand_returns fuel w Hsrc Hfuel) as (name & Hr & _).
      unfold bind, ret. rewrite Hr. eauto.
    - unfold bind, ret. eauto. }
  split; [apply Hnil|]. split; [done|]. intros name. apply Hnil.
Qed.

End NameFacts.

(** ** Random strings *)

Module RandnFacts.

Import stringx Int64Facts CollectionFacts NameFacts.

Lemma get_string_of_list (l : list ascii) : forall p,
  String.get p (string_of_list_ascii l) = l !! p.
Proof. induction l as [|c l IH]; intros [|p]; cbn; try done. Qed.

Lemma length_string_of_list (l : list ascii) :
  String.length (string_of_list_ascii l) = length l.
Proof. induction l as [|c l IH]; cbn; [done|by rewrite IH]. Qed.

(** The loop of [Randn], with what it writes: a letter of the alphabet
    in every position from [i] down, the letter [a] once the cache has
    run out of bits, and nothing above [i]. *)
Lemma Randn_loop_writes fuel : forall (m : nat) i cache remain b w,
  0 <= cache < 2 ^ (6 * Z.of_nat m) ->
  -1 <= i < Z.of_nat (length b) ->
  Z.of_nat m + i + 1 < remain <= Int64.max_int ->
  Z.of_nat m + i + 1 < Z.of_nat fuel ->
  exists b',
    Randn_loop fuel i cache remain (b, w) = (Ok (Some tt), (b', w)) /\
    length b' = length b /\
    (forall p, i < p -> b' !! Z.to_nat p = b !! Z.to_nat p) /\
    (forall p, 0 <= p <= i -> exists c, b' !! Z.to_nat p = Some c /\ letter c) /\
    (forall p, 0 <= p <= i -> p + Z.of_nat m <= i ->
       b' !! Z.to_nat p = Some "a"%char).
Proof.
  induction fuel as [|fuel IH]; intros m i cache remain b w Hc Hi Hr Hf; [lia|].
  cbn [Randn_loop]. destruct (Z.ltb_spec i 0) as [Hneg|Hpos].
  { exists b. split; [done|]. split; [done|]. split; [done|]. split; intros; lia. }
  destruct (Z.eqb_spec remain 0) as [|_]; [lia|].
  unfold bind at 1 2, ret at 1. cbn [fst snd].
  unfold letterIdxMask, letterIdxBits. change (Z.shiftl 1 6 - 1) with 63.
  change (Z.of_nat (String.length letterBytes)) with 62.
  assert (Hidx : 0 <= Z.land cache 63 < 64).
  { change 63 with (Z.ones 6). rewrite Z.land_ones by lia.
    apply Z.mod_pos_bound. lia. }
  assert (Hshift : Z.shiftr cache 6 = cache / 64).
  { by rewrite Z.shiftr_div_pow2 by lia. }
  assert (Hnext : 0 <= Z.shiftr cache 6 < 2 ^ (6 * Z.of_nat (Nat.pred m))).
  { rewrite Hshift. split; [apply Z.div_pos; lia|].
    destruct m as [|m].
    - cbn in Hc |- *. assert (cache = 0) by lia. by subst.
    - cbn [Nat.pred]. apply Z.div_lt_upper_bound; [lia|].
      replace (6 * Z.of_nat (S m)) with (6 + 6 * Z.of_nat m) in Hc by lia.
      rewrite Z.pow_add_r in Hc by lia. lia. }
  rewrite (sub_small remain 1) by int64_range.
  destruct (Z.ltb_spec (Z.land cache 63) 62) as [Hvalid|Hskip].
  - destruct (get_in_range letterBytes (Z.to_nat (Z.land cache 63))) as [c Hg].
    { change (String.length letterBytes) with 62%nat. lia. }
    rewrite Hg.
    destruct (slice_get b i) as [old|] eqn:Hb.
    2:{ unfold slice_get in Hb. destruct (Z.ltb_spec i 0); [lia|].
        apply lookup_ge_None in Hb. lia. }
    cbv beta iota delta [bind on_obj zoom assign get fst snd]. rewrite Hb.
    cbv beta iota delta [put ret].
    rewrite sub_small by int64_range.
    destruct (IH (Nat.pred m) (i - 1) (Z.shiftr cache 6) (remain - 1)
                 (slice_set b i c) w) as (b' & Hrun & Hlen & Habove & Hlet & Ha).
    { exact Hnext. } { unfold slice_set. rewrite length_insert. lia. }
    { lia. } { lia. }
    assert (Hat : b' !! Z.to_nat i = Some c).
    { rewrite Habove by lia. unfold slice_set.
      apply list_lookup_insert_eq. lia. }
    exists b'. split; [exact Hrun|].
    split; [rewrite Hlen; unfold slice_set; by rewrite length_insert|].
    split; [|split].
    + intros p Hp. rewrite Habove by lia. unfold slice_set.
      apply list_lookup_insert_ne. lia.
    + intros p Hp. destruct (Z.eq_dec p i) as [->|Hne].
      * exists c. split; [exact Hat|]. by eexists.
      * apply Hlet. lia.
    + intros p Hp Hpm. destruct (Z.eq_dec p i) as [->|Hne].
      * assert (Hm0 : m = 0%nat) by lia. subst m.
        change (2 ^ (6 * Z.of_nat 0)) with 1 in Hc.
        assert (cache = 0) by lia. subst cache.
        rewrite Hat. cbn in Hg. by injection Hg as <-.
      * apply Ha; lia.
  - assert (Hm : (0 < m)%nat).
    { destruct m; [|lia]. change (2 ^ (6 * Z.of_nat 0)) with 1 in Hc.
      assert (cache = 0) by lia. subst. rewrite Z.land_0_l in Hskip. lia. }
    cbv beta iota delta [ret bind].
    destruct (IH (Nat.pred m) i (Z.shiftr cache 6) (remain - 1) b w)
      as (b' & Hrun & Hlen & Habove & Hlet & Ha); [done|lia|lia|lia|].
    exists b'. split; [exact Hrun|]. split; [exact Hlen|].
    split; [exact Habove|]. split; [exact Hlet|].
    intros p Hp Hpm. apply Ha; lia.
Qed.

(** X13. [Randn(n)] for a length up to 51: it takes one value from the
    source and returns a string of exactly [n] characters, each of them
    one of the 62 letters and digits of [letterBytes]; [n + 12] rounds
    of its loop suffice. [Rand] is [Randn(8)]. A negative length panics
    before the source is asked. *)
Theorem Randn_returns_letters (fuel : nat) (n : Z) (w : World) :
  source_ok w -> 0 <= n <= 51 -> n + 12 <= Z.of_nat fuel ->
  (exists s,
     Randn fuel n w = (Ok (Some s), set_rnd_draws (S (rnd_draws w)) w) /\
     Z.of_nat (String.length s) = n /\
     (forall p c, String.get p s = Some c -> letter c)) /\
  (n = 8 -> Rand fuel w = Randn fuel n w) /\
  (forall k, k < 0 -> Randn fuel k w = (Panic MakeSliceLen, w)).
Proof.
  intros Hsrc Hn Hfuel. split; [|split].
  - unfold Randn. destruct (Z.ltb_spec n 0); [lia|].
    unfold bind, Int63.
    destruct (Randn_loop_writes fuel 11 (Int64.sub n 1) (rnd w (rnd_draws w))
                letterIdxMask (replicate (Z.to_nat n) zero)
                (set_rnd_draws (S (rnd_draws w)) w))
      as (b' & Hrun & Hlen & _ & Hlet & _).
    { pose proof (Hsrc (rnd_draws w)) as [H0 H1]. split; [done|].
      eapply Z.lt_le_trans; [exact H1|]. by apply Z.pow_le_mono_r. }
    { rewrite sub_small by int64_range. rewrite length_replicate. lia. }
    { rewrite sub_small by int64_range. change letterIdxMask with 63.
      unfold Int64.max_int. lia. }
    { rewrite sub_small by int64_range. lia. }
    rewrite Hrun. rewrite sub_small in Hlet by int64_range.
    rewrite length_replicate in Hlen.
    exists (string_of_list_ascii b'). split; [done|].
    split; [rewrite length_string_of_list; lia|].
    intros p c Hp. rewrite get_string_of_list in Hp.
    assert (Hlt : (p < length b')%nat) by (apply lookup_lt_is_Some; eauto).
    destruct (Hlet (Z.of_nat p) ltac:(lia)) as (c' & Hc' & Hl).
    rewrite Nat2Z.id in Hc'. congruence.
  - by intros ->.
  - intros k Hk. unfold Randn. by destruct (Z.ltb_spec k 0); [|lia].
Qed.

(** X14. The loop of [Randn] starts with [remain] at [letterIdxMask],
    63, not at the number of chunks a value of the source holds: the
    one value it takes, of 63 bits, is used up after eleven chunks of
    six bits, and every later chunk is zero. So for a length from 12 to
    51 the characters written last, the first [n - 11] of the string,
    are all the letter [a]. *)
Theorem Randn_long_strings_start_with_a (fuel : nat) (n : Z) (w : World) :
  source_ok w -> 12 <= n <= 51 -> n + 12 <= Z.of_nat fuel ->
  exists s,
    Randn fuel n w = (Ok (Some s), set_rnd_draws (S (rnd_draws w)) w) /\
    Z.of_nat (String.length s) = n /\
    forall p, 0 <= p < n - 11 -> String.get (Z.to_nat p) s = Some "a"%char.
Proof.
  intros Hsrc Hn Hfuel.
  unfold Randn. destruct (Z.ltb_spec n 0); [lia|].
  unfold bind, Int63.
  destruct (Randn_loop_writes fuel 11 (Int64.sub n 1) (rnd w (rnd_draws w))
              letterIdxMask (replicate (Z.to_nat n) zero)
              (set_rnd_draws (S (rnd_draws w)) w))
    as (b' & Hrun & Hlen & _ & _ & Ha).
  { pose proof (Hsrc (rnd_draws w)) as [H0 H1]. split; [done|].
    eapply Z.lt_le_trans; [exact H1|]. by apply Z.pow_le_mono_r. }
  { rewrite sub_small by int64_range. rewrite length_replicate. lia. }
  { rewrite sub_small by int64_range. change letterIdxMask with 63.
    unfold Int64.max_int. lia. }
  { rewrite sub_small by int64_range. lia. }
  rewrite Hrun. rewrite sub_small in Ha by int64_range.
  rewrite length_replicate in Hlen.
  exists (string_of_list_ascii b'). split; [done|].
  split; [rewrite length_string_of_list; lia|].
  intros p Hp. rewrite get_string_of_list. apply Ha; lia.
Qed.

End RandnFacts.

(** ** The properties at sample inputs *)

Module Witnesses.

Import collection breaker Samples.
Import Int64Facts CollectionFacts ReduceFacts ConstructionFacts RobustFacts
       BreakerFacts SampleFacts RequestFacts ErrorWindowFacts NameFacts.

Lemma clock7_monotonic : timex.monotonic world0.
Proof. intros n. cbn. unfold clock7, Int64.max_int. lia. Qed.

Lemma still_monotonic : timex.monotonic world_still.
Proof. intros n. cbn. unfold Int64.max_int. lia. Qed.

Lemma window_of_wf a b c d t :
  wf (window_of [Some a; Some b; Some c; Some d] t).
Proof.
  split; cbn; [unfold Int64.max_int; lia| |lia|lia].
  split; [done|done|]. intros j Hj.
  assert (Hc : j = 0 \/ j = 1 \/ j = 2 \/ j = 3) by lia.
  destruct Hc as [->|[->|[->| ->]]]; cbn; eauto.
Qed.

Lemma timely_world0 bs t : 0 <= t <= 100 -> timely (window_of bs t) world0.
Proof.
  intros Ht. split; [apply clock7_monotonic|].
  change (reading world0 0) with 100. exact Ht.
Qed.

Lemma timely_still bs t : 0 <= t <= 100 -> timely (window_of bs t) world_still.
Proof.
  intros Ht. split; [apply still_monotonic|].
  change (reading world_still 0) with 100. exact Ht.
Qed.

(** Six samples, six of them successes, in the window [all_success];
    forty samples and no success in [all_failure]. *)
Lemma tallied_four (a b c d : Bucket) (n t : Z) :
  tallied_bucket n a -> tallied_bucket n b -> tallied_bucket n c ->
  tallied_bucket n d ->
  tallied n (window_of [Some a; Some b; Some c; Some d] t).
Proof.
  intros Ha Hb Hc Hd j x. unfold bucket_at, wbucket, slice_get.
  cbn [rw_win window_of win_buckets].
  destruct (j <? 0); [done|].
  destruct (Z.to_nat j) as [|[|[|[|i]]]]; cbn; intros [= <-]; done.
Qed.

Lemma all_success_counts t : counts_within 6 6 (window_of all_success t).
Proof.
  split; [|split; vm_compute; discriminate].
  apply tallied_four; [exists 1|exists 2|exists 0|exists 3];
    (split; [reflexivity|cbn; lia]).
Qed.

Lemma all_failure_counts t : counts_within 0 40 (window_of all_failure t).
Proof.
  split; [|split; vm_compute; discriminate].
  apply tallied_four; exists 0; (split; [reflexivity|cbn; lia]).
Qed.

(** C2 at a window last written at 75, read at 100 and 107: two
    buckets elapse, the cursor goes from 1 to 3 and [lastTime] to 105. *)
Lemma Add_rotates_and_realigns_witness :
  wf (window4 75) /\ timely (window4 75) world0 /\
  exists rw',
    Add 1 (window4 75, world0) = (Ok tt, (rw', set_mono_reads 2 world0)) /\
    rw_offset rw' = 3 /\ rw_lastTime rw' = 105 /\
    bucket_at rw' 2 = Some zeroBucket /\
    bucket_at rw' 3 = Some (Bucket_add 1 zeroBucket).
Proof.
  assert (Hwf : wf (window4 75)) by apply window_of_wf.
  assert (Ht : timely (window4 75) world0) by (apply timely_world0; lia).
  split; [exact Hwf|]. split; [exact Ht|].
  destruct (Add_rotates_and_realigns (window4 75) world0 1 Hwf Ht) as [Hrot _].
  destruct Hrot as (rw1 & rw' & _ & Hadd & Hz & _ & Ho & Hl & _ & _ & Ho' & Hl' & Hb & Hk).
  { vm_compute. discriminate. }
  exists rw'. split; [exact Hadd|]. split; [by rewrite Ho', Ho|].
  split; [by rewrite Hl', Hl|]. split.
  - rewrite Hk; [apply (Hz 0); vm_compute; split; [discriminate|done]
                |vm_compute; split; [discriminate|done]|by rewrite Ho].
  - rewrite Ho in Hb. exact Hb.
Defined.

(** C2 with one instant [now] in both of its formulas fails when the
    clock advances between the reading [span] takes and the one
    [updateOffset] takes. Last written at 75 and read at 100, then at
    107, the window moves its cursor by two buckets, to 3, and sets
    [lastTime] to 105: no [now] gives both by
    [offset' = (offset + min((now - lastTime) / interval, size)) mod size]
    and [lastTime' = now - ((now - lastTime) mod interval)]. *)
Lemma Add_single_reading_counterexample :
  exists rw',
    Add 1 (window4 75, world0) = (Ok tt, (rw', set_mono_reads 2 world0)) /\
    forall now : Z,
      ~ (rw_offset rw' = (rw_offset (window4 75) + Z.min ((now - 75) / 10) 4) mod 4 /\
         rw_lastTime rw' = now - (now - 75) mod 10).
Proof.
  exists (mkRollingWindow 4
            (mkWindow [Some (mkBucket 1 1); Some (mkBucket 2 3);
                       Some zeroBucket; Some (Bucket_add 1 zeroBucket)] 4)
            10 3 false 105).
  split; [reflexivity|].
  cbn [rw_offset rw_lastTime window4 window_of]. intros now [Hoff Hlast].
  pose proof (Z.div_mod (now - 75) 10 ltac:(lia)) as Hdm.
  pose proof (Z.mod_pos_bound (now - 75) 10 ltac:(lia)) as Hr.
  assert (Hq : (now - 75) / 10 = 3) by lia.
  rewrite Hq in Hoff. vm_compute in Hoff. discriminate.
Qed.

(** C3 at the same window read at 100: two buckets have elapsed, the
    two others, those of slots 0 and 1, are visited in this order. *)
Lemma Reduce_visits_witness :
  wf (window4 75) /\ timely (window4 75) world0 /\
  Reduce (fun b tr => (b, tr ++ [b])) [] (window4 75, world0) =
    (Ok [mkBucket 1 1; mkBucket 2 3], (window4 75, set_mono_reads 1 world0)).
Proof.
  assert (Hwf : wf (window4 75)) by apply window_of_wf.
  assert (Ht : timely (window4 75) world0) by (apply timely_world0; lia).
  split; [exact Hwf|]. split; [exact Ht|].
  destruct (Reduce_visits (fun b tr => (b, tr ++ [b])) [] (window4 75) world0 Hwf Ht)
    as [Hrun _].
  rewrite Hrun. reflexivity.
Defined.

(** C8 with the callback of [history] and a clock that stands still. *)
Lemma Reduce_idempotent_read_only_witness :
  read_only tally /\
  reading world_still 1 = reading world_still 0 /\
  Reduce tally (0, 0) (snd (Reduce tally (0, 0) (window4 95, world_still))) =
    (Ok (7, 10), (window4 95, set_mono_reads 2 world_still)).
Proof.
  split; [apply tally_read_only|]. split; [reflexivity|].
  destruct (Reduce_idempotent_read_only tally (0, 0) (window4 95) world_still)
    as [_ Hro].
  destruct (Hro tally_read_only) as (_ & Hsame & _).
  rewrite (Hsame eq_refl). reflexivity.
Defined.

(** C8 for every callback fails: [Reduce] is neither read-only nor
    idempotent for a callback that writes through the pointer it is
    handed. [draining] adds up the counts and empties each bucket: on
    the window [window4 95] and a clock that stands still, the first
    [Reduce] returns 10 and leaves the four buckets empty, and the
    second, with the same clock reading and no [Add] in between,
    returns 0. *)
Lemma Reduce_writing_callback_counterexample :
  reading world_still 1 = reading world_still 0 /\
  exists rw1,
    Reduce draining 0 (window4 95, world_still) =
      (Ok 10, (rw1, set_mono_reads 1 world_still)) /\
    Reduce draining 0 (rw1, set_mono_reads 1 world_still) =
      (Ok 0, (rw1, set_mono_reads 2 world_still)) /\
    (* the two aggregates differ *)
    fst (Reduce draining 0 (snd (Reduce draining 0 (window4 95, world_still)))) <>
      fst (Reduce draining 0 (window4 95, world_still)) /\
    (* and the first call changed the buckets *)
    fst (snd (Reduce draining 0 (window4 95, world_still))) <> window4 95 /\
    bucket_at (window4 95) 1 = Some (mkBucket 2 3) /\
    bucket_at rw1 1 = Some (mkBucket 0 0).
Proof.
  split; [reflexivity|].
  exists (window_of [Some (mkBucket 0 0); Some (mkBucket 0 0);
                     Some (mkBucket 0 0); Some (mkBucket 0 0)] 95).
  split; [reflexivity|]. split; [reflexivity|].
  split; [vm_compute; discriminate|]. split; [vm_compute; discriminate|].
  split; reflexivity.
Qed.

(** C4 at a history of six successes out of six. *)
Lemma accept_admits_protected_witness :
  let b := breaker_of (window_of all_success 95) in
  fst (history (b, (tt, world_still))) = Ok (6, 6) /\
  gb_k b = k /\ 0 <= 6 < Int64.max_int /\
  accept (b, (tt, world_still)) = (Ok None, (b, (tt, set_mono_reads 1 world_still))).
Proof.
  intros b.
  assert (Hh : fst (history (b, (tt, world_still))) = Ok (6, 6)) by reflexivity.
  assert (Hr : 0 <= 6 < Int64.max_int) by (unfold Int64.max_int; lia).
  split; [exact Hh|]. split; [reflexivity|]. split; [exact Hr|].
  destruct (accept_admits_protected b tt world_still 6 6 Hh eq_refl) as [Hadm _].
  destruct (Hadm Hr (or_introl eq_refl)) as (_ & Hacc & _).
  exact Hacc.
Defined.

(** C7 at a window last written at 50 or before 55, read at 100: more
    than the four buckets of ten have elapsed. *)
Lemma stale_window_admits_witness :
  let b := breaker_of (window4 50) in
  wf (gb_stat b) /\ timely (gb_stat b) world_still /\
  rw_lastTime (gb_stat b) <= 55 /\
  rw_size (gb_stat b) * rw_interval (gb_stat b) <= reading world_still 0 - 55 /\
  history (b, (tt, world_still)) = (Ok (0, 0), (b, (tt, set_mono_reads 1 world_still))) /\
  accept (b, (tt, world_still)) = (Ok None, (b, (tt, set_mono_reads 1 world_still))).
Proof.
  intros b.
  assert (Hwf : wf (gb_stat b)) by apply window_of_wf.
  assert (Ht : timely (gb_stat b) world_still) by (apply timely_still; lia).
  assert (Hl : rw_lastTime (gb_stat b) <= 55) by (cbn; lia).
  assert (Hs : rw_size (gb_stat b) * rw_interval (gb_stat b)
               <= reading world_still 0 - 55) by (cbn; lia).
  do 4 (split; [assumption|]).
  destruct (stale_window_admits b tt world_still 55 Hwf Ht eq_refl Hl Hs)
    as (_ & _ & Hh & Hacc & _).
  split; [exact Hh|exact Hacc].
Defined.

(** C5 at a request that returns its own error, which the default
    classification counts as a failure: the call returns that error,
    the bucket under the cursor goes from two successes among two
    samples to two among three, and the history from six accepts among
    six to six among seven. *)
Lemma doReq_admitted_returns_req_error_witness :
  let b := breaker_of (window_of all_success 95) in
  let s1 := (tt, set_mono_reads 1 world_still) in
  wf (gb_stat b) /\
  accept (b, (tt, world_still)) = (Ok None, (b, s1)) /\
  timely (gb_stat b) (snd s1) /\
  counts_within 6 6 (gb_stat b) /\
  exists rw' w',
    doReq failing_req None defaultAcceptable (b, (tt, world_still)) =
      (Ok (Some (ErrorString "boom")), (set_gb_stat rw' b, (tt, w'))) /\
    bucket_at (gb_stat b) 1 = Some (mkBucket 2 2) /\
    bucket_at rw' 1 = Some (mkBucket (2 + 0) 3) /\
    history (b, (tt, w')) =
      (Ok (6, 6), (b, (tt, set_mono_reads (S (mono_reads w')) w'))) /\
    history (set_gb_stat rw' b, (tt, w')) =
      (Ok (6, 7), (set_gb_stat rw' b, (tt, set_mono_reads (S (mono_reads w')) w'))).
Proof.
  intros b s1.
  assert (Hwf : wf (gb_stat b)) by apply window_of_wf.
  assert (Hacc : accept (b, (tt, world_still)) = (Ok None, (b, s1))) by reflexivity.
  assert (Ht : timely (gb_stat b) (snd s1)).
  { split; [apply still_monotonic|]. cbn. lia. }
  assert (Hcw : counts_within 6 6 (gb_stat b)) by apply all_success_counts.
  split; [exact Hwf|]. split; [exact Hacc|]. split; [exact Ht|]. split; [exact Hcw|].
  destruct (doReq_admitted_returns_req_error failing_req None defaultAcceptable
              b tt world_still b s1 Hwf Hacc) as (_ & Hret & _).
  destruct (Hret (Some (ErrorString "boom")) s1 eq_refl) as (_ & Hfail & _).
  destruct (Hfail s1 eq_refl Ht)
    as (rw1 & cur & rw' & w' & Hadd & Hdo & Hw & Hupd & Hb & Hfr & Hcur & Hrest & Hhist).
  assert (Hrw1 : (rw1, w') = (gb_stat b, set_mono_reads 2 world_still)).
  { assert (Hrun : updateOffset (gb_stat b, snd s1) =
                     (Ok tt, (gb_stat b, set_mono_reads 2 world_still)))
      by reflexivity.
    rewrite Hrun in Hupd. by injection Hupd as <- <-. }
  injection Hrw1 as -> ->.
  assert (Hc : Some cur = Some (mkBucket 2 2)) by (rewrite <- Hb; reflexivity).
  injection Hc as ->.
  exists rw', (set_mono_reads 2 world_still).
  split; [exact Hdo|]. split; [reflexivity|]. split; [exact Hcur|].
  destruct (Hhist 6 6 tt (set_mono_reads 2 world_still) Hcw)
    as (accepts & total & Hh1 & Hh2).
  { unfold Int64.max_int. lia. }
  { assert (Hsp : span_at rw' (reading (set_mono_reads 2 world_still) 0) = 0).
    { destruct Hfr as (Hsz & Hiv & _ & _ & Hlt). unfold span_at.
      rewrite Hsz, Hiv, Hlt. reflexivity. }
    rewrite Hsp. destruct Hfr as (Hsz & _). rewrite Hsz. reflexivity. }
  { destruct Hfr as (_ & _ & _ & Hig & _). rewrite Hig. intros [_ Hfalse].
    discriminate Hfalse. }
  pose proof (f_equal fst Hh1) as Hold.
  change (Ok (6, 6) = Ok (accepts, total)) in Hold. injection Hold as <- <-.
  split; [reflexivity|exact Hh2].
Defined.

(** C6 at a history of forty failures, the sampler drawing one half:
    the bucket under the cursor goes from ten samples to eleven, none
    of them a success, and the history from forty samples to forty-one.
    [Reject] on the promise the decorator returns stores its reason in
    the error window, whose count goes from 0 to 1, and panics. *)
Lemma rejected_call_records_failure_witness :
  let b := breaker_of (window_of all_failure 95) in
  let w1 := set_unif_draws 1 (set_mono_reads 1 world_still) in
  wf (gb_stat b) /\ timely (gb_stat b) world_still /\
  accept (b, (tt, world_still)) = (Ok (Some ErrServiceUnavailable), (b, (tt, w1))) /\
  counts_within 0 40 (gb_stat b) /\
  exists rw' w',
    markFailure (b, (tt, w1)) = (Ok tt, (set_gb_stat rw' b, (tt, w'))) /\
    doReq failing_req None defaultAcceptable (b, (tt, world_still)) =
      (Ok (Some ErrServiceUnavailable), (set_gb_stat rw' b, (tt, w'))) /\
    allow (b, (tt, world_still)) =
      (Ok (None, Some ErrServiceUnavailable), (set_gb_stat rw' b, (tt, w'))) /\
    bucket_at (gb_stat b) 1 = Some (mkBucket 0 10) /\
    bucket_at rw' 1 = Some (mkBucket (0 + 0) 11) /\
    history (b, (tt, w')) =
      (Ok (0, 40), (b, (tt, set_mono_reads (S (mono_reads w')) w'))) /\
    history (set_gb_stat rw' b, (tt, w')) =
      (Ok (0, 41), (set_gb_stat rw' b, (tt, set_mono_reads (S (mono_reads w')) w'))) /\
    exists ew',
      PromiseWithReason_Reject (mkPromiseWithReason None) "timeout"
        (mkLoggedThrottle "svc" (set_gb_stat rw' b) new_errorWindow, (tt, w')) =
        (Panic NilDereference,
         (mkLoggedThrottle "svc" (set_gb_stat rw' b) ew',
          (tt, set_wall_reads 1 w'))) /\
      ew_count new_errorWindow = 0 /\ ew_count ew' = 1.
Proof.
  intros b w1.
  assert (Hwf : wf (gb_stat b)) by apply window_of_wf.
  assert (Ht : timely (gb_stat b) world_still) by (apply timely_still; lia).
  assert (Hacc : accept (b, (tt, world_still)) =
                   (Ok (Some ErrServiceUnavailable), (b, (tt, w1)))) by reflexivity.
  assert (Hcw : counts_within 0 40 (gb_stat b)) by apply all_failure_counts.
  do 4 (split; [assumption|]).
  destruct (rejected_call_records_failure failing_req defaultAcceptable
              b tt world_still _ _ Hwf Ht Hacc) as (_ & Hrec & _ & _ & _ & Hrej & _).
  destruct Hrec as (rw1 & cur & rw' & w' & Hadd & Hw & Hupd & Hb & Hfr & Hcur & Hrest
                    & Hhist & Hmark & Hdo & _ & Hallow & _).
  cbn [fst snd] in Hupd, Hw.
  assert (Hrw1 : (rw1, w') = (gb_stat b, set_mono_reads 2 w1)).
  { assert (Hrun : updateOffset (gb_stat b, w1) =
                     (Ok tt, (gb_stat b, set_mono_reads 2 w1))) by reflexivity.
    rewrite Hrun in Hupd. by injection Hupd as <- <-. }
  injection Hrw1 as -> ->.
  assert (Hc : Some cur = Some (mkBucket 0 10)) by (rewrite <- Hb; reflexivity).
  injection Hc as ->.
  exists rw', (set_mono_reads 2 w1).
  split; [exact Hmark|]. split; [exact Hdo|]. split; [exact Hallow|].
  split; [reflexivity|]. split; [exact Hcur|].
  destruct (Hhist 0 40 tt (set_mono_reads 2 w1) Hcw)
    as (accepts & total & Hh1 & Hh2).
  { unfold Int64.max_int. lia. }
  { assert (Hsp : span_at rw' (reading (set_mono_reads 2 w1) 0) = 0).
    { destruct Hfr as (Hsz & Hiv & _ & _ & Hlt). unfold span_at.
      rewrite Hsz, Hiv, Hlt. reflexivity. }
    rewrite Hsp. destruct Hfr as (Hsz & _). rewrite Hsz. reflexivity. }
  { destruct Hfr as (_ & _ & _ & Hig & _). rewrite Hig. intros [_ Hfalse].
    discriminate Hfalse. }
  pose proof (f_equal fst Hh1) as Hold.
  change (Ok (0, 40) = Ok (accepts, total)) in Hold. injection Hold as <- <-.
  split; [reflexivity|]. split; [exact Hh2|].
  destruct (Hrej "timeout"%string "svc"%string (set_gb_stat rw' b) new_errorWindow []
              tt (set_mono_reads 2 w1) new_holds) as (ew' & Hrun & Hew').
  exists ew'. split; [exact Hrun|]. split; [reflexivity|].
  rewrite (ewh_count _ _ Hew'). reflexivity.
Defined.

(** C1 with no option. *)
Lemma NewBreaker_returns_nil_witness :
  stringx.source_ok world0 /\ (20 <= 20)%nat /\
  exists w', NewBreaker 20 [] world0 = (Ok (Some nilBreaker), w').
Proof.
  assert (Hsrc : stringx.source_ok world0) by (intros n; cbn; lia).
  split; [exact Hsrc|]. split; [lia|].
  destruct (NewBreaker_returns_nil 20 [] world0 Hsrc (le_n 20)) as [Hnil _].
  exact Hnil.
Defined.

End Witnesses.

(** ** Further properties at sample inputs *)

Module MoreWitnesses.

Import collection breaker stringx Samples.
Import Int64Facts CollectionFacts ReduceFacts ConstructionFacts RobustFacts
       BreakerFacts SampleFacts RequestFacts ErrorWindowFacts DecisionFacts
       DecoratorFacts NameFacts RandnFacts Witnesses.

(** The clock standing still, whatever the number of readings taken. *)
Lemma timely_admitted bs t n :
  0 <= t <= 100 -> timely (window_of bs t) (set_mono_reads n world_still).
Proof. intros Ht. split; [apply still_monotonic|]. cbn. lia. Qed.

(** X1 at the window last written at 75, read at 100 and 107: the
    cursor moves from 1 to 3. *)
Lemma Add_keeps_well_formed_witness :
  wf (window4 75) /\
  exists rw' k,
    Add 1 (window4 75, world0) = (Ok tt, (rw', set_mono_reads (0 + S k) world0)) /\
    wf rw' /\ rw_size rw' = 4 /\ rw_offset rw' = 3.
Proof.
  assert (Hwf : wf (window4 75)) by apply window_of_wf.
  split; [exact Hwf|].
  destruct (Add_keeps_well_formed (window4 75) world0 1 Hwf)
    as (rw' & k & Hadd & _ & Hwf' & Hsz & _ & _ & Hoff & _).
  exists rw', k. split; [exact Hadd|]. split; [exact Hwf'|].
  split; [exact Hsz|exact Hoff].
Defined.

(** X2 at the same window, with a callback that empties the buckets. *)
Lemma Reduce_keeps_well_formed_witness :
  wf (window4 75) /\
  exists r rw',
    Reduce draining 0 (window4 75, world0) = (Ok r, (rw', set_mono_reads 1 world0)) /\
    wf rw' /\ same_frame (window4 75) rw'.
Proof.
  assert (Hwf : wf (window4 75)) by apply window_of_wf.
  split; [exact Hwf|].
  destruct (Reduce_keeps_well_formed draining 0 (window4 75) world0 Hwf)
    as (Hrun & Hwf' & Hfr & _).
  eexists _, _. split; [exact Hrun|]. split; [exact Hwf'|exact Hfr].
Defined.

(** X3 at a window of four buckets whose interval is zero. *)
Lemma zero_interval_panics_witness :
  let rw := mkRollingWindow 4 (rw_win (window4 75)) 0 1 false 75 in
  rw_interval rw = 0 /\
  Add 1 (rw, world0) = (Panic DivideByZero, (rw, set_mono_reads 1 world0)) /\
  Reduce tally (0, 0) (rw, world0) = (Panic DivideByZero, (rw, set_mono_reads 1 world0)).
Proof.
  intros rw. split; [reflexivity|].
  destruct (zero_interval_panics tally (0, 0) 1 rw world0 eq_refl)
    as (_ & _ & Hadd & Hred & _).
  split; [exact Hadd|exact Hred].
Defined.

(** X4 at the window last written at 75 and read at 100: two slots
    are stale, 2 and 3, and the two others are visited, once each. *)
Lemma Reduce_visits_fresh_slots_once_witness :
  wf (window4 75) /\
  reduce_slots (window4 75) (span_at (window4 75) (reading world0 0)) = [0; 1] /\
  NoDup (reduce_slots (window4 75) (span_at (window4 75) (reading world0 0))) /\
  (In 2 (reduce_slots (window4 75) (span_at (window4 75) (reading world0 0))) <->
   ~ stale (window4 75) (span_at (window4 75) (reading world0 0)) 2 /\
   ~ (span_at (window4 75) (reading world0 0) = 0 /\
      rw_ignoreCurrent (window4 75) = true /\ 2 = rw_offset (window4 75))).
Proof.
  assert (Hwf : wf (window4 75)) by apply window_of_wf.
  split; [exact Hwf|]. split; [reflexivity|].
  destruct (Reduce_visits_fresh_slots_once tally (0, 0) (window4 75) world0 Hwf)
    as (_ & Hnd & Hin & _).
  split; [exact Hnd|]. apply Hin. cbn. lia.
Defined.

(** X5 at the window last written at 95, with and without
    [ignoreCurrent], the clock standing still. *)
Lemma ignoreCurrent_hides_the_last_sample_witness :
  let rw := set_rw_ignoreCurrent true (window4 95) in
  wf rw /\ timely rw world_still /\
  exists rw1 b rw' w',
    updateOffset (rw, world_still) = (Ok tt, (rw1, w')) /\
    Add 1 (rw, world_still) = (Ok tt, (rw', w')) /\
    bucket_at rw' (rw_offset rw') = Some (Bucket_add 1 b) /\
    (reading w' 0 < rw_lastTime rw' + rw_interval rw' ->
     fst (Reduce tally (0, 0) (rw', w')) = fst (Reduce tally (0, 0) (rw1, w'))).
Proof.
  intros rw.
  assert (Hwf : wf rw).
  { destruct (window_of_wf (mkBucket 1 1) (mkBucket 2 3) (mkBucket 0 2) (mkBucket 4 4) 95)
      as [H1 H2 H3 H4]. by split. }
  assert (Ht : timely rw world_still).
  { split; [apply still_monotonic|]. cbn. lia. }
  split; [exact Hwf|]. split; [exact Ht|].
  destruct (ignoreCurrent_hides_the_last_sample tally (0, 0) rw world_still 1 Hwf Ht)
    as (rw1 & b & rw' & w' & Hupd & Hb & Hadd & Hcur & Hview & _).
  exists rw1, b, rw', w'. split; [exact Hupd|]. split; [exact Hadd|].
  split; [exact Hcur|]. intros Hsame.
  destruct (Hview Hsame) as [Hig _]. by destruct (Hig eq_refl).
Defined.

(** X6 at the window last written at 50 and read at 100: more than
    its four buckets of ten have elapsed. *)
Lemma Add_after_idle_window_keeps_one_sample_witness :
  wf (window4 50) /\ timely (window4 50) world0 /\
  rw_size (window4 50) * rw_interval (window4 50) <=
    reading world0 0 - rw_lastTime (window4 50) /\
  exists rw',
    Add 1 (window4 50, world0) = (Ok tt, (rw', set_mono_reads 2 world0)) /\
    rw_offset rw' = 1 /\
    bucket_at rw' 1 = Some (Bucket_add 1 zeroBucket) /\
    bucket_at rw' 0 = Some zeroBucket /\ bucket_at rw' 2 = Some zeroBucket /\
    bucket_at rw' 3 = Some zeroBucket.
Proof.
  assert (Hwf : wf (window4 50)) by apply window_of_wf.
  assert (Ht : timely (window4 50) world0) by (apply timely_world0; lia).
  assert (Hidle : rw_size (window4 50) * rw_interval (window4 50) <=
                  reading world0 0 - rw_lastTime (window4 50))
    by (vm_compute; discriminate).
  do 3 (split; [assumption|]).
  destruct (Add_after_idle_window_keeps_one_sample (window4 50) world0 1 Hwf Ht Hidle)
    as (rw' & Hadd & Hoff & Hcur & Hrest & _).
  exists rw'. split; [exact Hadd|]. split; [exact Hoff|]. split; [exact Hcur|].
  split; [|split]; apply Hrest; cbn; lia.
Defined.

(** X7 at the window of six successes, the clock standing still. *)
Lemma history_counts_recorded_samples_witness :
  let b := breaker_of (window_of all_success 95) in
  wf (gb_stat b) /\ timely (gb_stat b) world_still /\
  counts_within 6 6 (gb_stat b) /\ 0 <= 6 < Int64.max_int /\
  (exists accepts total,
     history (b, (tt, world_still)) =
       (Ok (accepts, total), (b, (tt, set_mono_reads 1 world_still))) /\
     0 <= accepts <= total /\ accepts <= 6 /\ total <= 6) /\
  (exists b' w',
     markFailure (b, (tt, world_still)) = (Ok tt, (b', (tt, w'))) /\
     counts_within 6 7 (gb_stat b')).
Proof.
  intros b.
  assert (Hwf : wf (gb_stat b)) by apply window_of_wf.
  assert (Ht : timely (gb_stat b) world_still) by (apply timely_still; lia).
  assert (Hcw : counts_within 6 6 (gb_stat b)) by apply all_success_counts.
  assert (Hn : 0 <= 6 < Int64.max_int) by (unfold Int64.max_int; lia).
  do 4 (split; [assumption|]).
  destruct (history_counts_recorded_samples b tt world_still 6 6 Hwf Ht Hcw Hn)
    as (Hh & _ & Hfail & _).
  split; [exact Hh|].
  destruct Hfail as (b' & w' & Hrun & _ & _ & _ & Hcw').
  by exists b', w'.
Defined.

(** X8 at forty failures and no success: the ratio is 33.5 / 41 and
    the draw of one half is below it. *)
Lemma accept_rejects_from_seven_failures_witness :
  let b := breaker_of (window_of all_failure 95) in
  fst (history (b, (tt, world_still))) = Ok (0, 40) /\
  gb_k b = k /\ 0 <= 0 <= 40 /\ 40 < Int64.max_int /\ 7 <= 40 - 0 /\
  (0 < dropRatio k 0 40)%Q /\ (dropRatio k 0 40 < 1)%Q /\
  accept (b, (tt, world_still)) =
    (Ok (if Qlt_le_dec (unif world_still (unif_draws world_still)) (dropRatio k 0 40)
         then Some ErrServiceUnavailable else None),
     (b, (tt, set_unif_draws (S (unif_draws world_still))
                (set_mono_reads (S (mono_reads world_still)) world_still)))).
Proof.
  intros b.
  assert (Hh : fst (history (b, (tt, world_still))) = Ok (0, 40)) by reflexivity.
  assert (Hmax : 40 < Int64.max_int) by (unfold Int64.max_int; lia).
  split; [exact Hh|]. split; [reflexivity|]. split; [lia|]. split; [exact Hmax|].
  split; [lia|].
  destruct (accept_rejects_from_seven_failures b tt world_still 0 40 Hh eq_refl
              ltac:(lia) Hmax) as (_ & Hone & _ & Hrej).
  destruct (Hrej ltac:(lia)) as [Hpos Hacc].
  split; [exact Hpos|]. split; [exact Hone|exact Hacc].
Defined.

(** X10 at the window of six successes: admitted, then settled by a
    request whose error is refused. *)
Lemma promise_settles_like_doReq_witness :
  let b := breaker_of (window_of all_success 95) in
  let s1 := (tt, set_mono_reads 1 world_still) in
  accept (b, (tt, world_still)) = (Ok None, (b, s1)) /\
  allow (b, (tt, world_still)) = (Ok (Some mkGooglePromise, None), (b, s1)) /\
  snd (doReq failing_req None defaultAcceptable (b, (tt, world_still))) =
    snd (internalPromise_Reject (Some mkGooglePromise) (b, s1)).
Proof.
  intros b s1.
  assert (Hacc : accept (b, (tt, world_still)) = (Ok None, (b, s1))) by reflexivity.
  split; [exact Hacc|].
  destruct (promise_settles_like_doReq failing_req None defaultAcceptable
              b tt world_still b s1 Hacc) as (_ & _ & Hallow & Hsettle & _).
  split; [exact Hallow|].
  destruct (Hsettle (Some (ErrorString "boom")) s1 false s1 eq_refl eq_refl) as [Hs _].
  exact Hs.
Defined.

(** X11 at the same breaker behind the decorator, its error window
    new: the refused error of the request is stored. *)
Lemma loggedThrottle_doReq_logs_refused_errors_witness :
  let b := breaker_of (window_of all_success 95) in
  let wa := set_mono_reads 1 world_still in
  wf (gb_stat b) /\ ew_holds new_errorWindow [] /\
  accept (b, (tt, world_still)) = (Ok None, (b, (tt, wa))) /\
  failing_req (tt, wa) = (Ok (Some (ErrorString "boom")), (tt, wa)) /\
  defaultAcceptable (Some (ErrorString "boom")) (tt, wa) = (Ok false, (tt, wa)) /\
  timely (gb_stat b) wa /\
  exists rw' ew' wl,
    loggedThrottle_doReq failing_req None defaultAcceptable
      (mkLoggedThrottle "svc" b new_errorWindow, (tt, world_still)) =
      (Ok (Some (ErrorString "boom")),
       (mkLoggedThrottle "svc" (set_gb_stat rw' b) ew', (tt, wl))) /\
    ew_holds ew' ([] ++ ["12:00:00 boom"%string]) /\
    sink wl = [].
Proof.
  intros b wa.
  assert (Hwf : wf (gb_stat b)) by apply window_of_wf.
  assert (Hacc : accept (b, (tt, world_still)) = (Ok None, (b, (tt, wa)))) by reflexivity.
  assert (Ht : timely (gb_stat b) wa) by (apply timely_admitted; lia).
  split; [exact Hwf|]. split; [exact new_holds|]. split; [exact Hacc|].
  split; [reflexivity|]. split; [reflexivity|]. split; [exact Ht|].
  destruct (loggedThrottle_doReq_logs_refused_errors failing_req None defaultAcceptable
              "svc" b new_errorWindow [] tt world_still wa
              (Some (ErrorString "boom")) tt wa false tt wa
              Hwf new_holds Hacc eq_refl eq_refl Ht)
    as (rw' & w5 & ew' & wl & Hadd & Hrun & _ & Hstored & Hquiet & _).
  exists rw', ew', wl. split; [exact Hrun|].
  split; [exact (Hstored _ eq_refl eq_refl)|].
  rewrite (Hquiet eq_refl).
  pose proof (f_equal (fun r => sink (snd (snd r))) Hadd) as Hsink.
  cbn [snd] in Hsink. rewrite <- Hsink. reflexivity.
Defined.

(** X12 at the same breaker: the promise of an admitted call, then
    rejected with a reason. *)
Lemma PromiseWithReason_settles_witness :
  let b := breaker_of (window_of all_success 95) in
  let wa := set_mono_reads 1 world_still in
  let lt := mkLoggedThrottle "svc" b new_errorWindow in
  wf (gb_stat b) /\ ew_holds new_errorWindow [] /\
  accept (b, (tt, world_still)) = (Ok None, (b, (tt, wa))) /\
  timely (gb_stat b) wa /\
  loggedThrottle_allow (lt, (tt, world_still)) =
    (Ok (mkPromiseWithReason (Some mkGooglePromise), None), (lt, (tt, wa))) /\
  exists rw' w' ew',
    PromiseWithReason_Reject (mkPromiseWithReason (Some mkGooglePromise)) "timeout"
                             (lt, (tt, wa)) =
      (Ok tt, (mkLoggedThrottle "svc" (set_gb_stat rw' b) ew', (tt, w'))) /\
    ew_holds ew' ([] ++ ["12:00:00 timeout"%string]).
Proof.
  intros b wa lt.
  assert (Hwf : wf (gb_stat b)) by apply window_of_wf.
  assert (Hacc : accept (b, (tt, world_still)) = (Ok None, (b, (tt, wa)))) by reflexivity.
  assert (Ht : timely (gb_stat b) wa) by (apply timely_admitted; lia).
  split; [exact Hwf|]. split; [exact new_holds|]. split; [exact Hacc|].
  split; [exact Ht|].
  destruct (PromiseWithReason_settles "svc" b new_errorWindow [] tt world_still wa
              "timeout" Hwf new_holds Hacc) as [Hallow Hsettle].
  split; [exact Hallow|].
  destruct (Hsettle tt wa Ht) as (_ & rw' & w' & ew' & _ & Hrej & Hew').
  by exists rw', w', ew'.
Defined.

(** X13 for a name of eight characters. *)
Lemma Randn_returns_letters_witness :
  source_ok world0 /\ 0 <= 8 <= 51 /\ 8 + 12 <= Z.of_nat 20 /\
  exists s,
    Randn 20 8 world0 = (Ok (Some s), set_rnd_draws 1 world0) /\
    Z.of_nat (String.length s) = 8 /\
    (forall p c, String.get p s = Some c -> letter c).
Proof.
  assert (Hsrc : source_ok world0) by (intros n; cbn; lia).
  split; [exact Hsrc|]. split; [lia|]. split; [lia|].
  destruct (Randn_returns_letters 20 8 world0 Hsrc ltac:(lia) ltac:(lia)) as [Hs _].
  exact Hs.
Defined.

(** X14 for a string of twenty characters: the first nine are [a]. *)
Lemma Randn_long_strings_start_with_a_witness :
  source_ok world0 /\ 12 <= 20 <= 51 /\ 20 + 12 <= Z.of_nat 32 /\
  exists s,
    Randn 32 20 world0 = (Ok (Some s), set_rnd_draws 1 world0) /\
    Z.of_nat (String.length s) = 20 /\
    forall p, 0 <= p < 20 - 11 -> String.get (Z.to_nat p) s = Some "a"%char.
Proof.
  assert (Hsrc : source_ok world0) by (intros n; cbn; lia).
  split; [exact Hsrc|]. split; [lia|]. split; [lia|].
  exact (Randn_long_strings_start_with_a 32 20 world0 Hsrc ltac:(lia) ltac:(lia)).
Defined.

End MoreWitnesses.
